(** * Live TLS credential manager of handletec/listener

    A shallow embedding of [tlsconfigbuilder.go] (type [TLSConfigBuilder]),
    of the watcher-enabled [TLS] type and of the trust pool of the [TLS]
    type of [tls.go], with the properties of the
    trust pool, the credential cell, the file-change monitor and the
    manager that the specification states about them.

    Go values are embedded as follows.
    - [[]byte] is [list Byte.byte], [string] is [string].
    - A Go [(value, error)] result is [result]; a call that may panic
      returns [outcome].
    - [*x509.CertPool] is a location into a heap of pools, because the
      builder and every [tls.Config] it hands out share one pool object.
    - [atomic.Value] holding a [*tls.Certificate] is an [option]; the
      interleaving of its [Store] and [Load] with the construction of the
      certificate is modelled apart, in [Module CredentialCell].
    - The packages [os], [encoding/pem], [crypto/x509], [crypto/tls],
      [path/filepath] and [fsnotify] are outside the repository: what the
      code calls from them is taken as a parameter ([Lib] for the pure
      functions, [OS] for what depends on the disk at the time of the
      call), except [filepath.Ext] and [strings.ToLower], which decide the
      directory scan and are written out. *)

From Stdlib Require Import ZArith List String Ascii Lia Bool.
From Stdlib.Strings Require Import Byte.
From stdpp Require Import base option list gmap strings.

Local Open Scope string_scope.
Local Open Scope list_scope.

(** ** Go results, errors and panics *)

(** [error]: an error produced outside the repository, or
    [fmt.Errorf(format, args...)]; [Errorf_w] is the form whose format ends
    in [%w] and wraps [cause]. *)
Inductive error :=
| ExternalError (msg : string)
| Errorf (format : string) (args : list string)
| Errorf_w (format : string) (args : list string) (cause : error).

Inductive result (A : Type) :=
| Ok (a : A)
| Err (e : error).
Arguments Ok {A} a.
Arguments Err {A} e.

Inductive outcome (A : Type) :=
| Return (a : A)
| Panic (e : error).
Arguments Return {A} a.
Arguments Panic {A} e.

(** The path [p] is one of the arguments formatted into the outermost
    message of [e]. *)
Definition names_path (e : error) (p : string) : Prop :=
  match e with
  | ExternalError _ => False
  | Errorf _ args => p ∈ args
  | Errorf_w _ args _ => p ∈ args
  end.

Definition unwrap (e : error) : option error :=
  match e with
  | Errorf_w _ _ cause => Some cause
  | _ => None
  end.

(** ** Bytes, files and directories *)

Definition bytes := list Byte.byte.

Global Instance byte_eq_dec : EqDecision Byte.byte := Byte.byte_eq_dec.

Inductive FileMode :=
| ModeRegular | ModeDir | ModeSymlink | ModeNamedPipe
| ModeSocket | ModeDevice | ModeCharDevice | ModeIrregular.

Definition IsRegular (m : FileMode) : bool :=
  match m with ModeRegular => true | _ => false end.

Record DirEntry := { Name : string; Type_ : FileMode }.

Record FileInfo := { IsDir : bool }.

(** An open directory, [*os.File]. *)
Definition File := nat.

(** [os.FileInfo] as [File.Readdir] returns it: [Name()] and the type
    bits of [Mode()]. *)
Record fileStat := { fi_Name : string; fi_Mode : FileMode }.

(** ** [filepath.Ext] and [strings.ToLower] *)

(** [os.IsPathSeparator] on Unix. *)
Definition IsPathSeparator (c : ascii) : bool := Ascii.eqb c "/"%char.

(** The loop of [filepath.Ext], from the last byte towards the first:
    [rev_path] is what is still to be visited, [acc] is [path[i+1:]]. *)
Fixpoint Ext_scan (rev_path acc : list ascii) : list ascii :=
  match rev_path with
  | [] => []
  | c :: more =>
      if IsPathSeparator c then []
      else if Ascii.eqb c "."%char then c :: acc
      else Ext_scan more (c :: acc)
  end.

Definition filepath_Ext (path : string) : string :=
  string_of_list_ascii (Ext_scan (rev (list_ascii_of_string path)) []).

(** [strings.ToLower] on the bytes ['A'..'Z']; other bytes are kept. Go maps
    a rune outside ASCII with [unicode.ToLower], which never yields one of
    the letters of [".crt"] and [".pem"], so the comparison the directory
    scan makes is the one made here. *)
Definition lower_ascii (c : ascii) : ascii :=
  let n := nat_of_ascii c in
  if (65 <=? n)%nat && (n <=? 90)%nat then ascii_of_nat (n + 32) else c.

Fixpoint strings_ToLower (s : string) : string :=
  match s with
  | EmptyString => EmptyString
  | String c rest => String (lower_ascii c) (strings_ToLower rest)
  end.

(** ** Certificates, pools, credentials and configurations *)

(** [*x509.Certificate], identified by its DER encoding. *)
Record x509_Certificate := { Raw : bytes }.

Global Instance x509_Certificate_eq_dec : EqDecision x509_Certificate.
Proof. solve_decision. Defined.

(** [x509.CertPool]: the certificates in the order they were added.
    [AddCert] does nothing for a certificate that is already there. *)
Definition x509_CertPool := list x509_Certificate.

Definition NewCertPool : x509_CertPool := [].

Definition AddCert (s : x509_CertPool) (c : x509_Certificate) : x509_CertPool :=
  if decide (c ∈ s) then s else s ++ [c].

(** [tls.Certificate]: the chain and the private key; the other fields are
    left at their zero value by the loaders the code calls. *)
Record tls_Certificate := {
  Certificate : list bytes;
  PrivateKey : bytes
}.

Global Instance tls_Certificate_eq_dec : EqDecision tls_Certificate.
Proof. solve_decision. Defined.

(** [pem.Block] *)
Record pem_Block := {
  Type__ : string;
  Headers : list (string * string);
  Bytes : bytes
}.

(** [TLSClientAuth] and [tls.ClientAuthType] are integer types. *)
Definition TLSClientAuth := Z.
Definition TLSClientAuthNone : TLSClientAuth := 0%Z.
Definition TLSClientAuthRequest : TLSClientAuth := 1%Z.
Definition TLSClientAuthRequire : TLSClientAuth := 2%Z.
Definition TLSClientAuthVerify : TLSClientAuth := 3%Z.
Definition TLSClientAuthRequireVerify : TLSClientAuth := 4%Z.

Definition AuthType (tca : TLSClientAuth) : Z :=
  if (tca <? 0)%Z || (4 <? tca)%Z then 0%Z else tca.

Definition VersionTLS12 : Z := 771%Z.

Definition loc := nat.

(** [tls.Config], with the fields the code sets. The two pools are
    pointers. *)
Record tls_Config := {
  Certificates : list tls_Certificate;
  RootCAs : option loc;
  ClientCAs : option loc;
  ClientAuth : Z;
  MinVersion : Z;
  InsecureSkipVerify : bool
}.

Definition new_tls_Config : tls_Config :=
  {| Certificates := []; RootCAs := None; ClientCAs := None;
     ClientAuth := 0%Z; MinVersion := 0%Z; InsecureSkipVerify := false |}.

(** ** The world outside the repository *)

(** Pure library functions. *)
Record Lib := {
  pem_Decode : bytes -> option (pem_Block * bytes);
  x509_ParseCertificate : bytes -> result x509_Certificate;
  x509_AppendCertsFromPEM : x509_CertPool -> bytes -> x509_CertPool * bool;
  tls_X509KeyPair : bytes -> bytes -> result tls_Certificate;
  filepath_Join : string -> string -> string;
  filepath_Dir : string -> string;
  os_IsNotExist : error -> bool;
  fmt_Sprint_FileInfo : fileStat -> string
}.

(** [pem.Decode] returns as rest a proper suffix of its input when it finds
    a block. *)
Definition Decode_consumes (lib : Lib) : Prop :=
  forall data block rest,
    pem_Decode lib data = Some (block, rest) ->
    (length rest < length data)%nat.

(** The loop of [CertPool.AppendCertsFromPEM], as [crypto/x509]
    writes it over [pem.Decode] and [x509.ParseCertificate]:

      for len(pemCerts) > 0 {
        block, pemCerts = pem.Decode(pemCerts)
        if block == nil { break }
        if block.Type != "CERTIFICATE" || len(block.Headers) != 0 { continue }
        cert, err := ParseCertificate(block.Bytes)
        if err != nil { continue }
        s.AddCert(cert); ok = true
      }
      return ok

    [None]: out of fuel. *)
Fixpoint AppendCertsFromPEM_loop
  (decode : bytes -> option (pem_Block * bytes))
  (parse : bytes -> result x509_Certificate)
  (fuel : nat) (pemCerts : bytes) (s : x509_CertPool) (ok : bool)
  : option (x509_CertPool * bool) :=
  match fuel with
  | O => None
  | S fuel' =>
      match pemCerts with
      | [] => Some (s, ok)
      | _ =>
          match decode pemCerts with
          | None => Some (s, ok)
          | Some (block, rest) =>
              if negb (String.eqb (Type__ block) "CERTIFICATE")
                 || negb (length (Headers block) =? 0)%nat then
                AppendCertsFromPEM_loop decode parse fuel' rest s ok
              else
                match parse (Bytes block) with
                | Err _ => AppendCertsFromPEM_loop decode parse fuel' rest s ok
                | Ok c => AppendCertsFromPEM_loop decode parse fuel' rest (AddCert s c) true
                end
          end
      end
  end.

(** [x509_AppendCertsFromPEM] is that loop over the [pem.Decode] and the
    [x509.ParseCertificate] of the same library. *)
Definition AppendCertsFromPEM_law (lib : Lib) : Prop :=
  forall s pemCerts,
    AppendCertsFromPEM_loop (pem_Decode lib) (x509_ParseCertificate lib)
      (S (length pemCerts)) pemCerts s false
    = Some (x509_AppendCertsFromPEM lib s pemCerts).

(** What a call finds on the machine at the time it is made. *)
Record OS := {
  os_Stat : string -> result FileInfo;
  os_ReadFile : string -> result bytes;
  os_ReadDir : string -> result (list DirEntry);
  os_Open : string -> result File;
  File_Readdir : File -> result (list fileStat);
  tls_LoadX509KeyPair : string -> string -> result tls_Certificate;
  x509_SystemCertPool : result (option x509_CertPool);
  fsnotify_NewWatcher : result nat
}.

(** [chan struct{}] as far as [close] and a receive in a [select] with a
    [default] can tell. *)
Inductive chan := chan_nil | chan_open | chan_closed.

(** [*fsnotify.Watcher]: its handle and the directories added to it. *)
Record Watcher := { handle : nat; dirs : list string }.

Global Instance Watcher_eq_dec : EqDecision Watcher.
Proof. solve_decision. Defined.

(** [fsnotify.Event] and the bits of [fsnotify.Op]. *)
Record Event := { ev_Name : string; ev_Op : Z }.
Definition fsnotify_Create : Z := 1%Z.
Definition fsnotify_Write : Z := 2%Z.
Definition fsnotify_Remove : Z := 4%Z.
Definition fsnotify_Rename : Z := 8%Z.
Definition fsnotify_Chmod : Z := 16%Z.

(** The keys of [map[string]struct{}{a: {}, b: {}}]. *)
Definition dir_set (a b : string) : list string :=
  if decide (a = b) then [a] else [a; b].

(** A line written to [os.Stderr] by [fmt.Fprintf(os.Stderr, format, err)]. *)
Record LogLine := { log_format : string; log_err : error }.

(** The cases of the [select] in the goroutine of [startWatcher]. *)
Inductive select_case :=
| case_Event (ev : Event)
| case_Error (err : error)
| case_done.

(** [ev.Op&(fsnotify.Write|fsnotify.Create|fsnotify.Rename) != 0] *)
Definition op_of_interest (ev : Event) : bool :=
  negb (Z.land (ev_Op ev)
          (Z.lor (Z.lor fsnotify_Write fsnotify_Create) fsnotify_Rename) =? 0)%Z.

(** ** [TLSConfigBuilder] (tlsconfigbuilder.go) *)

Module TLSConfigBuilder.

(** The struct. [mu] only serialises [AddCABytes] against itself and has
    no content in a sequential run. *)
Record t := {
  ca : loc;
  certFile : string;
  keyFile : string;
  clientAuth : TLSClientAuth;
  insecure : bool;
  cert : option tls_Certificate;
  watcher : option Watcher;
  done : chan
}.

(** The builder with what it shares with the rest of the process: the
    heap of pools, the goroutines started by [startWatcher] that have not
    returned (each named by the watcher it reads), and standard error. *)
Record state := {
  self : t;
  pools : gmap loc x509_CertPool;
  loops : list Watcher;
  stderr : list LogLine
}.

Definition with_self (st : state) (b : t) : state :=
  {| self := b; pools := pools st; loops := loops st; stderr := stderr st |}.

Definition with_pools (st : state) (h : gmap loc x509_CertPool) : state :=
  {| self := self st; pools := h; loops := loops st; stderr := stderr st |}.

Definition with_loops (st : state) (l : list Watcher) : state :=
  {| self := self st; pools := pools st; loops := l; stderr := stderr st |}.

Definition Fprintf_Stderr (st : state) (format : string) (err : error) : state :=
  {| self := self st; pools := pools st; loops := loops st;
     stderr := stderr st ++ [{| log_format := format; log_err := err |}] |}.

Definition set_paths (b : t) (certPath keyPath : string) : t :=
  {| ca := ca b; certFile := certPath; keyFile := keyPath;
     clientAuth := clientAuth b; insecure := insecure b; cert := cert b;
     watcher := watcher b; done := done b |}.

Definition set_clientAuth (b : t) (auth : TLSClientAuth) : t :=
  {| ca := ca b; certFile := certFile b; keyFile := keyFile b;
     clientAuth := auth; insecure := insecure b; cert := cert b;
     watcher := watcher b; done := done b |}.

Definition set_insecure (b : t) (skip : bool) : t :=
  {| ca := ca b; certFile := certFile b; keyFile := keyFile b;
     clientAuth := clientAuth b; insecure := skip; cert := cert b;
     watcher := watcher b; done := done b |}.

(** [t.cert.Store(&c)] *)
Definition cert_Store (b : t) (c : tls_Certificate) : t :=
  {| ca := ca b; certFile := certFile b; keyFile := keyFile b;
     clientAuth := clientAuth b; insecure := insecure b; cert := Some c;
     watcher := watcher b; done := done b |}.

Definition set_watcher (b : t) (w : option Watcher) : t :=
  {| ca := ca b; certFile := certFile b; keyFile := keyFile b;
     clientAuth := clientAuth b; insecure := insecure b; cert := cert b;
     watcher := w; done := done b |}.

Definition set_done (b : t) (d : chan) : t :=
  {| ca := ca b; certFile := certFile b; keyFile := keyFile b;
     clientAuth := clientAuth b; insecure := insecure b; cert := cert b;
     watcher := watcher b; done := d |}.

(** The pool [t.ca] points to. *)
Definition pool (st : state) : x509_CertPool :=
  default NewCertPool (pools st !! ca (self st)).

(** The pool a configuration verifies against, read through its pointer
    at the time of the handshake. *)
Definition pool_at (st : state) (p : option loc) : option x509_CertPool :=
  p ≫= fun l => pools st !! l.

Section Ops.
Context (lib : Lib).

(** [NewTLSConfigBuilder]. The finalizer it registers runs [Close] when
    the builder is collected, after every use of it; it is not modelled. *)
Definition NewTLSConfigBuilder (os : OS) (useSystemCA : bool) : result state :=
  let mk (p : x509_CertPool) : state :=
    {| self := {| ca := 0; certFile := ""; keyFile := "";
                  clientAuth := TLSClientAuthNone; insecure := false;
                  cert := None; watcher := None; done := chan_open |};
       pools := {[ 0 := p ]}; loops := []; stderr := [] |} in
  if useSystemCA then
    match x509_SystemCertPool os with
    | Err err => Err (Errorf_w "system cert pool: %w" [] err)
    | Ok None => Ok (mk NewCertPool)
    | Ok (Some p) => Ok (mk p)
    end
  else Ok (mk NewCertPool).

Definition SetInsecureSkipVerify (st : state) (skip : bool) : state :=
  with_self st (set_insecure (self st) skip).

(** The loop of [AddCABytes] on the pool. [None]: out of fuel. *)
Fixpoint AddCABytes_loop (fuel : nat) (pemData : bytes) (s : x509_CertPool)
  : option (x509_CertPool * option error) :=
  match fuel with
  | O => None
  | S fuel' =>
      match pem_Decode lib pemData with
      | None => Some (s, None)
      | Some (block, rest) =>
          if negb (String.eqb (Type__ block) "CERTIFICATE") then
            AddCABytes_loop fuel' rest s
          else
            match x509_ParseCertificate lib (Bytes block) with
            | Err err => Some (s, Some (Errorf_w "parse cert: %w" [] err))
            | Ok c => AddCABytes_loop fuel' rest (AddCert s c)
            end
      end
  end.

(** [AddCABytes]: the loop runs on the pool [t.ca] points to. One turn
    of the loop per decoded block, and a block takes at least one byte. *)
Definition AddCABytes (st : state) (pemData : bytes)
  : option (state * option error) :=
  match AddCABytes_loop (S (length pemData)) pemData (pool st) with
  | None => None
  | Some (s, err) =>
      Some (with_pools st (<[ ca (self st) := s ]> (pools st)), err)
  end.

Definition AddCAFile (os : OS) (st : state) (path : string)
  : option (state * option error) :=
  if decide (path = "") then Some (st, None)
  else
    match os_ReadFile os path with
    | Err err => Some (st, Some (Errorf_w "read CA file '%s': %w" [path] err))
    | Ok pemBytes => AddCABytes st pemBytes
    end.

(** [ext == ".crt" || ext == ".pem"] for
    [ext := strings.ToLower(filepath.Ext(entry.Name()))]. *)
Definition ca_extension (name : string) : bool :=
  let ext := strings_ToLower (filepath_Ext name) in
  String.eqb ext ".crt" || String.eqb ext ".pem".

Fixpoint AddCADir_loop (os : OS) (dir : string) (entries : list DirEntry)
  (st : state) : option (state * option error) :=
  match entries with
  | [] => Some (st, None)
  | entry :: more =>
      if negb (IsRegular (Type_ entry)) then AddCADir_loop os dir more st
      else if ca_extension (Name entry) then
        let path := filepath_Join lib dir (Name entry) in
        match AddCAFile os st path with
        | None => None
        | Some (st', Some err) =>
            Some (st', Some (Errorf_w "load CA '%s': %w" [path] err))
        | Some (st', None) => AddCADir_loop os dir more st'
        end
      else AddCADir_loop os dir more st
  end.

Definition AddCADir (os : OS) (st : state) (dir : string)
  : option (state * option error) :=
  if decide (dir = "") then Some (st, None)
  else
    match os_ReadDir os dir with
    | Err err => Some (st, Some (Errorf_w "read CA dir '%s': %w" [dir] err))
    | Ok entries => AddCADir_loop os dir entries st
    end.

Definition FileExists (os : OS) (path : string) : option error :=
  match os_Stat os path with
  | Err err => Some (Errorf_w "file check '%s': %w" [path] err)
  | Ok info =>
      if IsDir info then Some (Errorf "'%s' is a directory, expected file" [path])
      else None
  end.

Definition SetCertKeyFile (os : OS) (st : state) (certPath keyPath : string)
  : state * option error :=
  match FileExists os certPath with
  | Some err => (st, Some err)
  | None =>
      match FileExists os keyPath with
      | Some err => (st, Some err)
      | None => (with_self st (set_paths (self st) certPath keyPath), None)
      end
  end.

Definition SetCertKeyFromBytes (st : state) (certPEM keyPEM : bytes)
  : state * option error :=
  match tls_X509KeyPair lib certPEM keyPEM with
  | Err err => (st, Some (Errorf_w "set cert/key from bytes: %w" [] err))
  | Ok c => (with_self st (cert_Store (self st) c), None)
  end.

Definition SetClientAuth (st : state) (auth : TLSClientAuth) : state :=
  with_self st (set_clientAuth (self st) auth).

Definition reloadCert (os : OS) (b : t) : t * option error :=
  match tls_LoadX509KeyPair os (certFile b) (keyFile b) with
  | Err err => (b, Some err)
  | Ok c => (cert_Store b c, None)
  end.

(** [startWatcher], up to and including the [go] statement: the new
    goroutine is added to [loops]. Errors of [w.Add] are ignored by the
    code, so [dirs] is what was asked for. *)
Definition startWatcher (os : OS) (st : state) : state :=
  match watcher (self st) with
  | Some _ => st
  | None =>
      match fsnotify_NewWatcher os with
      | Err err => Fprintf_Stderr st "watcher init error: %v\n" err
      | Ok h =>
          let w := {| handle := h;
                      dirs := dir_set (filepath_Dir lib (certFile (self st)))
                                      (filepath_Dir lib (keyFile (self st))) |} in
          with_loops (with_self st (set_watcher (self st) (Some w)))
                     (loops st ++ [w])
      end
  end.

(** The guard of the event case of the goroutine. *)
Definition qualifies (b : t) (ev : Event) : bool :=
  op_of_interest ev
  && (String.eqb (ev_Name ev) (certFile b) || String.eqb (ev_Name ev) (keyFile b)).

(** [case ev := <-w.Events]: the body, after the 100 ms sleep. *)
Definition on_event (os : OS) (st : state) (ev : Event) : state :=
  if qualifies (self st) ev then
    match reloadCert os (self st) with
    | (b, Some err) => Fprintf_Stderr (with_self st b) "cert reload error: %v\n" err
    | (b, None) => with_self st b
    end
  else st.

(** One turn of the loop of the goroutine reading watcher [w], taking
    case [c] of its [select]. [None]: that goroutine is not running, or
    the case cannot proceed ([<-t.done] proceeds once [done] is closed).
    When several cases can proceed Go picks any of them. Returning runs
    the deferred [w.Close()] and ends the goroutine. *)
Definition loop_turn (os : OS) (w : Watcher) (c : select_case) (st : state)
  : option state :=
  if decide (w ∈ loops st) then
    match c with
    | case_Event ev => Some (on_event os st ev)
    | case_Error err => Some (Fprintf_Stderr st "watcher error: %v\n" err)
    | case_done =>
        match done (self st) with
        | chan_closed =>
            Some (with_loops st (filter (fun w' => w' ≠ w) (loops st)))
        | _ => None
        end
    end
  else None.

(** A file event reaches every running goroutine: each watcher has its
    own subscription to the directory. *)
Definition deliver (os : OS) (ev : Event) (st : state) : state :=
  fold_left (fun s _ => on_event os s ev) (loops st) st.

Definition injectServerCert (os : OS) (st : state) (cfg : tls_Config)
  : outcome (state * tls_Config) :=
  let loaded : outcome state :=
    if bool_decide (cert (self st) = None)
       && negb (String.eqb (certFile (self st)) "")
       && negb (String.eqb (keyFile (self st)) "") then
      match reloadCert os (self st) with
      | (_, Some err) => Panic (Errorf_w "server cert load error: %w" [] err)
      | (b, None) => Return (with_self st b)
      end
    else Return st in
  match loaded with
  | Panic e => Panic e
  | Return st1 =>
      match cert (self st1) with
      | Some c =>
          Return (startWatcher os st1,
                  {| Certificates := [c]; RootCAs := RootCAs cfg;
                     ClientCAs := ClientCAs cfg; ClientAuth := ClientAuth cfg;
                     MinVersion := MinVersion cfg;
                     InsecureSkipVerify := InsecureSkipVerify cfg |})
      | None => Return (st1, cfg)
      end
  end.

Definition injectClientCert (st : state) (cfg : tls_Config) : tls_Config :=
  match cert (self st) with
  | Some c =>
      {| Certificates := [c]; RootCAs := RootCAs cfg;
         ClientCAs := ClientCAs cfg; ClientAuth := ClientAuth cfg;
         MinVersion := MinVersion cfg;
         InsecureSkipVerify := InsecureSkipVerify cfg |}
  | None => cfg
  end.

Definition ForServer (os : OS) (st : state) : outcome (state * tls_Config) :=
  let tlsCfg :=
    {| Certificates := []; RootCAs := None;
       ClientCAs := Some (ca (self st));
       ClientAuth := AuthType (clientAuth (self st));
       MinVersion := VersionTLS12; InsecureSkipVerify := false |} in
  injectServerCert os st tlsCfg.

Definition ForClient (st : state) : tls_Config :=
  let tlsCfg :=
    {| Certificates := []; RootCAs := Some (ca (self st));
       ClientCAs := None; ClientAuth := 0%Z;
       MinVersion := VersionTLS12;
       InsecureSkipVerify := insecure (self st) |} in
  injectClientCert st tlsCfg.

(** [Close]. [close] of a nil channel panics; of a closed channel too,
    which the [select] avoids. *)
Definition Close (st : state) : outcome state :=
  match watcher (self st) with
  | Some _ =>
      match done (self st) with
      | chan_closed => Return (with_self st (set_watcher (self st) None))
      | chan_open =>
          Return (with_self st
                    (set_watcher (set_done (self st) chan_closed) None))
      | chan_nil => Panic (ExternalError "close of nil channel")
      end
  | None => Return st
  end.

End Ops.

(** *** Runs of a builder *)

(** What the process can do to a builder: the public methods, with their
    arguments and the machine as it is at the time of the call, and the
    turns of the watcher goroutines. *)
Inductive call :=
| call_SetInsecureSkipVerify (skip : bool)
| call_AddCAFile (os : OS) (path : string)
| call_AddCADir (os : OS) (dir : string)
| call_AddCABytes (pemData : bytes)
| call_SetCertKeyFile (os : OS) (certPath keyPath : string)
| call_SetCertKeyFromBytes (certPEM keyPEM : bytes)
| call_SetClientAuth (auth : TLSClientAuth)
| call_ForServer (os : OS)
| call_ForClient
| call_Close
| goroutine_turn (os : OS) (w : Watcher) (c : select_case).

Definition returned (o : option (state * option error)) : option (outcome state) :=
  match o with
  | Some (st, _) => Some (Return st)
  | None => None
  end.

(** The state a call leaves, whatever it returns to its caller. [None]:
    the call did not end within its fuel, or the turn cannot be taken. *)
Definition perform (lib : Lib) (c : call) (st : state) : option (outcome state) :=
  match c with
  | call_SetInsecureSkipVerify skip => Some (Return (SetInsecureSkipVerify st skip))
  | call_AddCAFile os path => returned (AddCAFile lib os st path)
  | call_AddCADir os dir => returned (AddCADir lib os st dir)
  | call_AddCABytes pemData => returned (AddCABytes lib st pemData)
  | call_SetCertKeyFile os certPath keyPath =>
      Some (Return (fst (SetCertKeyFile os st certPath keyPath)))
  | call_SetCertKeyFromBytes certPEM keyPEM =>
      Some (Return (fst (SetCertKeyFromBytes lib st certPEM keyPEM)))
  | call_SetClientAuth auth => Some (Return (SetClientAuth st auth))
  | call_ForServer os =>
      match ForServer lib os st with
      | Return (st', _) => Some (Return st')
      | Panic e => Some (Panic e)
      end
  | call_ForClient => Some (Return st)
  | call_Close => Some (Close st)
  | goroutine_turn os w c =>
      match loop_turn os w c st with
      | Some st' => Some (Return st')
      | None => None
      end
  end.

(** The states of a builder made by [NewTLSConfigBuilder]. *)
Inductive reachable (lib : Lib) : state -> Prop :=
| reachable_new os useSystemCA st :
    NewTLSConfigBuilder os useSystemCA = Ok st -> reachable lib st
| reachable_call c st st' :
    reachable lib st -> perform lib c st = Some (Return st') -> reachable lib st'.

Definition is_ForServer (c : call) : bool :=
  match c with call_ForServer _ => true | _ => false end.

Definition is_AddCA (c : call) : bool :=
  match c with
  | call_AddCAFile _ _ | call_AddCADir _ _ | call_AddCABytes _ => true
  | _ => false
  end.

(** A sequence of calls, each returning before the next is made. *)
Fixpoint run (lib : Lib) (calls : list call) (st : state) : option state :=
  match calls with
  | [] => Some st
  | c :: more =>
      match perform lib c st with
      | Some (Return st') => run lib more st'
      | _ => None
      end
  end.

End TLSConfigBuilder.

(** ** [TLS], the version with the watcher *)

Module TLS.

Record t := {
  ca : loc;
  certFile : string;
  keyFile : string;
  at_ : TLSClientAuth;
  cert : option tls_Certificate;
  watcher : option Watcher;
  done : chan
}.

Record state := {
  self : t;
  pools : gmap loc x509_CertPool;
  loops : list Watcher;
  stderr : list LogLine
}.

Definition with_self (st : state) (b : t) : state :=
  {| self := b; pools := pools st; loops := loops st; stderr := stderr st |}.

Definition with_loops (st : state) (l : list Watcher) : state :=
  {| self := self st; pools := pools st; loops := l; stderr := stderr st |}.

Definition Fprintf_Stderr (st : state) (format : string) (err : error) : state :=
  {| self := self st; pools := pools st; loops := loops st;
     stderr := stderr st ++ [{| log_format := format; log_err := err |}] |}.

Definition set_certFile (b : t) (f : string) : t :=
  {| ca := ca b; certFile := f; keyFile := keyFile b; at_ := at_ b;
     cert := cert b; watcher := watcher b; done := done b |}.

Definition set_keyFile (b : t) (f : string) : t :=
  {| ca := ca b; certFile := certFile b; keyFile := f; at_ := at_ b;
     cert := cert b; watcher := watcher b; done := done b |}.

Definition set_at (b : t) (a : TLSClientAuth) : t :=
  {| ca := ca b; certFile := certFile b; keyFile := keyFile b; at_ := a;
     cert := cert b; watcher := watcher b; done := done b |}.

Definition cert_Store (b : t) (c : tls_Certificate) : t :=
  {| ca := ca b; certFile := certFile b; keyFile := keyFile b; at_ := at_ b;
     cert := Some c; watcher := watcher b; done := done b |}.

Definition with_pools (st : state) (h : gmap loc x509_CertPool) : state :=
  {| self := self st; pools := h; loops := loops st; stderr := stderr st |}.

Definition pool (st : state) : x509_CertPool :=
  default NewCertPool (pools st !! ca (self st)).

Definition set_watcher (b : t) (w : option Watcher) : t :=
  {| ca := ca b; certFile := certFile b; keyFile := keyFile b; at_ := at_ b;
     cert := cert b; watcher := w; done := done b |}.

Definition set_done (b : t) (d : chan) : t :=
  {| ca := ca b; certFile := certFile b; keyFile := keyFile b; at_ := at_ b;
     cert := cert b; watcher := watcher b; done := d |}.

Section Ops.
Context (lib : Lib).

(** [NewTLS]: [done] is left nil. The finalizer is not modelled. *)
Definition NewTLS (os : OS) (useOSCA : bool) : result state :=
  let mk (p : x509_CertPool) : state :=
    {| self := {| ca := 0; certFile := ""; keyFile := "";
                  at_ := TLSClientAuthNone; cert := None;
                  watcher := None; done := chan_nil |};
       pools := {[ 0 := p ]}; loops := []; stderr := [] |} in
  if useOSCA then
    match x509_SystemCertPool os with
    | Err err => Err (Errorf_w "new tls: %w" [] err)
    | Ok None => Ok (mk NewCertPool)
    | Ok (Some p) => Ok (mk p)
    end
  else Ok (mk NewCertPool).

(** [AddCABytes]: [AppendCertsFromPEM] works on the pool [t.ca] points to. *)
Definition AddCABytes (st : state) (cabytes : bytes) : state * option error :=
  let (s, ok) := x509_AppendCertsFromPEM lib (pool st) cabytes in
  let st' := with_pools st (<[ ca (self st) := s ]> (pools st)) in
  if ok then (st', None)
  else (st', Some (Errorf "add CA bytes: unable to append client CA bytes" [])).

Definition AddCAFile (os : OS) (st : state) (cafile : string)
  : state * option error :=
  if decide (cafile = "") then (st, None)
  else
    match os_ReadFile os cafile with
    | Err err =>
        (st, Some (Errorf_w "add CA file: error reading CA file '%s' -> %w"
                     [cafile] err))
    | Ok cabytes =>
        match AddCABytes st cabytes with
        | (st', Some err) => (st', Some (Errorf_w "add CA file '%s': %w" [cafile] err))
        | (st', None) => (st', None)
        end
    end.

Fixpoint AddCADir_loop (os : OS) (cadirname : string) (entries : list DirEntry)
  (st : state) : state * option error :=
  match entries with
  | [] => (st, None)
  | entry :: more =>
      if IsRegular (Type_ entry) then
        let ext := strings_ToLower (filepath_Ext (Name entry)) in
        if String.eqb ext ".crt" || String.eqb ext ".pem" then
          let path := filepath_Join lib cadirname (Name entry) in
          match AddCAFile os st path with
          | (st', Some err) =>
              (st', Some (Errorf_w
                 "add CA directory: reading contents of client CA file '%s' error -> %w"
                 [Name entry] err))
          | (st', None) => AddCADir_loop os cadirname more st'
          end
        else AddCADir_loop os cadirname more st
      else AddCADir_loop os cadirname more st
  end.

Definition AddCADir (os : OS) (st : state) (cadirname : string)
  : state * option error :=
  if decide (cadirname = "") then (st, None)
  else
    match os_ReadDir os cadirname with
    | Err err =>
        (st, Some (Errorf_w "add CA directory: error reading '%s' -> %w"
                     [cadirname] err))
    | Ok entries => AddCADir_loop os cadirname entries st
    end.

Definition FileExists (os : OS) (filename : string) : option error :=
  match os_Stat os filename with
  | Err err =>
      if os_IsNotExist lib err then Some (Errorf "'%s' does not exist" [filename])
      else Some (Errorf_w "'%s' file error: %w" [filename] err)
  | Ok f =>
      if IsDir f then Some (Errorf "'%s' file expected, directory given" [filename])
      else None
  end.

Definition SetCertFile (os : OS) (st : state) (certfile : string)
  : state * option error :=
  match FileExists os certfile with
  | Some err => (st, Some (Errorf_w "setcertfile '%s' error: %w" [certfile] err))
  | None => (with_self st (set_certFile (self st) certfile), None)
  end.

Definition SetKeyFile (os : OS) (st : state) (keyfile : string)
  : state * option error :=
  match FileExists os keyfile with
  | Some err => (st, Some (Errorf_w "setkeyfile '%s' error: %w" [keyfile] err))
  | None => (with_self st (set_keyFile (self st) keyfile), None)
  end.

Definition SetClientAuthType (st : state) (a : TLSClientAuth) : state :=
  with_self st (set_at (self st) a).

Definition reloadCert (os : OS) (b : t) : t * option error :=
  match tls_LoadX509KeyPair os (certFile b) (keyFile b) with
  | Err err => (b, Some (Errorf_w "reload cert: %w" [] err))
  | Ok pair_ => (cert_Store b pair_, None)
  end.

(** [startWatcher], up to and including the [go] statement. It has no
    guard of its own and makes a new [done] channel each time. [w.Add]
    is taken to succeed: the line written to standard error when it
    fails is left out. *)
Definition startWatcher (os : OS) (st : state) : state :=
  match fsnotify_NewWatcher os with
  | Err err => Fprintf_Stderr st "tls watcher init error: %v\n" err
  | Ok h =>
      let w := {| handle := h;
                  dirs := dir_set (filepath_Dir lib (certFile (self st)))
                                  (filepath_Dir lib (keyFile (self st))) |} in
      with_loops
        (with_self st (set_done (set_watcher (self st) (Some w)) chan_open))
        (loops st ++ [w])
  end.

Definition qualifies (b : t) (ev : Event) : bool :=
  op_of_interest ev
  && (String.eqb (ev_Name ev) (certFile b) || String.eqb (ev_Name ev) (keyFile b)).

Definition on_event (os : OS) (st : state) (ev : Event) : state :=
  if qualifies (self st) ev then
    match reloadCert os (self st) with
    | (b, Some err) => Fprintf_Stderr (with_self st b) "tls hot reload error: %v\n" err
    | (b, None) => with_self st b
    end
  else st.

(** One turn of the goroutine reading [w]; it reads the field [t.done]
    anew at each turn. *)
Definition loop_turn (os : OS) (w : Watcher) (c : select_case) (st : state)
  : option state :=
  if decide (w ∈ loops st) then
    match c with
    | case_Event ev => Some (on_event os st ev)
    | case_Error err => Some (Fprintf_Stderr st "tls watcher error: %v\n" err)
    | case_done =>
        match done (self st) with
        | chan_closed =>
            Some (with_loops st (filter (fun w' => w' ≠ w) (loops st)))
        | _ => None
        end
    end
  else None.

Definition deliver (os : OS) (ev : Event) (st : state) : state :=
  fold_left (fun s _ => on_event os s ev) (loops st) st.

Definition GetTLSConfig (os : OS) (st : state) : outcome (state * tls_Config) :=
  if negb (String.eqb (certFile (self st)) "")
     && negb (String.eqb (keyFile (self st)) "") then
    let loaded : outcome state :=
      match cert (self st) with
      | None =>
          match reloadCert os (self st) with
          | (_, Some err) =>
              Panic (Errorf_w "getTLSConfig: initial cert load failed -> %w" [] err)
          | (b, None) => Return (with_self st b)
          end
      | Some _ => Return st
      end in
    match loaded with
    | Panic e => Panic e
    | Return st1 =>
        match cert (self st1) with
        | None => Panic (ExternalError "interface conversion: interface is nil")
        | Some c =>
            let tlsConfig :=
              {| Certificates := [c];
                 RootCAs := Some (ca (self st1));
                 ClientCAs := Some (ca (self st1));
                 ClientAuth := AuthType (at_ (self st1));
                 MinVersion := VersionTLS12;
                 InsecureSkipVerify := false |} in
            match watcher (self st1) with
            | None => Return (startWatcher os st1, tlsConfig)
            | Some _ => Return (st1, tlsConfig)
            end
        end
    end
  else Return (st, new_tls_Config).

Definition Close (st : state) : outcome state :=
  match watcher (self st) with
  | None => Return st
  | Some _ =>
      match done (self st) with
      | chan_closed => Return (with_self st (set_watcher (self st) None))
      | chan_open =>
          Return (with_self st
                    (set_watcher (set_done (self st) chan_closed) None))
      | chan_nil => Panic (ExternalError "close of nil channel")
      end
  end.

End Ops.

(** *** Runs of a [TLS] *)

Inductive call :=
| call_AddCADir (os : OS) (cadirname : string)
| call_AddCAFile (os : OS) (cafile : string)
| call_AddCABytes (cabytes : bytes)
| call_SetCertFile (os : OS) (certfile : string)
| call_SetKeyFile (os : OS) (keyfile : string)
| call_SetClientAuthType (a : TLSClientAuth)
| call_GetTLSConfig (os : OS)
| call_Close
| goroutine_turn (os : OS) (w : Watcher) (c : select_case).

Definition perform (lib : Lib) (c : call) (st : state) : option (outcome state) :=
  match c with
  | call_AddCADir os cadirname => Some (Return (fst (AddCADir lib os st cadirname)))
  | call_AddCAFile os cafile => Some (Return (fst (AddCAFile lib os st cafile)))
  | call_AddCABytes cabytes => Some (Return (fst (AddCABytes lib st cabytes)))
  | call_SetCertFile os certfile => Some (Return (fst (SetCertFile lib os st certfile)))
  | call_SetKeyFile os keyfile => Some (Return (fst (SetKeyFile lib os st keyfile)))
  | call_SetClientAuthType a => Some (Return (SetClientAuthType st a))
  | call_GetTLSConfig os =>
      match GetTLSConfig lib os st with
      | Return (st', _) => Some (Return st')
      | Panic e => Some (Panic e)
      end
  | call_Close => Some (Close st)
  | goroutine_turn os w c =>
      match loop_turn os w c st with
      | Some st' => Some (Return st')
      | None => None
      end
  end.

(** The states of a [TLS] made by [NewTLS]. *)
Inductive reachable (lib : Lib) : state -> Prop :=
| reachable_new os useOSCA st :
    NewTLS os useOSCA = Ok st -> reachable lib st
| reachable_call c st st' :
    reachable lib st -> perform lib c st = Some (Return st') -> reachable lib st'.

Definition is_GetTLSConfig (c : call) : bool :=
  match c with call_GetTLSConfig _ => true | _ => false end.

End TLS.

(** ** [TLS] of tls.go, the version without watcher: its trust pool *)

Module TLS0.

Record t := {
  clientCAs : loc;
  certFile : string;
  keyFile : string;
  at_ : TLSClientAuth
}.

Record state := {
  self : t;
  pools : gmap loc x509_CertPool
}.

Definition with_pools (st : state) (h : gmap loc x509_CertPool) : state :=
  {| self := self st; pools := h |}.

Definition pool (st : state) : x509_CertPool :=
  default NewCertPool (pools st !! clientCAs (self st)).

Section Ops.
Context (lib : Lib).

Definition NewTLS (os : OS) (useOSCA : bool) : result state :=
  let mk (p : x509_CertPool) : state :=
    {| self := {| clientCAs := 0; certFile := ""; keyFile := "";
                  at_ := TLSClientAuthNone |};
       pools := {[ 0 := p ]} |} in
  if useOSCA then
    match x509_SystemCertPool os with
    | Err err => Err (Errorf_w "new tls: %w" [] err)
    | Ok None => Ok (mk NewCertPool)
    | Ok (Some p) => Ok (mk p)
    end
  else Ok (mk NewCertPool).

(** [AddCABytes]: [AppendCertsFromPEM] works on the pool [t.clientCAs]
    points to. *)
Definition AddCABytes (st : state) (cabytes : bytes) : state * option error :=
  let (s, ok) := x509_AppendCertsFromPEM lib (pool st) cabytes in
  let st' := with_pools st (<[ clientCAs (self st) := s ]> (pools st)) in
  if ok then (st', None)
  else (st', Some (Errorf "add CA bytes: unable to append client CA bytes" [])).

Definition AddCAFile (os : OS) (st : state) (cafile : string)
  : state * option error :=
  if decide (cafile = "") then (st, None)
  else
    match os_ReadFile os cafile with
    | Err err =>
        (st, Some (Errorf_w "add CA file: error reading CA file '%s' -> %w"
                     [cafile] err))
    | Ok cabytes =>
        match AddCABytes st cabytes with
        | (st', Some err) => (st', Some (Errorf_w "add CA file '%s': %w" [cafile] err))
        | (st', None) => (st', None)
        end
    end.

(** The loop of [AddCADir]. The error formats [file] itself, an
    [os.FileInfo], with [%s]. *)
Fixpoint AddCADir_loop (os : OS) (cadirname : string) (files : list fileStat)
  (st : state) : state * option error :=
  match files with
  | [] => (st, None)
  | file :: more =>
      if IsRegular (fi_Mode file) then
        let ext := strings_ToLower (filepath_Ext (fi_Name file)) in
        if String.eqb ext ".crt" || String.eqb ext ".pem" then
          match AddCAFile os st (filepath_Join lib cadirname (fi_Name file)) with
          | (st', Some err) =>
              (st', Some (Errorf_w
                 "add CA directory: reading contents of client CA file '%s' error -> %w"
                 [fmt_Sprint_FileInfo lib file] err))
          | (st', None) => AddCADir_loop os cadirname more st'
          end
        else AddCADir_loop os cadirname more st
      else AddCADir_loop os cadirname more st
  end.

Definition AddCADir (os : OS) (st : state) (cadirname : string)
  : state * option error :=
  if decide (cadirname = "") then (st, None)
  else
    match os_Open os cadirname with
    | Err err =>
        (st, Some (Errorf_w
                     "add CA directory: error opening CA directory '%s' -> %w"
                     [cadirname] err))
    | Ok cadir =>
        match File_Readdir os cadir with
        | Err err =>
            (st, Some (Errorf_w
                         "add CA directory: error reading CA directory '%s' -> %w"
                         [cadirname] err))
        | Ok files => AddCADir_loop os cadirname files st
        end
    end.

End Ops.

End TLS0.

(** ** The credential cell under concurrent readers

    [reloadCert] and the readers of [t.cert] ([injectServerCert],
    [injectClientCert], [GetTLSConfig]) cut into the steps that can
    interleave. Memory is a heap of [tls.Certificate] structs written and
    read one field at a time; the cell is a pointer, and [Store] and [Load]
    of [atomic.Value] are each one step.

    A writer runs [reloadCert] after [tls.LoadX509KeyPair] has returned
    [v] without error: the variable [cert] is allocated (it escapes, its
    address is stored), receives [v] field by field, and [&cert] is stored.
    A reader runs [t.cert.Load().( *tls.Certificate)] and then copies
    [*cert], field by field, into a configuration; it reads once, and
    another read is another thread. A goroutine that loads the pair and
    then reads the cell, as the first [ForServer] does, is a writer
    followed by a reader. *)

Module CredentialCell.

(** The zero value of [tls.Certificate]. *)
Definition zero : tls_Certificate := {| Certificate := []; PrivateKey := [] |}.

Inductive writer_pc :=
| w_idle
| w_alloc (a : loc) (v : tls_Certificate)
| w_chain (a : loc) (v : tls_Certificate)
| w_key (a : loc) (v : tls_Certificate).

Inductive reader_pc :=
| r_idle
| r_loaded (p : option loc)
| r_chain (p : loc) (c : list bytes)
| r_done (o : option tls_Certificate).

Inductive thread :=
| Writer (pc : writer_pc)
| Reader (pc : reader_pc).

(** The threads are named by numbers. [published] is a history kept for
    the statements only: what the pointers given to [Store] pointed to at
    that moment, newest first. No step reads it. *)
Record state := {
  heap : gmap loc tls_Certificate;
  cell : option loc;
  threads : gmap nat thread;
  published : list tls_Certificate
}.

Definition set_thread (st : state) (i : nat) (th : thread) : state :=
  {| heap := heap st; cell := cell st;
     threads := <[ i := th ]> (threads st); published := published st |}.

Definition set_heap (st : state) (a : loc) (x : tls_Certificate) : state :=
  {| heap := <[ a := x ]> (heap st); cell := cell st;
     threads := threads st; published := published st |}.

(** [t.cert.Store(p)] where [p] points to [v]. *)
Definition Store (st : state) (p : loc) (v : tls_Certificate) : state :=
  {| heap := heap st; cell := Some p;
     threads := threads st; published := v :: published st |}.

Inductive action :=
| reload (i : nat) (v : tls_Certificate)
| advance (i : nat).

Definition writer_step (st : state) (i : nat) (pc : writer_pc) : option state :=
  match pc with
  | w_idle => None
  | w_alloc a v =>
      x ← heap st !! a;
      Some (set_thread
              (set_heap st a {| Certificate := Certificate v;
                                PrivateKey := PrivateKey x |})
              i (Writer (w_chain a v)))
  | w_chain a v =>
      x ← heap st !! a;
      Some (set_thread
              (set_heap st a {| Certificate := Certificate x;
                                PrivateKey := PrivateKey v |})
              i (Writer (w_key a v)))
  | w_key a v =>
      x ← heap st !! a;
      Some (set_thread (Store st a x) i (Writer w_idle))
  end.

Definition reader_step (st : state) (i : nat) (pc : reader_pc) : option state :=
  match pc with
  | r_idle => Some (set_thread st i (Reader (r_loaded (cell st))))
  | r_loaded None => Some (set_thread st i (Reader (r_done None)))
  | r_loaded (Some p) =>
      x ← heap st !! p;
      Some (set_thread st i (Reader (r_chain p (Certificate x))))
  | r_chain p c =>
      x ← heap st !! p;
      Some (set_thread st i
              (Reader (r_done (Some {| Certificate := c;
                                       PrivateKey := PrivateKey x |}))))
  | r_done _ => None
  end.

(** One step of one thread. [None]: the thread cannot take that step. *)
Definition exec (act : action) (st : state) : option state :=
  match act with
  | reload i v =>
      match threads st !! i with
      | Some (Writer w_idle) =>
          let a := fresh (dom (heap st)) in
          Some (set_thread (set_heap st a zero) i (Writer (w_alloc a v)))
      | _ => None
      end
  | advance i =>
      match threads st !! i with
      | Some (Writer pc) => writer_step st i pc
      | Some (Reader pc) => reader_step st i pc
      | None => None
      end
  end.

(** A schedule, run from left to right. *)
Fixpoint run (acts : list action) (st : state) : option state :=
  match acts with
  | [] => Some st
  | act :: more => st' ← exec act st; run more st'
  end.

Definition idle (th : thread) : bool :=
  match th with
  | Writer w_idle => true
  | Reader r_idle => true
  | _ => false
  end.

(** Before any call: nothing published, every thread about to start. *)
Definition initial (st : state) : Prop :=
  heap st = ∅ /\ cell st = None /\ published st = [] /\
  forall i th, threads st !! i = Some th -> idle th = true.

(** The credential in the cell, whole. *)
Definition current (st : state) : option tls_Certificate :=
  cell st ≫= fun p => heap st !! p.

(** The address of the struct a thread is filling or reading. *)
Definition holds (th : thread) : option loc :=
  match th with
  | Writer (w_alloc a _) | Writer (w_chain a _) | Writer (w_key a _) => Some a
  | Reader (r_loaded (Some p)) | Reader (r_chain p _) => Some p
  | _ => None
  end.

Definition building (th : thread) : option loc :=
  match th with
  | Writer (w_alloc a _) | Writer (w_chain a _) | Writer (w_key a _) => Some a
  | _ => None
  end.

(** The value a writer is storing. *)
Definition storing (th : thread) : option tls_Certificate :=
  match th with
  | Writer (w_alloc _ v) | Writer (w_chain _ v) | Writer (w_key _ v) => Some v
  | _ => None
  end.

(** The values [tls.LoadX509KeyPair] returned in a schedule. *)
Definition loaded (act : action) : list tls_Certificate :=
  match act with
  | reload _ v => [v]
  | advance _ => []
  end.

(** What holds in every state of every schedule, [L] being the values
    loaded so far: the cell points to a whole struct, the newest
    published; what was published was loaded; a struct being filled is
    allocated, is not the one in the cell and is in no other thread's
    hands; and it holds the fields written so far. *)
Record inv (L : list tls_Certificate) (st : state) : Prop := {
  inv_cell :
    match cell st with
    | None => published st = []
    | Some p => exists v rest, published st = v :: rest /\ heap st !! p = Some v
    end;
  inv_published : forall c, c ∈ published st -> c ∈ L;
  inv_allocated :
    forall j th a, threads st !! j = Some th -> holds th = Some a ->
                   is_Some (heap st !! a);
  inv_exclusive :
    forall i th a, threads st !! i = Some th -> building th = Some a ->
                   cell st <> Some a /\
                   forall j th', j <> i -> threads st !! j = Some th' ->
                                 holds th' <> Some a;
  inv_chain :
    forall i a v, threads st !! i = Some (Writer (w_chain a v)) ->
                  exists x, heap st !! a = Some x /\ Certificate x = Certificate v;
  inv_key :
    forall i a v, threads st !! i = Some (Writer (w_key a v)) ->
                  heap st !! a = Some v;
  inv_storing :
    forall i th v, threads st !! i = Some th -> storing th = Some v -> v ∈ L
}.

(** What reader [th] will end up observing is [ov]. *)
Definition reader_view (st : state) (th : thread) (ov : option tls_Certificate)
  : Prop :=
  match th with
  | Reader (r_loaded None) => ov = None
  | Reader (r_loaded (Some p)) => exists v, heap st !! p = Some v /\ ov = Some v
  | Reader (r_chain p c) =>
      exists v, heap st !! p = Some v /\ c = Certificate v /\ ov = Some v
  | Reader (r_done o) => o = ov
  | _ => False
  end.

(** The thread that takes a step. *)
Definition actor (act : action) : nat :=
  match act with reload i _ | advance i => i end.

(** A writer, and two readers. *)
Definition three_threads : state :=
  {| heap := ∅; cell := None;
     threads := {[ 0 := Writer w_idle; 1 := Reader r_idle; 2 := Reader r_idle ]};
     published := [] |}.

End CredentialCell.

(** ** A small machine to run the code on *)

Module Demo.

(** A two-byte stand-in for a PEM block: ['C' b] is a certificate block
    with body [b], ['K' b] a private-key block; anything else ends the
    PEM data. The body ['!'] does not parse as a certificate. *)
Definition Decode (data : bytes) : option (pem_Block * bytes) :=
  match data with
  | "C"%byte :: b :: rest =>
      Some ({| Type__ := "CERTIFICATE"; Headers := []; Bytes := [b] |}, rest)
  | "K"%byte :: b :: rest =>
      Some ({| Type__ := "PRIVATE KEY"; Headers := []; Bytes := [b] |}, rest)
  | _ => None
  end.

Definition ParseCertificate (der : bytes) : result x509_Certificate :=
  match der with
  | ["!"%byte] => Err (ExternalError "x509: malformed certificate")
  | _ => Ok {| Raw := der |}
  end.

Definition lib : Lib :=
  {| pem_Decode := Decode;
     x509_ParseCertificate := ParseCertificate;
     x509_AppendCertsFromPEM := fun s pemCerts =>
       default (s, false)
         (AppendCertsFromPEM_loop Decode ParseCertificate
            (S (length pemCerts)) pemCerts s false);
     tls_X509KeyPair := fun certPEM keyPEM =>
       Ok {| Certificate := [certPEM]; PrivateKey := keyPEM |};
     filepath_Join := fun dir name => dir +:+ "/" +:+ name;
     filepath_Dir := fun _ => "/etc/tls";
     os_IsNotExist := fun _ => true;
     fmt_Sprint_FileInfo := fun file => "&{" +:+ fi_Name file +:+ " ...}" |}.

Definition pem (s : string) : bytes := String.list_byte_of_string s.

Definition cred1 : tls_Certificate :=
  {| Certificate := [pem "chain-1"]; PrivateKey := pem "key-1" |}.
Definition cred2 : tls_Certificate :=
  {| Certificate := [pem "chain-2"]; PrivateKey := pem "key-2" |}.

Definition not_found : error := ExternalError "no such file or directory".

(** [/etc/tls/app.crt] and [/etc/tls/app.key] hold [pair_]; [/etc/ca]
    holds [a.crt], [b.pem], [c.txt] and the directory [d]; the second
    file of [/etc/bad] holds a certificate block that does not parse, the
    second file of [/etc/none] holds no certificate at all. *)
Definition disk (pair_ : result tls_Certificate) (watcher_ : result nat) : OS :=
  {| os_Stat := fun path =>
       if String.eqb path "/etc/tls/app.crt" || String.eqb path "/etc/tls/app.key"
       then Ok {| IsDir := false |}
       else if String.eqb path "/etc/tls" then Ok {| IsDir := true |}
       else Err not_found;
     os_ReadFile := fun path =>
       if String.eqb path "/etc/ca/a.crt" then Ok (pem "Ca")
       else if String.eqb path "/etc/ca/b.pem" then Ok (pem "KkCb")
       else if String.eqb path "/etc/ca/c.txt" then Ok (pem "Cc")
       else if String.eqb path "/etc/ca/d" then Ok (pem "Cd")
       else if String.eqb path "/etc/bad/a.crt" then Ok (pem "Ca")
       else if String.eqb path "/etc/bad/b.crt" then Ok (pem "CxC!Cy")
       else if String.eqb path "/etc/bad/c.crt" then Ok (pem "Cc")
       else if String.eqb path "/etc/none/a.crt" then Ok (pem "Ca")
       else if String.eqb path "/etc/none/b.crt" then Ok (pem "Kk")
       else if String.eqb path "/etc/none/c.crt" then Ok (pem "Cc")
       else Err not_found;
     os_ReadDir := fun dir =>
       if String.eqb dir "/etc/ca" then
         Ok [ {| Name := "a.crt"; Type_ := ModeRegular |};
              {| Name := "b.pem"; Type_ := ModeRegular |};
              {| Name := "c.txt"; Type_ := ModeRegular |};
              {| Name := "d"; Type_ := ModeDir |} ]
       else if String.eqb dir "/etc/bad" then
         Ok [ {| Name := "a.crt"; Type_ := ModeRegular |};
              {| Name := "b.crt"; Type_ := ModeRegular |};
              {| Name := "c.crt"; Type_ := ModeRegular |} ]
       else Err not_found;
     os_Open := fun dir =>
       if String.eqb dir "/etc/ca" then Ok 1
       else if String.eqb dir "/etc/bad" then Ok 2
       else if String.eqb dir "/etc/none" then Ok 3
       else Err not_found;
     File_Readdir := fun cadir =>
       match cadir with
       | 1 => Ok [ {| fi_Name := "a.crt"; fi_Mode := ModeRegular |};
                   {| fi_Name := "b.pem"; fi_Mode := ModeRegular |};
                   {| fi_Name := "c.txt"; fi_Mode := ModeRegular |};
                   {| fi_Name := "d"; fi_Mode := ModeDir |} ]
       | 2 | 3 => Ok [ {| fi_Name := "a.crt"; fi_Mode := ModeRegular |};
                       {| fi_Name := "b.crt"; fi_Mode := ModeRegular |};
                       {| fi_Name := "c.crt"; fi_Mode := ModeRegular |} ]
       | _ => Err (ExternalError "bad file descriptor")
       end;
     tls_LoadX509KeyPair := fun _ _ => pair_;
     x509_SystemCertPool := Ok None;
     fsnotify_NewWatcher := watcher_ |}.

Definition os1 : OS := disk (Ok cred1) (Ok 1).
Definition os2 : OS := disk (Ok cred2) (Ok 2).
Definition os_broken : OS :=
  disk (Err (ExternalError "tls: failed to find any PEM data")) (Ok 3).

(** A builder as [NewTLSConfigBuilder(false)] returns it. *)
Definition builder0 : TLSConfigBuilder.state :=
  {| TLSConfigBuilder.self :=
       {| TLSConfigBuilder.ca := 0; TLSConfigBuilder.certFile := "";
          TLSConfigBuilder.keyFile := "";
          TLSConfigBuilder.clientAuth := TLSClientAuthNone;
          TLSConfigBuilder.insecure := false; TLSConfigBuilder.cert := None;
          TLSConfigBuilder.watcher := None;
          TLSConfigBuilder.done := chan_open |};
     TLSConfigBuilder.pools := {[ 0 := NewCertPool ]};
     TLSConfigBuilder.loops := []; TLSConfigBuilder.stderr := [] |}.

(** The same after [SetCertKeyFile("/etc/tls/app.crt", "/etc/tls/app.key")]. *)
Definition builder1 : TLSConfigBuilder.state :=
  fst (TLSConfigBuilder.SetCertKeyFile os1 builder0
         "/etc/tls/app.crt" "/etc/tls/app.key").

(** A [TLS] as [NewTLS(false)] returns it, and after [SetCertFile] and
    [SetKeyFile]. *)
Definition tls0 : TLS.state :=
  {| TLS.self :=
       {| TLS.ca := 0; TLS.certFile := ""; TLS.keyFile := "";
          TLS.at_ := TLSClientAuthNone; TLS.cert := None;
          TLS.watcher := None; TLS.done := chan_nil |};
     TLS.pools := {[ 0 := NewCertPool ]};
     TLS.loops := []; TLS.stderr := [] |}.

Definition tls1 : TLS.state :=
  fst (TLS.SetKeyFile lib os1
         (fst (TLS.SetCertFile lib os1 tls0 "/etc/tls/app.crt"))
         "/etc/tls/app.key").

Definition after {A : Type} (d : A) (o : outcome (A * tls_Config)) : A :=
  match o with
  | Return (st, _) => st
  | Panic _ => d
  end.

Definition after_Close {A : Type} (d : A) (o : outcome A) : A :=
  match o with
  | Return st => st
  | Panic _ => d
  end.

(** After the first [ForServer()] / [GetTLSConfig()], with [cred1] on
    disk: the credential is loaded and the watcher started. *)
Definition builder2 : TLSConfigBuilder.state :=
  after builder1 (TLSConfigBuilder.ForServer lib os1 builder1).

Definition tls2 : TLS.state :=
  after tls1 (TLS.GetTLSConfig lib os1 tls1).

(** A write to the certificate file, and one to another file. *)
Definition ev_cert : Event :=
  {| ev_Name := "/etc/tls/app.crt"; ev_Op := fsnotify_Write |}.
Definition ev_other : Event :=
  {| ev_Name := "/etc/tls/README"; ev_Op := fsnotify_Write |}.

Definition watcher1 : Watcher := {| handle := 1; dirs := ["/etc/tls"] |}.
Definition watcher2 : Watcher := {| handle := 2; dirs := ["/etc/tls"] |}.

(** [Close()], after which the goroutine sees [done] closed and returns;
    and then another [ForServer()] / [GetTLSConfig()], with [cred2] on
    disk by then. *)
Definition builder3 : TLSConfigBuilder.state :=
  default builder2
    (TLSConfigBuilder.loop_turn os1 watcher1 case_done
       (after_Close builder2 (TLSConfigBuilder.Close builder2))).

Definition builder4 : TLSConfigBuilder.state :=
  after builder3 (TLSConfigBuilder.ForServer lib os2 builder3).

Definition tls3 : TLS.state :=
  default tls2
    (TLS.loop_turn os1 watcher1 case_done (after_Close tls2 (TLS.Close tls2))).

Definition tls4 : TLS.state := after tls3 (TLS.GetTLSConfig lib os2 tls3).



(** A [TLS] of tls.go as [NewTLS(false)] returns it. *)
Definition tls_go : TLS0.state :=
  {| TLS0.self :=
       {| TLS0.clientCAs := 0; TLS0.certFile := ""; TLS0.keyFile := "";
          TLS0.at_ := TLSClientAuthNone |};
     TLS0.pools := {[ 0 := NewCertPool ]} |}.

(** A schedule on [CredentialCell.three_threads]: the writer publishes
    [cred1]; reader 1 loads the cell; then the writer reloads [cred2] and
    stores it between the two field reads of reader 1. *)
Definition schedule_before : list CredentialCell.action :=
  [ CredentialCell.reload 0 cred1; CredentialCell.advance 0;
    CredentialCell.advance 0; CredentialCell.advance 0 ].

Definition schedule_during : list CredentialCell.action :=
  [ CredentialCell.reload 0 cred2; CredentialCell.advance 0;
    CredentialCell.advance 1; CredentialCell.advance 0;
    CredentialCell.advance 0; CredentialCell.advance 1 ].

Definition cell_s0 : CredentialCell.state :=
  default CredentialCell.three_threads
    (CredentialCell.run schedule_before CredentialCell.three_threads).

Definition cell_s1 : CredentialCell.state :=
  default cell_s0 (CredentialCell.exec (CredentialCell.advance 1) cell_s0).

Definition cell_s2 : CredentialCell.state :=
  default cell_s1 (CredentialCell.run schedule_during cell_s1).

End Demo.

(** ** Notions used in the statements *)

Definition panics {A : Type} (o : outcome A) : Prop := exists e, o = Panic e.

(** No credential source was configured on the builder: no pair has been
    stored from memory or from disk, and no file paths have been set. *)
Definition no_credential_source (b : TLSConfigBuilder.t) : Prop :=
  TLSConfigBuilder.cert b = None /\
  (TLSConfigBuilder.certFile b = "" \/ TLSConfigBuilder.keyFile b = "").

Definition TLS_no_credential_source (b : TLS.t) : Prop :=
  TLS.cert b = None /\ (TLS.certFile b = "" \/ TLS.keyFile b = "").

(** The monitor is watching when the watcher is set (the test
    [startWatcher] and [GetTLSConfig] make), and has been stopped by
    [Close] when the watcher is cleared and [done] is closed. *)
Definition watching (b : TLSConfigBuilder.t) : Prop :=
  TLSConfigBuilder.watcher b <> None.

Definition stopped (b : TLSConfigBuilder.t) : Prop :=
  TLSConfigBuilder.watcher b = None /\ TLSConfigBuilder.done b = chan_closed.

Definition TLS_watching (b : TLS.t) : Prop := TLS.watcher b <> None.

Definition TLS_stopped (b : TLS.t) : Prop :=
  TLS.watcher b = None /\ TLS.done b = chan_closed.

(** *** Reading a PEM buffer, as the specification describes it *)

(** The blocks [pem.Decode] finds in [data], in order, [fuel] at most. *)
Fixpoint pem_blocks (lib : Lib) (fuel : nat) (data : bytes) : list pem_Block :=
  match fuel with
  | O => []
  | S fuel' =>
      match pem_Decode lib data with
      | None => []
      | Some (block, rest) => block :: pem_blocks lib fuel' rest
      end
  end.

(** All of them: a block takes at least one byte. *)
Definition all_blocks (lib : Lib) (data : bytes) : list pem_Block :=
  pem_blocks lib (length data) data.

Definition is_certificate (block : pem_Block) : bool :=
  String.eqb (Type__ block) "CERTIFICATE".

(** The certificates of [blocks], when every one of them parses. *)
Fixpoint parse_all (lib : Lib) (blocks : list pem_Block)
  : option (list x509_Certificate) :=
  match blocks with
  | [] => Some []
  | block :: more =>
      match x509_ParseCertificate lib (Bytes block) with
      | Ok c => option_map (cons c) (parse_all lib more)
      | Err _ => None
      end
  end.

(** The loop of [AddCABytes] run on the blocks rather than on the bytes. *)
Fixpoint add_blocks (lib : Lib) (blocks : list pem_Block) (s : x509_CertPool)
  : x509_CertPool * option error :=
  match blocks with
  | [] => (s, None)
  | block :: more =>
      if is_certificate block then
        match x509_ParseCertificate lib (Bytes block) with
        | Err err => (s, Some (Errorf_w "parse cert: %w" [] err))
        | Ok c => add_blocks lib more (AddCert s c)
        end
      else add_blocks lib more s
  end.

(** *** Loading files in order, stopping at the first that fails *)

Fixpoint load_files (lib : Lib) (os : OS) (paths : list string)
  (st : TLSConfigBuilder.state) : option (TLSConfigBuilder.state * option error) :=
  match paths with
  | [] => Some (st, None)
  | path :: more =>
      match TLSConfigBuilder.AddCAFile lib os st path with
      | None => None
      | Some (st', Some err) =>
          Some (st', Some (Errorf_w "load CA '%s': %w" [path] err))
      | Some (st', None) => load_files lib os more st'
      end
  end.

(** The entries of a directory that [add_from_directory] is to load:
    regular files whose extension is [.crt] or [.pem] in any case. *)
Definition selected (entry : DirEntry) : bool :=
  IsRegular (Type_ entry) && TLSConfigBuilder.ca_extension (Name entry).

(** The same for the [os.FileInfo] values [AddCADir] of tls.go reads. *)
Definition selected_file (file : fileStat) : bool :=
  IsRegular (fi_Mode file) && TLSConfigBuilder.ca_extension (fi_Name file).

(** Loading the files of a directory in order into a [TLS] of tls.go,
    stopping at the first that fails. *)
Fixpoint TLS0_load_files (lib : Lib) (os : OS) (cadirname : string)
  (files : list fileStat) (st : TLS0.state) : TLS0.state * option error :=
  match files with
  | [] => (st, None)
  | file :: more =>
      match TLS0.AddCAFile lib os st (filepath_Join lib cadirname (fi_Name file)) with
      | (st', Some err) =>
          (st', Some (Errorf_w
             "add CA directory: reading contents of client CA file '%s' error -> %w"
             [fmt_Sprint_FileInfo lib file] err))
      | (st', None) => TLS0_load_files lib os cadirname more st'
      end
  end.

(** The path [p] is formatted into the text of [e]: into its own message,
    or into that of an error it wraps, which [%w] prints as part of it. *)
Fixpoint mentions (e : error) (p : string) : Prop :=
  match e with
  | ExternalError _ => False
  | Errorf _ args => p ∈ args
  | Errorf_w _ args cause => p ∈ args \/ mentions cause p
  end.

(** The certificates [AppendCertsFromPEM] appends for [blocks]: those of
    the certificate blocks without headers that parse. *)
Fixpoint appended (lib : Lib) (blocks : list pem_Block) : list x509_Certificate :=
  match blocks with
  | [] => []
  | block :: more =>
      if is_certificate block && (length (Headers block) =? 0)%nat then
        match x509_ParseCertificate lib (Bytes block) with
        | Ok c => c :: appended lib more
        | Err _ => appended lib more
        end
      else appended lib more
  end.

(** The error of [AddCABytes] of [TLS] when nothing was appended. *)
Definition nothing_appended (certs : list x509_Certificate) : option error :=
  match certs with
  | [] => Some (Errorf "add CA bytes: unable to append client CA bytes" [])
  | _ => None
  end.


(** ** The rest of the package *)

(** *** More of [strings] *)

(** [strings.HasPrefix], [strings.HasSuffix] and [strings.TrimSuffix], as
    the library writes them: a comparison of the first or last
    [len(prefix)] bytes, and a slice. *)
Definition strings_HasPrefix (s prefix : string) : bool :=
  (String.length prefix <=? String.length s)%nat
  && String.eqb (substring 0 (String.length prefix) s) prefix.

Definition strings_HasSuffix (s suffix : string) : bool :=
  (String.length suffix <=? String.length s)%nat
  && String.eqb (substring (String.length s - String.length suffix)
                   (String.length suffix) s) suffix.

Definition strings_TrimSuffix (s suffix : string) : string :=
  if strings_HasSuffix s suffix
  then substring 0 (String.length s - String.length suffix) s
  else s.

(** [a <= c <= z] to upper case, other bytes kept: what [strings.ToUpper]
    does to a string of ASCII bytes. *)
Definition upper_ascii (c : ascii) : ascii :=
  let n := nat_of_ascii c in
  if (97 <=? n)%nat && (n <=? 122)%nat then ascii_of_nat (n - 32) else c.

Fixpoint upper_string (s : string) : string :=
  match s with
  | EmptyString => EmptyString
  | String c rest => String (upper_ascii c) (upper_string rest)
  end.

Fixpoint ascii_only (s : string) : Prop :=
  match s with
  | EmptyString => True
  | String c rest => (nat_of_ascii c < 128)%nat /\ ascii_only rest
  end.

(** [strings.ToUpper] maps runes outside ASCII by the Unicode tables (the
    long s becomes [S]); it is taken as a parameter, known on ASCII. *)
Definition ToUpper_on_ascii (strings_ToUpper : string -> string) : Prop :=
  forall s, ascii_only s -> strings_ToUpper s = upper_string s.

(** A byte that [filepath.Ext] passes over: neither the dot nor the
    separator. *)
Definition plain (c : ascii) : Prop := c <> "."%char /\ c <> "/"%char.

(** *** [TLSClientAuth.String] *)

Definition tcaName : list string :=
  ["none"; "request"; "require"; "verify"; "requireverify"].

Definition TLSClientAuth_String (tca : TLSClientAuth) : string :=
  let tcaInt :=
    if (tca <? 0)%Z || (Z.of_nat (length tcaName) <=? tca)%Z then 0%Z else tca in
  nth (Z.to_nat tcaInt) tcaName "".

(** *** [Protocol] *)

Module Protocol.

(** [Protocol] is a [uint8]. *)
Definition t := Z.
Definition ProtoNone : t := 0%Z.
Definition ProtoREST : t := 1%Z.
Definition ProtoMQTT : t := 2%Z.

Definition protoName : list string := ["NONE"; "REST"; "MQTT"].

Definition String_ (proto : t) : string :=
  let protoInt :=
    if (proto <? 0)%Z || (Z.of_nat (length protoName) <=? proto)%Z then 0%Z
    else proto in
  nth (Z.to_nat protoInt) protoName "".

Definition IsValid (proto : t) : bool :=
  negb (String.eqb (String_ proto) "NONE").

(** The listener implementations [Listener()] can make. *)
Inductive implementation := rest_Listener.

(** [Listener()]. The result is a nil interface ([None]) when no case of
    the [switch] assigns [l]: the MQTT case is commented out. *)
Definition Listener (proto : t) : result (option implementation) :=
  if negb (IsValid proto) then
    Err (Errorf "proto listener: unknown protocol given, cannot create listener" [])
  else if (proto =? ProtoREST)%Z then Ok (Some rest_Listener)
  else Ok None.

Definition ParseProto (strings_ToUpper : string -> string) (protoStr : string) : t :=
  let u := strings_ToUpper protoStr in
  if String.eqb u "REST" then ProtoREST
  else if String.eqb u "MQTT" then ProtoMQTT
  else ProtoNone.

End Protocol.

(** *** [Listeners] (listener.go) *)

Module Listeners.

Section Listeners.
(** [W]: whatever starting a listener acts on. *)
Context {W : Type}.

(** A value of the interface [Listener], as far as [Listeners] uses it. *)
Record Listener := {
  Name : string;
  Start : W -> W * option error
}.

Definition Add (ls : list Listener) (l : Listener) : list Listener * option error :=
  (ls ++ [l], None).

Fixpoint StartAll (ls : list Listener) (w : W) : W * option error :=
  match ls with
  | [] => (w, None)
  | l :: more =>
      match Start l w with
      | (w', Some err) => (w', Some (Errorf_w "listeners startall: %w" [] err))
      | (w', None) => StartAll more w'
      end
  end.

(** The loop of [String]. *)
Fixpoint String_loop (ls : list Listener) (str : string) : string :=
  match ls with
  | [] => str
  | l :: more => String_loop more (str +:+ (Name l +:+ ", "))
  end.

Definition String_ (ls : list Listener) : string :=
  match ls with
  | [] => "no listeners configured"
  | _ =>
      let str := String_loop ls "configured listeners - " in
      substring 0 (String.length str - 2) str
  end.

End Listeners.
Arguments Listener : clear implicits.

End Listeners.

(** *** Package [rest]: methods, base patterns, handlers *)

Module rest.

(** [Method] is a [uint8]. *)
Definition Method := Z.
Definition MethodUnknown : Method := 0%Z.
Definition MethodGet : Method := 1%Z.
Definition MethodPost : Method := 2%Z.
Definition MethodPut : Method := 3%Z.
Definition MethodPatch : Method := 4%Z.
Definition MethodDelete : Method := 5%Z.
Definition MethodHead : Method := 6%Z.
Definition MethodOptions : Method := 7%Z.
Definition MethodConnect : Method := 8%Z.

Definition methodName : list string :=
  ["UNKNOWN"; "GET"; "POST"; "PUT"; "PATCH"; "DELETE"; "HEAD"; "OPTIONS"; "CONNECT"].

Definition Method_String (method : Method) : string :=
  let methodInt :=
    if (method <? 0)%Z || (Z.of_nat (length methodName) <=? method)%Z then 0%Z
    else method in
  nth (Z.to_nat methodInt) methodName "".

Definition formatBase (input : string) : string :=
  let input := if negb (strings_HasPrefix input "/") then "/" +:+ input else input in
  strings_TrimSuffix input "/".

Section Handlers.
(** [Mux]: a [*chi.Mux]; [HandlerFunc], [Middleware]: the function types;
    [MethodFunc mux middlewares method pattern hFn] is
    [mux.With(middlewares...).MethodFunc(method, pattern, hFn)], which
    registers the route or panics. *)
Context {Mux HandlerFunc Middleware : Type}.
Context (MethodFunc :
           Mux -> list Middleware -> string -> string -> HandlerFunc -> outcome Mux).

(** chi's [handle] panics on a routing pattern that does not begin with
    a slash. *)
Definition chi_pattern_law : Prop :=
  forall mux middlewares method pattern hFn,
    strings_HasPrefix pattern "/" = false ->
    exists e, MethodFunc mux middlewares method pattern hFn = Panic e.

(** [Handler.Set], on the router the handler holds. [errors.New(msg)] is
    written [Errorf msg []]. *)
Definition Handler_Set (h : Mux) (method : Method) (pattern : string)
  (hFn : HandlerFunc) (middlewares : list Middleware)
  : outcome (Mux * option error) :=
  let methodStr := Method_String method in
  if String.eqb methodStr "UNKNOWN" then
    Return (h, Some (Errorf "REST sethandler: unknown method type" []))
  else if (String.length pattern =? 0)%nat then
    Return (h, Some (Errorf "REST sethandler: pattern cannot be left blank" []))
  else
    match MethodFunc h middlewares methodStr pattern hFn with
    | Panic e => Panic e
    | Return h' => Return (h', None)
    end.

(** [Group.Set], on the router of the group's handler. *)
Definition Group_Set (g : Mux) (method : Method) (pattern : string)
  (hFn : HandlerFunc) (middlewares : list Middleware)
  : outcome (Mux * option error) :=
  match Handler_Set g method pattern hFn middlewares with
  | Panic e => Panic e
  | Return (g', Some err) => Return (g', Some (Errorf_w "groupset: %w" [] err))
  | Return (g', None) => Return (g', None)
  end.

End Handlers.

(** A router as the list of its routes, with chi's test of the pattern. *)
Definition demo_MethodFunc (mux : list (string * string)) (middlewares : list unit)
  (method pattern : string) (hFn : unit) : outcome (list (string * string)) :=
  if strings_HasPrefix pattern "/" then Return (mux ++ [(method, pattern)])
  else Panic (Errorf "chi: routing pattern must begin with '/' in '%s'" [pattern]).

End rest.

(** *** [VerifyCertTrusted] *)

(** [x509.ParseCertificates], and [cert.Verify] with the given pool as
    roots, as far as its error goes. *)
Record X509 := {
  x509_ParseCertificates : bytes -> result (list x509_Certificate);
  x509_Verify : x509_Certificate -> x509_CertPool -> option error
}.

Fixpoint verify_each (x : X509) (certs : list x509_Certificate) (roots : x509_CertPool)
  : option error :=
  match certs with
  | [] => None
  | c :: more =>
      match x509_Verify x c roots with
      | Some err => Some (Errorf_w "cert not trusted: %w" [] err)
      | None => verify_each x more roots
      end
  end.

Definition VerifyCertTrusted (x : X509) (st : TLSConfigBuilder.state) (certPEM : bytes)
  : option error :=
  match x509_ParseCertificates x certPEM with
  | Err err => Some (Errorf_w "parse cert: %w" [] err)
  | Ok certs => verify_each x certs (TLSConfigBuilder.pool st)
  end.

(** *** Loading the selected entries of a directory into a [TLS] *)

Fixpoint TLS_load_entries (lib : Lib) (os : OS) (cadirname : string)
  (entries : list DirEntry) (st : TLS.state) : TLS.state * option error :=
  match entries with
  | [] => (st, None)
  | entry :: more =>
      match TLS.AddCAFile lib os st (filepath_Join lib cadirname (Name entry)) with
      | (st', Some err) =>
          (st', Some (Errorf_w
             "add CA directory: reading contents of client CA file '%s' error -> %w"
             [Name entry] err))
      | (st', None) => TLS_load_entries lib os cadirname more st'
      end
  end.


(** * Properties *)

(** ** Setting the credential files *)

Lemma FileExists_error os path :
  TLSConfigBuilder.FileExists os path <> None <->
  (exists err, os_Stat os path = Err err) \/
  (exists info, os_Stat os path = Ok info /\ IsDir info = true).
Proof.
  unfold TLSConfigBuilder.FileExists.
  destruct (os_Stat os path) as [info|err] eqn:Hs.
  - destruct (IsDir info) eqn:Hd; split; try congruence.
    + intros _. right. eauto.
    + intros [[e He]|[i [Hi Hd']]]; congruence.
  - split; [intros _; left; eauto | congruence].
Qed.

(** C10. When [SetCertKeyFile] returns an error the builder is left as it
    was, so neither the stored certificate path nor the stored key path has
    changed; and it returns an error exactly when one of the two paths
    cannot be stat-ed or is a directory. *)
Theorem SetCertKeyFile_error_keeps_paths :
  forall os st certPath keyPath st' err,
    TLSConfigBuilder.SetCertKeyFile os st certPath keyPath = (st', Some err) ->
    st' = st /\
    TLSConfigBuilder.certFile (TLSConfigBuilder.self st')
      = TLSConfigBuilder.certFile (TLSConfigBuilder.self st) /\
    TLSConfigBuilder.keyFile (TLSConfigBuilder.self st')
      = TLSConfigBuilder.keyFile (TLSConfigBuilder.self st) /\
    (TLSConfigBuilder.FileExists os certPath <> None \/
     TLSConfigBuilder.FileExists os keyPath <> None).
Proof.
  intros os st certPath keyPath st' err H.
  unfold TLSConfigBuilder.SetCertKeyFile in H.
  destruct (TLSConfigBuilder.FileExists os certPath) as [e1|] eqn:H1.
  - inversion H; subst; split_and!; try done; left; congruence.
  - destruct (TLSConfigBuilder.FileExists os keyPath) as [e2|] eqn:H2.
    + inversion H; subst; split_and!; try done; right; congruence.
    + discriminate.
Qed.

(** A valid certificate path with a missing key path: nothing is recorded. *)
Lemma SetCertKeyFile_error_keeps_paths_witness :
  exists err,
    TLSConfigBuilder.SetCertKeyFile Demo.os1 Demo.builder0
      "/etc/tls/app.crt" "/etc/tls/missing.key" = (Demo.builder0, Some err) /\
    TLSConfigBuilder.FileExists Demo.os1 "/etc/tls/app.crt" = None /\
    TLSConfigBuilder.certFile (TLSConfigBuilder.self Demo.builder0) = "" /\
    TLSConfigBuilder.keyFile (TLSConfigBuilder.self Demo.builder0) = "".
Proof.
  eexists. split; [reflexivity|].
  split; [reflexivity|].
  pose proof (SetCertKeyFile_error_keeps_paths Demo.os1 Demo.builder0
                "/etc/tls/app.crt" "/etc/tls/missing.key" Demo.builder0 _
                eq_refl) as (_ & Hc & Hk & _).
  split; [exact Hc | exact Hk].
Defined.

(** ** A failed reload *)

Lemma reloadCert_failure os b e :
  tls_LoadX509KeyPair os (TLSConfigBuilder.certFile b) (TLSConfigBuilder.keyFile b) = Err e ->
  TLSConfigBuilder.reloadCert os b = (b, Some e).
Proof. intros H. unfold TLSConfigBuilder.reloadCert. now rewrite H. Qed.

Lemma on_event_failure os st ev e :
  tls_LoadX509KeyPair os (TLSConfigBuilder.certFile (TLSConfigBuilder.self st))
    (TLSConfigBuilder.keyFile (TLSConfigBuilder.self st)) = Err e ->
  TLSConfigBuilder.on_event os st ev =
    if TLSConfigBuilder.qualifies (TLSConfigBuilder.self st) ev
    then TLSConfigBuilder.Fprintf_Stderr st "cert reload error: %v\n" e
    else st.
Proof.
  intros H. unfold TLSConfigBuilder.on_event.
  rewrite (reloadCert_failure _ _ _ H).
  destruct (TLSConfigBuilder.qualifies _ ev); [|reflexivity].
  now destruct st.
Qed.

Lemma deliver_failure os ev e b l :
  tls_LoadX509KeyPair os (TLSConfigBuilder.certFile b) (TLSConfigBuilder.keyFile b) = Err e ->
  forall st, TLSConfigBuilder.self st = b ->
    TLSConfigBuilder.self
      (fold_left (fun s (_ : Watcher) => TLSConfigBuilder.on_event os s ev) l st) = b.
Proof.
  intros H. induction l as [|w l IH]; intros st Hst; simpl; [exact Hst|].
  apply IH. subst b. rewrite (on_event_failure _ _ _ _ H).
  now destruct (TLSConfigBuilder.qualifies _ ev).
Qed.

Lemma TLS_reloadCert_failure os b e :
  tls_LoadX509KeyPair os (TLS.certFile b) (TLS.keyFile b) = Err e ->
  TLS.reloadCert os b = (b, Some (Errorf_w "reload cert: %w" [] e)).
Proof. intros H. unfold TLS.reloadCert. now rewrite H. Qed.

Lemma TLS_on_event_failure os st ev e :
  tls_LoadX509KeyPair os (TLS.certFile (TLS.self st)) (TLS.keyFile (TLS.self st)) = Err e ->
  TLS.on_event os st ev =
    if TLS.qualifies (TLS.self st) ev
    then TLS.Fprintf_Stderr st "tls hot reload error: %v\n"
           (Errorf_w "reload cert: %w" [] e)
    else st.
Proof.
  intros H. unfold TLS.on_event.
  rewrite (TLS_reloadCert_failure _ _ _ H).
  destruct (TLS.qualifies _ ev); [|reflexivity].
  now destruct st.
Qed.

Lemma TLS_deliver_failure os ev e b l :
  tls_LoadX509KeyPair os (TLS.certFile b) (TLS.keyFile b) = Err e ->
  forall st, TLS.self st = b ->
    TLS.self (fold_left (fun s (_ : Watcher) => TLS.on_event os s ev) l st) = b.
Proof.
  intros H. induction l as [|w l IH]; intros st Hst; simpl; [exact Hst|].
  apply IH. subst b. rewrite (TLS_on_event_failure _ _ _ _ H).
  now destruct (TLS.qualifies _ ev).
Qed.

(** C2. If the cell holds a credential [c] and loading the pair from disk
    fails, then [reloadCert] returns the error and leaves the builder as it
    was; the handler of the monitor ([on_event], one turn of the goroutine,
    and the delivery of an event to every running goroutine) leaves [c] in
    the cell and only writes the error to standard error. The same for [TLS]. *)
Theorem failed_reload_keeps_credential :
  forall os c e,
    (forall st : TLSConfigBuilder.state,
        TLSConfigBuilder.cert (TLSConfigBuilder.self st) = Some c ->
        tls_LoadX509KeyPair os (TLSConfigBuilder.certFile (TLSConfigBuilder.self st))
          (TLSConfigBuilder.keyFile (TLSConfigBuilder.self st)) = Err e ->
        TLSConfigBuilder.reloadCert os (TLSConfigBuilder.self st)
          = (TLSConfigBuilder.self st, Some e) /\
        (forall ev,
            TLSConfigBuilder.cert (TLSConfigBuilder.self (TLSConfigBuilder.on_event os st ev))
              = Some c /\
            TLSConfigBuilder.pools (TLSConfigBuilder.on_event os st ev)
              = TLSConfigBuilder.pools st /\
            TLSConfigBuilder.stderr (TLSConfigBuilder.on_event os st ev)
              = if TLSConfigBuilder.qualifies (TLSConfigBuilder.self st) ev
                then TLSConfigBuilder.stderr st ++
                       [{| log_format := "cert reload error: %v\n"; log_err := e |}]
                else TLSConfigBuilder.stderr st) /\
        (forall w sc st',
            TLSConfigBuilder.loop_turn os w sc st = Some st' ->
            TLSConfigBuilder.cert (TLSConfigBuilder.self st') = Some c) /\
        (forall ev,
            TLSConfigBuilder.cert (TLSConfigBuilder.self (TLSConfigBuilder.deliver os ev st))
              = Some c)) /\
    (forall st : TLS.state,
        TLS.cert (TLS.self st) = Some c ->
        tls_LoadX509KeyPair os (TLS.certFile (TLS.self st)) (TLS.keyFile (TLS.self st))
          = Err e ->
        TLS.reloadCert os (TLS.self st)
          = (TLS.self st, Some (Errorf_w "reload cert: %w" [] e)) /\
        (forall ev,
            TLS.cert (TLS.self (TLS.on_event os st ev)) = Some c /\
            TLS.pools (TLS.on_event os st ev) = TLS.pools st /\
            TLS.stderr (TLS.on_event os st ev)
              = if TLS.qualifies (TLS.self st) ev
                then TLS.stderr st ++
                       [{| log_format := "tls hot reload error: %v\n";
                           log_err := Errorf_w "reload cert: %w" [] e |}]
                else TLS.stderr st) /\
        (forall w sc st',
            TLS.loop_turn os w sc st = Some st' ->
            TLS.cert (TLS.self st') = Some c) /\
        (forall ev, TLS.cert (TLS.self (TLS.deliver os ev st)) = Some c)).
Proof.
  intros os c e. split.
  - intros st Hc Hl. split; [now apply reloadCert_failure|].
    assert (Hev : forall ev,
      TLSConfigBuilder.cert (TLSConfigBuilder.self (TLSConfigBuilder.on_event os st ev)) = Some c).
    { intros ev. rewrite (on_event_failure _ _ _ _ Hl).
      now destruct (TLSConfigBuilder.qualifies _ ev). }
    split; [|split].
    + intros ev. split; [apply Hev|].
      rewrite (on_event_failure _ _ _ _ Hl).
      now destruct (TLSConfigBuilder.qualifies _ ev).
    + intros w sc st' Ht. unfold TLSConfigBuilder.loop_turn in Ht.
      destruct (decide (w ∈ TLSConfigBuilder.loops st)); [|discriminate].
      destruct sc as [ev|err|].
      * inversion Ht; subst. apply Hev.
      * inversion Ht; subst. exact Hc.
      * destruct (TLSConfigBuilder.done _); inversion Ht; subst. exact Hc.
    + intros ev. unfold TLSConfigBuilder.deliver.
      now rewrite (deliver_failure os ev e _ _ Hl st eq_refl).
  - intros st Hc Hl. split; [now apply TLS_reloadCert_failure|].
    assert (Hev : forall ev, TLS.cert (TLS.self (TLS.on_event os st ev)) = Some c).
    { intros ev. rewrite (TLS_on_event_failure _ _ _ _ Hl).
      now destruct (TLS.qualifies _ ev). }
    split; [|split].
    + intros ev. split; [apply Hev|].
      rewrite (TLS_on_event_failure _ _ _ _ Hl).
      now destruct (TLS.qualifies _ ev).
    + intros w sc st' Ht. unfold TLS.loop_turn in Ht.
      destruct (decide (w ∈ TLS.loops st)); [|discriminate].
      destruct sc as [ev|err|].
      * inversion Ht; subst. apply Hev.
      * inversion Ht; subst. exact Hc.
      * destruct (TLS.done _); inversion Ht; subst. exact Hc.
    + intros ev. unfold TLS.deliver.
      now rewrite (TLS_deliver_failure os ev e _ _ Hl st eq_refl).
Qed.

(** With [cred1] in the cell and a pair on disk that does not load, a
    write to the certificate file leaves [cred1] in the cell. *)
Lemma failed_reload_keeps_credential_witness :
  TLSConfigBuilder.cert
    (TLSConfigBuilder.self
       (TLSConfigBuilder.on_event Demo.os_broken Demo.builder2 Demo.ev_cert))
    = Some Demo.cred1 /\
  TLS.cert (TLS.self (TLS.on_event Demo.os_broken Demo.tls2 Demo.ev_cert))
    = Some Demo.cred1.
Proof.
  destruct (failed_reload_keeps_credential Demo.os_broken Demo.cred1
              (ExternalError "tls: failed to find any PEM data")) as [HB HT].
  split.
  - destruct (HB Demo.builder2 eq_refl eq_refl) as (_ & Hev & _).
    exact (proj1 (Hev Demo.ev_cert)).
  - destruct (HT Demo.tls2 eq_refl eq_refl) as (_ & Hev & _).
    exact (proj1 (Hev Demo.ev_cert)).
Defined.

(** ** Producing a server configuration *)

Lemma eqb_empty_false s : negb (String.eqb s "") = true <-> s <> "".
Proof.
  rewrite negb_true_iff. split.
  - intros H ->. now rewrite String.eqb_refl in H.
  - intros H. apply String.eqb_neq. exact H.
Qed.

Lemma eqb_empty_true s : negb (String.eqb s "") = false <-> s = "".
Proof.
  rewrite negb_false_iff. apply String.eqb_eq.
Qed.

(** [ForServer] on a builder that has file paths and an empty cell. *)
Lemma ForServer_first_load lib os st :
  TLSConfigBuilder.cert (TLSConfigBuilder.self st) = None ->
  TLSConfigBuilder.certFile (TLSConfigBuilder.self st) <> "" ->
  TLSConfigBuilder.keyFile (TLSConfigBuilder.self st) <> "" ->
  TLSConfigBuilder.ForServer lib os st =
    match tls_LoadX509KeyPair os (TLSConfigBuilder.certFile (TLSConfigBuilder.self st))
            (TLSConfigBuilder.keyFile (TLSConfigBuilder.self st)) with
    | Err e0 => Panic (Errorf_w "server cert load error: %w" [] e0)
    | Ok c =>
        Return
          (TLSConfigBuilder.startWatcher lib os
             (TLSConfigBuilder.with_self st
                (TLSConfigBuilder.cert_Store (TLSConfigBuilder.self st) c)),
           {| Certificates := [c]; RootCAs := None;
              ClientCAs := Some (TLSConfigBuilder.ca (TLSConfigBuilder.self st));
              ClientAuth := AuthType (TLSConfigBuilder.clientAuth (TLSConfigBuilder.self st));
              MinVersion := VersionTLS12; InsecureSkipVerify := false |})
    end.
Proof.
  intros Hc Hf Hk.
  unfold TLSConfigBuilder.ForServer, TLSConfigBuilder.injectServerCert.
  rewrite Hc. rewrite bool_decide_eq_true_2 by reflexivity.
  apply eqb_empty_false in Hf, Hk. rewrite Hf, Hk. simpl.
  unfold TLSConfigBuilder.reloadCert.
  destruct (tls_LoadX509KeyPair os _ _) as [c|e0]; reflexivity.
Qed.

(** [ForServer] on a builder without file paths and with an empty cell. *)
Lemma ForServer_no_source lib os st :
  no_credential_source (TLSConfigBuilder.self st) ->
  TLSConfigBuilder.ForServer lib os st =
    Return (st,
            {| Certificates := []; RootCAs := None;
               ClientCAs := Some (TLSConfigBuilder.ca (TLSConfigBuilder.self st));
               ClientAuth := AuthType (TLSConfigBuilder.clientAuth (TLSConfigBuilder.self st));
               MinVersion := VersionTLS12; InsecureSkipVerify := false |}).
Proof.
  intros [Hc Hp].
  unfold TLSConfigBuilder.ForServer, TLSConfigBuilder.injectServerCert.
  rewrite Hc. rewrite bool_decide_eq_true_2 by reflexivity.
  assert (Hb : negb (String.eqb (TLSConfigBuilder.certFile (TLSConfigBuilder.self st)) "")
               && negb (String.eqb (TLSConfigBuilder.keyFile (TLSConfigBuilder.self st)) "")
               = false).
  { apply andb_false_iff. destruct Hp as [Hp|Hp]; [left|right];
      now apply eqb_empty_true. }
  rewrite <- andb_assoc, Hb. simpl. now rewrite Hc.
Qed.

(** [ForServer] on a builder whose cell holds a credential. *)
Lemma ForServer_loaded lib os st c :
  TLSConfigBuilder.cert (TLSConfigBuilder.self st) = Some c ->
  TLSConfigBuilder.ForServer lib os st =
    Return (TLSConfigBuilder.startWatcher lib os st,
            {| Certificates := [c]; RootCAs := None;
               ClientCAs := Some (TLSConfigBuilder.ca (TLSConfigBuilder.self st));
               ClientAuth := AuthType (TLSConfigBuilder.clientAuth (TLSConfigBuilder.self st));
               MinVersion := VersionTLS12; InsecureSkipVerify := false |}).
Proof.
  intros Hc.
  unfold TLSConfigBuilder.ForServer, TLSConfigBuilder.injectServerCert.
  rewrite Hc. rewrite bool_decide_eq_false_2 by discriminate. simpl.
  now rewrite Hc.
Qed.

Lemma GetTLSConfig_no_files lib os st :
  TLS.certFile (TLS.self st) = "" \/ TLS.keyFile (TLS.self st) = "" ->
  TLS.GetTLSConfig lib os st = Return (st, new_tls_Config).
Proof.
  intros Hp. unfold TLS.GetTLSConfig.
  assert (Hb : negb (String.eqb (TLS.certFile (TLS.self st)) "")
               && negb (String.eqb (TLS.keyFile (TLS.self st)) "") = false).
  { apply andb_false_iff. destruct Hp as [Hp|Hp]; [left|right];
      now apply eqb_empty_true. }
  now rewrite Hb.
Qed.

Lemma GetTLSConfig_files lib os st :
  TLS.certFile (TLS.self st) <> "" ->
  TLS.keyFile (TLS.self st) <> "" ->
  TLS.GetTLSConfig lib os st =
    match TLS.cert (TLS.self st) with
    | Some c =>
        let cfg := {| Certificates := [c]; RootCAs := Some (TLS.ca (TLS.self st));
                      ClientCAs := Some (TLS.ca (TLS.self st));
                      ClientAuth := AuthType (TLS.at_ (TLS.self st));
                      MinVersion := VersionTLS12; InsecureSkipVerify := false |} in
        match TLS.watcher (TLS.self st) with
        | None => Return (TLS.startWatcher lib os st, cfg)
        | Some _ => Return (st, cfg)
        end
    | None =>
        match tls_LoadX509KeyPair os (TLS.certFile (TLS.self st)) (TLS.keyFile (TLS.self st)) with
        | Err e0 =>
            Panic (Errorf_w "getTLSConfig: initial cert load failed -> %w" []
                     (Errorf_w "reload cert: %w" [] e0))
        | Ok c =>
            let st1 := TLS.with_self st (TLS.cert_Store (TLS.self st) c) in
            let cfg := {| Certificates := [c]; RootCAs := Some (TLS.ca (TLS.self st));
                          ClientCAs := Some (TLS.ca (TLS.self st));
                          ClientAuth := AuthType (TLS.at_ (TLS.self st));
                          MinVersion := VersionTLS12; InsecureSkipVerify := false |} in
            match TLS.watcher (TLS.self st) with
            | None => Return (TLS.startWatcher lib os st1, cfg)
            | Some _ => Return (st1, cfg)
            end
        end
    end.
Proof.
  intros Hf Hk. unfold TLS.GetTLSConfig.
  apply eqb_empty_false in Hf, Hk. rewrite Hf, Hk. simpl.
  destruct (TLS.cert (TLS.self st)) as [c|] eqn:Hc.
  - rewrite Hc. reflexivity.
  - unfold TLS.reloadCert.
    destruct (tls_LoadX509KeyPair os _ _) as [c|e0]; reflexivity.
Qed.

Lemma startWatcher_cert lib os st :
  TLSConfigBuilder.cert (TLSConfigBuilder.self (TLSConfigBuilder.startWatcher lib os st))
  = TLSConfigBuilder.cert (TLSConfigBuilder.self st).
Proof.
  unfold TLSConfigBuilder.startWatcher.
  destruct (TLSConfigBuilder.watcher _); [reflexivity|].
  destruct (fsnotify_NewWatcher os); reflexivity.
Qed.

Lemma TLS_startWatcher_cert lib os st :
  TLS.cert (TLS.self (TLS.startWatcher lib os st)) = TLS.cert (TLS.self st).
Proof.
  unfold TLS.startWatcher. destruct (fsnotify_NewWatcher os); reflexivity.
Qed.

(** C3, as the code has it. [ForServer] panics exactly when the cell is
    empty, both file paths are set and loading the pair from disk fails.
    With no credential source it returns a configuration without
    certificate and leaves the builder as it was; with a credential in the
    cell, or one that loads, it returns a configuration carrying it. The
    same for [GetTLSConfig] of [TLS], which returns an empty configuration
    when a path is missing. *)
Theorem server_config_panics_iff_load_fails :
  forall lib os,
    (forall st : TLSConfigBuilder.state,
        (forall e,
            TLSConfigBuilder.ForServer lib os st = Panic e <->
            TLSConfigBuilder.cert (TLSConfigBuilder.self st) = None /\
            TLSConfigBuilder.certFile (TLSConfigBuilder.self st) <> "" /\
            TLSConfigBuilder.keyFile (TLSConfigBuilder.self st) <> "" /\
            exists e0,
              tls_LoadX509KeyPair os (TLSConfigBuilder.certFile (TLSConfigBuilder.self st))
                (TLSConfigBuilder.keyFile (TLSConfigBuilder.self st)) = Err e0 /\
              e = Errorf_w "server cert load error: %w" [] e0) /\
        (no_credential_source (TLSConfigBuilder.self st) ->
         exists cfg,
           TLSConfigBuilder.ForServer lib os st = Return (st, cfg) /\
           Certificates cfg = []) /\
        (forall c,
            TLSConfigBuilder.cert (TLSConfigBuilder.self st) = Some c \/
            (TLSConfigBuilder.cert (TLSConfigBuilder.self st) = None /\
             TLSConfigBuilder.certFile (TLSConfigBuilder.self st) <> "" /\
             TLSConfigBuilder.keyFile (TLSConfigBuilder.self st) <> "" /\
             tls_LoadX509KeyPair os (TLSConfigBuilder.certFile (TLSConfigBuilder.self st))
               (TLSConfigBuilder.keyFile (TLSConfigBuilder.self st)) = Ok c) ->
            exists st' cfg,
              TLSConfigBuilder.ForServer lib os st = Return (st', cfg) /\
              Certificates cfg = [c] /\
              TLSConfigBuilder.cert (TLSConfigBuilder.self st') = Some c)) /\
    (forall st : TLS.state,
        (forall e,
            TLS.GetTLSConfig lib os st = Panic e <->
            TLS.cert (TLS.self st) = None /\
            TLS.certFile (TLS.self st) <> "" /\
            TLS.keyFile (TLS.self st) <> "" /\
            exists e0,
              tls_LoadX509KeyPair os (TLS.certFile (TLS.self st)) (TLS.keyFile (TLS.self st))
                = Err e0 /\
              e = Errorf_w "getTLSConfig: initial cert load failed -> %w" []
                    (Errorf_w "reload cert: %w" [] e0)) /\
        (TLS.certFile (TLS.self st) = "" \/ TLS.keyFile (TLS.self st) = "" ->
         TLS.GetTLSConfig lib os st = Return (st, new_tls_Config)) /\
        (forall c,
            TLS.certFile (TLS.self st) <> "" ->
            TLS.keyFile (TLS.self st) <> "" ->
            TLS.cert (TLS.self st) = Some c \/
            (TLS.cert (TLS.self st) = None /\
             tls_LoadX509KeyPair os (TLS.certFile (TLS.self st)) (TLS.keyFile (TLS.self st))
               = Ok c) ->
            exists st' cfg,
              TLS.GetTLSConfig lib os st = Return (st', cfg) /\
              Certificates cfg = [c] /\
              TLS.cert (TLS.self st') = Some c)).
Proof.
  intros lib os. split.
  - intros st. split; [|split].
    + intros e.
      destruct (TLSConfigBuilder.cert (TLSConfigBuilder.self st)) as [c|] eqn:Hc.
      { rewrite (ForServer_loaded _ _ _ _ Hc). split; [discriminate|].
        intros (H & _). discriminate. }
      destruct (decide (TLSConfigBuilder.certFile (TLSConfigBuilder.self st) = "")) as [Hf|Hf].
      { rewrite ForServer_no_source by (split; auto).
        split; [discriminate|]. intros (_ & H & _). contradiction. }
      destruct (decide (TLSConfigBuilder.keyFile (TLSConfigBuilder.self st) = "")) as [Hk|Hk].
      { rewrite ForServer_no_source by (split; auto).
        split; [discriminate|]. intros (_ & _ & H & _). contradiction. }
      rewrite (ForServer_first_load _ _ _ Hc Hf Hk).
      destruct (tls_LoadX509KeyPair os _ _) as [c|e0].
      * split; [discriminate|]. intros (_ & _ & _ & e0 & H & _). discriminate.
      * split.
        -- intros H. inversion H; subst. repeat split; auto. now exists e0.
        -- intros (_ & _ & _ & e1 & H & ->). now inversion H.
    + intros Hn. rewrite (ForServer_no_source _ _ _ Hn). eexists. split; reflexivity.
    + intros c [Hc|(Hc & Hf & Hk & Hl)].
      * rewrite (ForServer_loaded _ _ _ _ Hc). do 2 eexists.
        split; [reflexivity|]. split; [reflexivity|].
        now rewrite startWatcher_cert.
      * rewrite (ForServer_first_load _ _ _ Hc Hf Hk), Hl. do 2 eexists.
        split; [reflexivity|]. split; [reflexivity|].
        now rewrite startWatcher_cert.
  - intros st. split; [|split].
    + intros e.
      destruct (decide (TLS.certFile (TLS.self st) = "")) as [Hf|Hf].
      { rewrite GetTLSConfig_no_files by auto.
        split; [discriminate|]. intros (_ & H & _). contradiction. }
      destruct (decide (TLS.keyFile (TLS.self st) = "")) as [Hk|Hk].
      { rewrite GetTLSConfig_no_files by auto.
        split; [discriminate|]. intros (_ & _ & H & _). contradiction. }
      rewrite (GetTLSConfig_files _ _ _ Hf Hk).
      destruct (TLS.cert (TLS.self st)) as [c|] eqn:Hc.
      { split.
        - destruct (TLS.watcher (TLS.self st)); discriminate.
        - intros (H & _). discriminate. }
      destruct (tls_LoadX509KeyPair os _ _) as [c|e0].
      * split.
        -- destruct (TLS.watcher (TLS.self st)); discriminate.
        -- intros (_ & _ & _ & e0 & H & _). discriminate.
      * split.
        -- intros H. inversion H; subst. repeat split; auto. now exists e0.
        -- intros (_ & _ & _ & e1 & H & ->). now inversion H.
    + apply GetTLSConfig_no_files.
    + intros c Hf Hk H. rewrite (GetTLSConfig_files _ _ _ Hf Hk).
      destruct H as [Hc|[Hc Hl]]; rewrite Hc; [|rewrite Hl];
        destruct (TLS.watcher (TLS.self st)) eqn:Hw; do 2 eexists;
        (split; [reflexivity|]); (split; [reflexivity|]);
        rewrite ?TLS_startWatcher_cert; simpl; auto.
Qed.

(** C3 as stated fails in both directions. A builder on which no source
    was configured gets a configuration back, without certificate; a
    builder with both paths set panics when the pair on disk does not load. *)
Lemma server_config_panic_iff_no_source_fails :
  (no_credential_source (TLSConfigBuilder.self Demo.builder0) /\
   TLSConfigBuilder.ForServer Demo.lib Demo.os1 Demo.builder0
     = Return (Demo.builder0,
               {| Certificates := []; RootCAs := None; ClientCAs := Some 0;
                  ClientAuth := 0%Z; MinVersion := VersionTLS12;
                  InsecureSkipVerify := false |})) /\
  (~ no_credential_source (TLSConfigBuilder.self Demo.builder1) /\
   panics (TLSConfigBuilder.ForServer Demo.lib Demo.os_broken Demo.builder1)) /\
  (TLS_no_credential_source (TLS.self Demo.tls0) /\
   TLS.GetTLSConfig Demo.lib Demo.os1 Demo.tls0 = Return (Demo.tls0, new_tls_Config)) /\
  (~ TLS_no_credential_source (TLS.self Demo.tls1) /\
   panics (TLS.GetTLSConfig Demo.lib Demo.os_broken Demo.tls1)) /\
  ~ (forall os st,
        panics (TLSConfigBuilder.ForServer Demo.lib os st) <->
        no_credential_source (TLSConfigBuilder.self st)) /\
  ~ (forall os st,
        panics (TLS.GetTLSConfig Demo.lib os st) <->
        TLS_no_credential_source (TLS.self st)).
Proof.
  assert (H0 : no_credential_source (TLSConfigBuilder.self Demo.builder0))
    by (split; [reflexivity | left; reflexivity]).
  assert (T0 : TLS_no_credential_source (TLS.self Demo.tls0))
    by (split; [reflexivity | left; reflexivity]).
  split_and!.
  - exact H0.
  - reflexivity.
  - intros [_ [H|H]]; discriminate.
  - eexists. reflexivity.
  - exact T0.
  - reflexivity.
  - intros [_ [H|H]]; discriminate.
  - eexists. reflexivity.
  - intros H. destruct (proj2 (H Demo.os1 Demo.builder0) H0) as [e He]. discriminate.
  - intros H. destruct (proj2 (H Demo.os1 Demo.tls0) T0) as [e He]. discriminate.
Qed.

(** ** What each call leaves untouched *)

Lemma AddCABytes_frame lib st pemData st' err :
  TLSConfigBuilder.AddCABytes lib st pemData = Some (st', err) ->
  TLSConfigBuilder.self st' = TLSConfigBuilder.self st /\
  TLSConfigBuilder.loops st' = TLSConfigBuilder.loops st /\
  TLSConfigBuilder.stderr st' = TLSConfigBuilder.stderr st.
Proof.
  unfold TLSConfigBuilder.AddCABytes.
  destruct (TLSConfigBuilder.AddCABytes_loop _ _ _ _) as [[s e]|]; [|discriminate].
  intros H. inversion H; subst. auto.
Qed.

Lemma AddCAFile_frame lib os st path st' err :
  TLSConfigBuilder.AddCAFile lib os st path = Some (st', err) ->
  TLSConfigBuilder.self st' = TLSConfigBuilder.self st /\
  TLSConfigBuilder.loops st' = TLSConfigBuilder.loops st /\
  TLSConfigBuilder.stderr st' = TLSConfigBuilder.stderr st.
Proof.
  unfold TLSConfigBuilder.AddCAFile.
  destruct (decide (path = "")).
  - intros H. inversion H; subst. auto.
  - destruct (os_ReadFile os path).
    + apply AddCABytes_frame.
    + intros H. inversion H; subst. auto.
Qed.

Lemma AddCADir_loop_frame lib os dir entries :
  forall st st' err,
    TLSConfigBuilder.AddCADir_loop lib os dir entries st = Some (st', err) ->
    TLSConfigBuilder.self st' = TLSConfigBuilder.self st /\
    TLSConfigBuilder.loops st' = TLSConfigBuilder.loops st /\
    TLSConfigBuilder.stderr st' = TLSConfigBuilder.stderr st.
Proof.
  induction entries as [|entry more IH]; intros st st' err; simpl.
  - intros H. inversion H; subst. auto.
  - destruct (negb (IsRegular (Type_ entry))); [apply IH|].
    destruct (TLSConfigBuilder.ca_extension (Name entry)); [|apply IH].
    destruct (TLSConfigBuilder.AddCAFile lib os st _) as [[st1 [e|]]|] eqn:Hf;
      [| |discriminate].
    + intros H. inversion H; subst. eapply AddCAFile_frame; eauto.
    + intros H. apply IH in H. apply AddCAFile_frame in Hf.
      destruct H as (-> & -> & ->). exact Hf.
Qed.

Lemma AddCADir_frame lib os st dir st' err :
  TLSConfigBuilder.AddCADir lib os st dir = Some (st', err) ->
  TLSConfigBuilder.self st' = TLSConfigBuilder.self st /\
  TLSConfigBuilder.loops st' = TLSConfigBuilder.loops st /\
  TLSConfigBuilder.stderr st' = TLSConfigBuilder.stderr st.
Proof.
  unfold TLSConfigBuilder.AddCADir.
  destruct (decide (dir = "")).
  - intros H. inversion H; subst. auto.
  - destruct (os_ReadDir os dir).
    + apply AddCADir_loop_frame.
    + intros H. inversion H; subst. auto.
Qed.

Lemma on_event_frame os st ev :
  TLSConfigBuilder.watcher (TLSConfigBuilder.self (TLSConfigBuilder.on_event os st ev))
    = TLSConfigBuilder.watcher (TLSConfigBuilder.self st) /\
  TLSConfigBuilder.done (TLSConfigBuilder.self (TLSConfigBuilder.on_event os st ev))
    = TLSConfigBuilder.done (TLSConfigBuilder.self st) /\
  TLSConfigBuilder.loops (TLSConfigBuilder.on_event os st ev) = TLSConfigBuilder.loops st.
Proof.
  unfold TLSConfigBuilder.on_event, TLSConfigBuilder.reloadCert.
  destruct (TLSConfigBuilder.qualifies _ ev); [|auto].
  destruct (tls_LoadX509KeyPair os _ _); auto.
Qed.

(** Every call but [ForServer] keeps or clears the watcher, starts no
    goroutine, and keeps [done] unless it closes it. *)
Lemma perform_frame lib c st st' :
  TLSConfigBuilder.perform lib c st = Some (Return st') ->
  (TLSConfigBuilder.done (TLSConfigBuilder.self st')
     = TLSConfigBuilder.done (TLSConfigBuilder.self st) \/
   (TLSConfigBuilder.done (TLSConfigBuilder.self st) = chan_open /\
    TLSConfigBuilder.done (TLSConfigBuilder.self st') = chan_closed)) /\
  (TLSConfigBuilder.is_ForServer c = false ->
   (TLSConfigBuilder.watcher (TLSConfigBuilder.self st')
      = TLSConfigBuilder.watcher (TLSConfigBuilder.self st) \/
    TLSConfigBuilder.watcher (TLSConfigBuilder.self st') = None) /\
   (forall w, w ∈ TLSConfigBuilder.loops st' -> w ∈ TLSConfigBuilder.loops st)).
Proof.
  destruct c; simpl.
  - intros H; inversion H; subst; simpl; auto.
  - destruct (TLSConfigBuilder.AddCAFile lib os st path) as [[s e]|] eqn:Hf;
      simpl; [|discriminate].
    intros H; inversion H; subst.
    apply AddCAFile_frame in Hf as (-> & -> & _). auto.
  - destruct (TLSConfigBuilder.AddCADir lib os st dir) as [[s e]|] eqn:Hf;
      simpl; [|discriminate].
    intros H; inversion H; subst.
    apply AddCADir_frame in Hf as (-> & -> & _). auto.
  - destruct (TLSConfigBuilder.AddCABytes lib st pemData) as [[s e]|] eqn:Hf;
      simpl; [|discriminate].
    intros H; inversion H; subst.
    apply AddCABytes_frame in Hf as (-> & -> & _). auto.
  - intros H; inversion H; subst. unfold TLSConfigBuilder.SetCertKeyFile.
    destruct (TLSConfigBuilder.FileExists os certPath); simpl; auto.
    destruct (TLSConfigBuilder.FileExists os keyPath); simpl; auto.
  - intros H; inversion H; subst. unfold TLSConfigBuilder.SetCertKeyFromBytes.
    destruct (tls_X509KeyPair lib certPEM keyPEM); simpl; auto.
  - intros H; inversion H; subst; simpl; auto.
  - destruct (TLSConfigBuilder.ForServer lib os st) as [[s cfg]|e] eqn:Hf;
      [|discriminate].
    intros H; inversion H; subst. split; [left|discriminate].
    revert Hf. unfold TLSConfigBuilder.ForServer, TLSConfigBuilder.injectServerCert.
    set (cond := _ && _ && _). destruct cond.
    + unfold TLSConfigBuilder.reloadCert.
      destruct (tls_LoadX509KeyPair os _ _) as [c|e]; [|discriminate]. simpl.
      intros Hr; inversion Hr; subst. unfold TLSConfigBuilder.startWatcher. simpl.
      destruct (TLSConfigBuilder.watcher _); [reflexivity|].
      destruct (fsnotify_NewWatcher os); reflexivity.
    + destruct (TLSConfigBuilder.cert (TLSConfigBuilder.self st)).
      * intros Hr; inversion Hr; subst. unfold TLSConfigBuilder.startWatcher.
        destruct (TLSConfigBuilder.watcher _); [reflexivity|].
        destruct (fsnotify_NewWatcher os); reflexivity.
      * intros Hr; inversion Hr; subst. reflexivity.
  - intros H; inversion H; subst; auto.
  - unfold TLSConfigBuilder.Close.
    destruct (TLSConfigBuilder.watcher (TLSConfigBuilder.self st)) eqn:Hw.
    + destruct (TLSConfigBuilder.done (TLSConfigBuilder.self st)) eqn:Hd;
        intros H; inversion H; subst; simpl; auto.
    + intros H; inversion H; subst; auto.
  - unfold TLSConfigBuilder.loop_turn.
    destruct (decide (w ∈ TLSConfigBuilder.loops st)); [|discriminate].
    destruct c as [ev|err|].
    + intros H; inversion H; subst.
      destruct (on_event_frame os st ev) as (-> & -> & ->). auto.
    + intros H; inversion H; subst; simpl; auto.
    + destruct (TLSConfigBuilder.done (TLSConfigBuilder.self st)) eqn:Hd;
        try discriminate.
      intros H; inversion H; subst; simpl. split; [auto|]. intros _.
      split; [auto|]. intros w'. rewrite list_elem_of_filter. tauto.
Qed.

(** A builder made by the constructor never has a nil [done]. *)
Lemma reachable_done_not_nil lib st :
  TLSConfigBuilder.reachable lib st ->
  TLSConfigBuilder.done (TLSConfigBuilder.self st) <> chan_nil.
Proof.
  induction 1 as [os useSystemCA st Hn | c st st' _ IH Hp].
  - unfold TLSConfigBuilder.NewTLSConfigBuilder in Hn.
    destruct useSystemCA; [destruct (x509_SystemCertPool os) as [[p|]|]|];
      inversion Hn; subst; discriminate.
  - apply perform_frame in Hp as [[Hd|[_ Hd]] _]; congruence.
Qed.

Lemma TLS_AddCABytes_frame lib st cabytes :
  TLS.self (fst (TLS.AddCABytes lib st cabytes)) = TLS.self st /\
  TLS.loops (fst (TLS.AddCABytes lib st cabytes)) = TLS.loops st.
Proof.
  unfold TLS.AddCABytes.
  destruct (x509_AppendCertsFromPEM lib _ _) as [s ok]. destruct ok; auto.
Qed.

Lemma TLS_AddCAFile_frame lib os st cafile :
  TLS.self (fst (TLS.AddCAFile lib os st cafile)) = TLS.self st /\
  TLS.loops (fst (TLS.AddCAFile lib os st cafile)) = TLS.loops st.
Proof.
  unfold TLS.AddCAFile.
  destruct (decide (cafile = "")); [auto|].
  destruct (os_ReadFile os cafile) as [cabytes|e]; [|auto].
  pose proof (TLS_AddCABytes_frame lib st cabytes) as H.
  destruct (TLS.AddCABytes lib st cabytes) as [st' [e|]]; exact H.
Qed.

Lemma TLS_AddCADir_loop_frame lib os cadirname entries :
  forall st,
    TLS.self (fst (TLS.AddCADir_loop lib os cadirname entries st)) = TLS.self st /\
    TLS.loops (fst (TLS.AddCADir_loop lib os cadirname entries st)) = TLS.loops st.
Proof.
  induction entries as [|entry more IH]; intros st; simpl; [auto|].
  destruct (IsRegular (Type_ entry)); [|apply IH].
  destruct (_ || _); [|apply IH].
  pose proof (TLS_AddCAFile_frame lib os st
                (filepath_Join lib cadirname (Name entry))) as H.
  destruct (TLS.AddCAFile lib os st _) as [st' [e|]]; simpl in *; [exact H|].
  destruct (IH st') as [-> ->]. exact H.
Qed.

Lemma TLS_AddCADir_frame lib os st cadirname :
  TLS.self (fst (TLS.AddCADir lib os st cadirname)) = TLS.self st /\
  TLS.loops (fst (TLS.AddCADir lib os st cadirname)) = TLS.loops st.
Proof.
  unfold TLS.AddCADir.
  destruct (decide (cadirname = "")); [auto|].
  destruct (os_ReadDir os cadirname); [|auto].
  apply TLS_AddCADir_loop_frame.
Qed.

Lemma TLS_on_event_frame os st ev :
  TLS.watcher (TLS.self (TLS.on_event os st ev)) = TLS.watcher (TLS.self st) /\
  TLS.done (TLS.self (TLS.on_event os st ev)) = TLS.done (TLS.self st) /\
  TLS.loops (TLS.on_event os st ev) = TLS.loops st.
Proof.
  unfold TLS.on_event, TLS.reloadCert.
  destruct (TLS.qualifies _ ev); [|auto].
  destruct (tls_LoadX509KeyPair os _ _); auto.
Qed.

Lemma TLS_perform_frame lib c st st' :
  TLS.perform lib c st = Some (Return st') ->
  TLS.is_GetTLSConfig c = false ->
  (TLS.watcher (TLS.self st') = TLS.watcher (TLS.self st) \/
   TLS.watcher (TLS.self st') = None) /\
  (forall w, w ∈ TLS.loops st' -> w ∈ TLS.loops st) /\
  (TLS.done (TLS.self st') = TLS.done (TLS.self st) \/
   (TLS.done (TLS.self st) = chan_open /\ TLS.done (TLS.self st') = chan_closed)).
Proof.
  destruct c; simpl; try discriminate.
  - intros H _; inversion H; subst.
    destruct (TLS_AddCADir_frame lib os st cadirname) as [-> ->]. auto.
  - intros H _; inversion H; subst.
    destruct (TLS_AddCAFile_frame lib os st cafile) as [-> ->]. auto.
  - intros H _; inversion H; subst.
    destruct (TLS_AddCABytes_frame lib st cabytes) as [-> ->]. auto.
  - intros H _; inversion H; subst. unfold TLS.SetCertFile.
    destruct (TLS.FileExists lib os certfile); simpl; auto.
  - intros H _; inversion H; subst. unfold TLS.SetKeyFile.
    destruct (TLS.FileExists lib os keyfile); simpl; auto.
  - intros H _; inversion H; subst; simpl; auto.
  - unfold TLS.Close.
    destruct (TLS.watcher (TLS.self st)) eqn:Hw.
    + destruct (TLS.done (TLS.self st)) eqn:Hd;
        intros H _; inversion H; subst; simpl; auto.
    + intros H _; inversion H; subst; auto.
  - unfold TLS.loop_turn.
    destruct (decide (w ∈ TLS.loops st)); [|discriminate].
    destruct c as [ev|err|].
    + intros H _; inversion H; subst.
      destruct (TLS_on_event_frame os st ev) as (-> & -> & ->). auto.
    + intros H _; inversion H; subst; simpl; auto.
    + destruct (TLS.done (TLS.self st)) eqn:Hd; try discriminate.
      intros H _; inversion H; subst; simpl. split; [auto|].
      split; [|auto]. intros w'. rewrite list_elem_of_filter. tauto.
Qed.

(** In a [TLS] made by [NewTLS], a watcher comes with a [done] channel. *)
Lemma TLS_reachable_done_not_nil lib st :
  TLS.reachable lib st ->
  TLS.watcher (TLS.self st) <> None ->
  TLS.done (TLS.self st) <> chan_nil.
Proof.
  induction 1 as [os useOSCA st Hn | c st st' _ IH Hp].
  - unfold TLS.NewTLS in Hn.
    destruct useOSCA; [destruct (x509_SystemCertPool os) as [[p|]|]|];
      inversion Hn; subst; simpl; congruence.
  - destruct (TLS.is_GetTLSConfig c) eqn:Hc.
    + destruct c; try discriminate. simpl in Hp.
      destruct (TLS.GetTLSConfig lib os st) as [[s cfg]|e] eqn:Hg; [|discriminate].
      inversion Hp; subst. revert Hg. unfold TLS.GetTLSConfig.
      destruct (_ && _); [|intros Hg; inversion Hg; subst; exact IH].
      unfold TLS.reloadCert.
      destruct (TLS.cert (TLS.self st)) as [c0|] eqn:Hcert.
      * rewrite Hcert.
        destruct (TLS.watcher (TLS.self st)) eqn:Hw.
        -- intros Hg; inversion Hg; subst. rewrite Hw. exact IH.
        -- intros Hg; inversion Hg; subst. unfold TLS.startWatcher.
           destruct (fsnotify_NewWatcher os); simpl; congruence.
      * destruct (tls_LoadX509KeyPair os _ _) as [c0|e]; [|discriminate]. simpl.
        destruct (TLS.watcher (TLS.self st)) eqn:Hw.
        -- intros Hg; inversion Hg; subst. simpl. rewrite Hw. exact IH.
        -- intros Hg; inversion Hg; subst. unfold TLS.startWatcher.
           destruct (fsnotify_NewWatcher os); simpl; congruence.
    + destruct (TLS_perform_frame _ _ _ _ Hp Hc) as ([Hw|Hw] & _ & [Hd|[_ Hd]]);
        rewrite ?Hw, ?Hd; first [exact IH | congruence].
Qed.

(** ** Closing *)

(** C8. On every builder made by the constructor, in whatever state the
    calls made since have left it, [Close] returns without panic; it
    changes nothing when no watcher is set (in particular when the monitor
    was never started); and a second [Close] after it returns too, and
    changes nothing. The same for [TLS]. *)
Theorem Close_is_safe :
  forall lib,
    (forall st, TLSConfigBuilder.reachable lib st ->
        (TLSConfigBuilder.watcher (TLSConfigBuilder.self st) = None ->
         TLSConfigBuilder.Close st = Return st) /\
        exists st1,
          TLSConfigBuilder.Close st = Return st1 /\
          TLSConfigBuilder.Close st1 = Return st1) /\
    (forall st, TLS.reachable lib st ->
        (TLS.watcher (TLS.self st) = None -> TLS.Close st = Return st) /\
        exists st1,
          TLS.Close st = Return st1 /\ TLS.Close st1 = Return st1).
Proof.
  intros lib. split.
  - intros st Hr. pose proof (reachable_done_not_nil _ _ Hr) as Hd.
    unfold TLSConfigBuilder.Close.
    destruct (TLSConfigBuilder.watcher (TLSConfigBuilder.self st)) eqn:Hw.
    + split; [discriminate|].
      destruct (TLSConfigBuilder.done (TLSConfigBuilder.self st)); [contradiction| |];
        eexists; split; reflexivity.
    + split; [reflexivity|]. exists st. rewrite Hw. auto.
  - intros st Hr. pose proof (TLS_reachable_done_not_nil _ _ Hr) as Hd.
    unfold TLS.Close.
    destruct (TLS.watcher (TLS.self st)) eqn:Hw.
    + split; [discriminate|].
      destruct (TLS.done (TLS.self st)); [exfalso; now apply Hd| |];
        eexists; split; reflexivity.
    + split; [reflexivity|]. exists st. rewrite Hw. auto.
Qed.

Lemma reachable_builder2 : TLSConfigBuilder.reachable Demo.lib Demo.builder2.
Proof.
  apply (TLSConfigBuilder.reachable_call _ (TLSConfigBuilder.call_ForServer Demo.os1)
           Demo.builder1); [|reflexivity].
  apply (TLSConfigBuilder.reachable_call _
           (TLSConfigBuilder.call_SetCertKeyFile Demo.os1
              "/etc/tls/app.crt" "/etc/tls/app.key") Demo.builder0); [|reflexivity].
  apply (TLSConfigBuilder.reachable_new _ Demo.os1 false). reflexivity.
Defined.

Lemma reachable_tls2 : TLS.reachable Demo.lib Demo.tls2.
Proof.
  apply (TLS.reachable_call _ (TLS.call_GetTLSConfig Demo.os1) Demo.tls1);
    [|reflexivity].
  apply (TLS.reachable_call _ (TLS.call_SetKeyFile Demo.os1 "/etc/tls/app.key")
           (fst (TLS.SetCertFile Demo.lib Demo.os1 Demo.tls0 "/etc/tls/app.crt")));
    [|reflexivity].
  apply (TLS.reachable_call _ (TLS.call_SetCertFile Demo.os1 "/etc/tls/app.crt")
           Demo.tls0); [|reflexivity].
  apply (TLS.reachable_new _ Demo.os1 false). reflexivity.
Defined.

(** [Close] twice on a builder and on a [TLS] whose watcher is running,
    and [Close] on fresh ones. *)
Lemma Close_is_safe_witness :
  (exists st1, TLSConfigBuilder.Close Demo.builder2 = Return st1 /\
               TLSConfigBuilder.Close st1 = Return st1) /\
  (exists st1, TLS.Close Demo.tls2 = Return st1 /\ TLS.Close st1 = Return st1).
Proof.
  destruct (Close_is_safe Demo.lib) as [HB HT]. split.
  - exact (proj2 (HB Demo.builder2 reachable_builder2)).
  - exact (proj2 (HT Demo.tls2 reachable_tls2)).
Defined.

(** ** Starting the monitor *)







(** ** After [Close] *)

(** C9, as the code has it. On a stopped builder every call other than
    [ForServer], and every turn of a goroutine, leaves the builder stopped
    and starts no goroutine; the same on a stopped [TLS] for every call
    other than [GetTLSConfig]. [GetTLSConfig] on a stopped [TLS] that holds
    a credential starts a watcher again, with a new open [done] channel. *)
Theorem stopped_until_server_config :
  forall lib,
    (forall c st st',
        stopped (TLSConfigBuilder.self st) ->
        TLSConfigBuilder.is_ForServer c = false ->
        TLSConfigBuilder.perform lib c st = Some (Return st') ->
        stopped (TLSConfigBuilder.self st') /\
        forall w, w ∈ TLSConfigBuilder.loops st' -> w ∈ TLSConfigBuilder.loops st) /\
    (forall c st st',
        TLS_stopped (TLS.self st) ->
        TLS.is_GetTLSConfig c = false ->
        TLS.perform lib c st = Some (Return st') ->
        TLS_stopped (TLS.self st') /\
        forall w, w ∈ TLS.loops st' -> w ∈ TLS.loops st) /\
    (forall os st c h,
        TLS_stopped (TLS.self st) ->
        TLS.certFile (TLS.self st) <> "" ->
        TLS.keyFile (TLS.self st) <> "" ->
        TLS.cert (TLS.self st) = Some c ->
        fsnotify_NewWatcher os = Ok h ->
        exists st' cfg w,
          TLS.GetTLSConfig lib os st = Return (st', cfg) /\
          handle w = h /\
          TLS.watcher (TLS.self st') = Some w /\
          TLS.done (TLS.self st') = chan_open /\
          TLS.loops st' = TLS.loops st ++ [w]).
Proof.
  intros lib. split_and!.
  - intros c st st' [Hw Hd] Hc Hp.
    destruct (perform_frame _ _ _ _ Hp) as [Hdone Hrest].
    destruct (Hrest Hc) as [Hw' Hl]. split; [|exact Hl].
    split.
    + destruct Hw' as [Hw'|Hw']; congruence.
    + destruct Hdone as [Hdone|[Hdone _]]; congruence.
  - intros c st st' [Hw Hd] Hc Hp.
    destruct (TLS_perform_frame _ _ _ _ Hp Hc) as (Hw' & Hl & Hdone).
    split; [|exact Hl]. split.
    + destruct Hw' as [Hw'|Hw']; congruence.
    + destruct Hdone as [Hdone|[Hdone _]]; congruence.
  - intros os st c h [Hw Hd] Hf Hk Hc Hn.
    rewrite (GetTLSConfig_files _ _ _ Hf Hk), Hc, Hw.
    unfold TLS.startWatcher. rewrite Hn.
    eexists _, _, (Build_Watcher h _). split; [reflexivity|]. simpl.
    split_and!; reflexivity.
Qed.

Lemma reachable_builder3 : TLSConfigBuilder.reachable Demo.lib Demo.builder3.
Proof.
  apply (TLSConfigBuilder.reachable_call _
           (TLSConfigBuilder.goroutine_turn Demo.os1 Demo.watcher1 case_done)
           (Demo.after_Close Demo.builder2 (TLSConfigBuilder.Close Demo.builder2)));
    [|reflexivity].
  apply (TLSConfigBuilder.reachable_call _ TLSConfigBuilder.call_Close Demo.builder2);
    [|reflexivity].
  exact reachable_builder2.
Defined.

Lemma reachable_tls3 : TLS.reachable Demo.lib Demo.tls3.
Proof.
  apply (TLS.reachable_call _ (TLS.goroutine_turn Demo.os1 Demo.watcher1 case_done)
           (Demo.after_Close Demo.tls2 (TLS.Close Demo.tls2))); [|reflexivity].
  apply (TLS.reachable_call _ TLS.call_Close Demo.tls2); [|reflexivity].
  exact reachable_tls2.
Defined.

(** On the stopped [TLS], setting the client-auth policy leaves it
    stopped, and [GetTLSConfig] starts watcher 2. *)
Lemma stopped_until_server_config_witness :
  TLS_stopped (TLS.self (TLS.SetClientAuthType Demo.tls3 TLSClientAuthVerify)) /\
  exists st' cfg w,
    TLS.GetTLSConfig Demo.lib Demo.os2 Demo.tls3 = Return (st', cfg) /\
    handle w = 2 /\
    TLS.watcher (TLS.self st') = Some w /\
    TLS.done (TLS.self st') = chan_open /\
    TLS.loops st' = TLS.loops Demo.tls3 ++ [w].
Proof.
  destruct (stopped_until_server_config Demo.lib) as (_ & H2 & H3).
  assert (Hs : TLS_stopped (TLS.self Demo.tls3)) by (split; reflexivity).
  split.
  - exact (proj1 (H2 (TLS.call_SetClientAuthType TLSClientAuthVerify)
                    Demo.tls3 _ Hs eq_refl eq_refl)).
  - apply (H3 Demo.os2 Demo.tls3 Demo.cred1 2 Hs); try reflexivity; discriminate.
Defined.

(** C9 as stated fails. A [TLS] that was watching and has been closed is
    stopped; the next [GetTLSConfig] sets a watcher again, with an open
    [done], and a write to the certificate file then replaces the
    credential: live reloading has resumed. On a builder, the next
    [ForServer] sets a watcher again and starts a goroutine, which can take
    an event turn and reload. *)
Lemma stopped_monitor_restarts :
  (TLS.reachable Demo.lib Demo.tls3 /\
   TLS_stopped (TLS.self Demo.tls3) /\
   TLS.perform Demo.lib (TLS.call_GetTLSConfig Demo.os2) Demo.tls3
     = Some (Return Demo.tls4) /\
   TLS_watching (TLS.self Demo.tls4) /\
   TLS.watcher (TLS.self Demo.tls4) = Some Demo.watcher2 /\
   TLS.done (TLS.self Demo.tls4) = chan_open /\
   TLS.loops Demo.tls4 = [Demo.watcher2] /\
   TLS.cert (TLS.self Demo.tls4) = Some Demo.cred1 /\
   TLS.cert (TLS.self (TLS.deliver Demo.os2 Demo.ev_cert Demo.tls4)) = Some Demo.cred2) /\
  (TLSConfigBuilder.reachable Demo.lib Demo.builder3 /\
   stopped (TLSConfigBuilder.self Demo.builder3) /\
   TLSConfigBuilder.perform Demo.lib (TLSConfigBuilder.call_ForServer Demo.os2) Demo.builder3
     = Some (Return Demo.builder4) /\
   watching (TLSConfigBuilder.self Demo.builder4) /\
   TLSConfigBuilder.loops Demo.builder4 = [Demo.watcher2] /\
   exists st',
     TLSConfigBuilder.loop_turn Demo.os2 Demo.watcher2 (case_Event Demo.ev_cert) Demo.builder4
       = Some st' /\
     TLSConfigBuilder.cert (TLSConfigBuilder.self st') = Some Demo.cred2) /\
  ~ (forall st c st',
        TLS.reachable Demo.lib st ->
        TLS_stopped (TLS.self st) ->
        TLS.perform Demo.lib c st = Some (Return st') ->
        ~ TLS_watching (TLS.self st')) /\
  ~ (forall st c st',
        TLSConfigBuilder.reachable Demo.lib st ->
        stopped (TLSConfigBuilder.self st) ->
        TLSConfigBuilder.perform Demo.lib c st = Some (Return st') ->
        ~ watching (TLSConfigBuilder.self st')).
Proof.
  assert (HT : TLS_stopped (TLS.self Demo.tls3)) by (split; reflexivity).
  assert (HB : stopped (TLSConfigBuilder.self Demo.builder3)) by (split; reflexivity).
  assert (WT : TLS_watching (TLS.self Demo.tls4)) by (unfold TLS_watching; simpl; congruence).
  assert (WB : watching (TLSConfigBuilder.self Demo.builder4))
    by (unfold watching; simpl; congruence).
  split_and!; try reflexivity; try assumption.
  - exact reachable_tls3.
  - exact reachable_builder3.
  - eexists. split; reflexivity.
  - intros H.
    exact (H Demo.tls3 (TLS.call_GetTLSConfig Demo.os2) Demo.tls4
             reachable_tls3 HT eq_refl WT).
  - intros H.
    exact (H Demo.builder3 (TLSConfigBuilder.call_ForServer Demo.os2) Demo.builder4
             reachable_builder3 HB eq_refl WB).
Qed.

(** ** Adding certificates from bytes *)

Section AddCABytes.
Context (lib : Lib) (Hdec : Decode_consumes lib).

(** With fuel above the length of the buffer the loop ends, and does
    what [add_blocks] does on the blocks of the buffer. *)
Lemma AddCABytes_loop_blocks :
  forall fuel fuel' pemData s,
    (length pemData < fuel)%nat ->
    (length pemData <= fuel')%nat ->
    TLSConfigBuilder.AddCABytes_loop lib fuel pemData s
    = Some (add_blocks lib (pem_blocks lib fuel' pemData) s).
Proof.
  induction fuel as [|fuel IH]; intros fuel' pemData s Hlt Hle; [lia|].
  simpl. destruct (pem_Decode lib pemData) as [[block rest]|] eqn:Hd.
  - pose proof (Hdec _ _ _ Hd) as Hr.
    destruct fuel' as [|fuel']; [lia|]. simpl. rewrite Hd. simpl.
    unfold is_certificate.
    destruct (String.eqb (Type__ block) "CERTIFICATE"); simpl.
    + destruct (x509_ParseCertificate lib (Bytes block)); [|reflexivity].
      apply IH; lia.
    + apply IH; lia.
  - destruct fuel'; simpl; [reflexivity|]. now rewrite Hd.
Qed.

Lemma AddCABytes_blocks st pemData :
  TLSConfigBuilder.AddCABytes lib st pemData
  = let r := add_blocks lib (all_blocks lib pemData) (TLSConfigBuilder.pool st) in
    Some (TLSConfigBuilder.with_pools st
            (<[ TLSConfigBuilder.ca (TLSConfigBuilder.self st) := fst r ]>
               (TLSConfigBuilder.pools st)),
          snd r).
Proof.
  unfold TLSConfigBuilder.AddCABytes, all_blocks.
  rewrite (AddCABytes_loop_blocks _ (length pemData)) by lia.
  now destruct (add_blocks lib _ _).
Qed.

Lemma add_blocks_all_parse blocks :
  forall certs s,
    parse_all lib (List.filter is_certificate blocks) = Some certs ->
    add_blocks lib blocks s = (fold_left AddCert certs s, None).
Proof.
  induction blocks as [|block more IH]; intros certs s; simpl.
  - intros H. inversion H; subst. reflexivity.
  - destruct (is_certificate block); simpl; [|apply IH].
    destruct (x509_ParseCertificate lib (Bytes block)) as [c|e]; [|discriminate].
    destruct (parse_all lib _) as [cs|] eqn:Hp; [|discriminate].
    simpl. intros H. inversion H; subst. simpl. now apply IH.
Qed.

Lemma add_blocks_first_failure pre :
  forall bad post certs e s,
    parse_all lib (List.filter is_certificate pre) = Some certs ->
    is_certificate bad = true ->
    x509_ParseCertificate lib (Bytes bad) = Err e ->
    add_blocks lib (pre ++ bad :: post) s
    = (fold_left AddCert certs s, Some (Errorf_w "parse cert: %w" [] e)).
Proof.
  induction pre as [|block more IH]; intros bad post certs e s; simpl.
  - intros H Hb He. inversion H; subst. now rewrite Hb, He.
  - destruct (is_certificate block); simpl; [|apply IH].
    destruct (x509_ParseCertificate lib (Bytes block)) as [c|e0]; [|discriminate].
    destruct (parse_all lib _) as [cs|] eqn:Hp; [|discriminate].
    simpl. intros H. inversion H; subst. simpl. now apply IH.
Qed.

End AddCABytes.

Lemma pool_with_pools st s :
  TLSConfigBuilder.pool
    (TLSConfigBuilder.with_pools st
       (<[ TLSConfigBuilder.ca (TLSConfigBuilder.self st) := s ]>
          (TLSConfigBuilder.pools st))) = s.
Proof.
  unfold TLSConfigBuilder.pool. simpl. now rewrite lookup_insert_eq.
Qed.

(** *** [AppendCertsFromPEM], which [AddCABytes] of [TLS] calls *)

Section AppendCertsFromPEM.
Context (lib : Lib) (Hdec : Decode_consumes lib).

Lemma Decode_empty : pem_Decode lib [] = None.
Proof.
  destruct (pem_Decode lib []) as [[block rest]|] eqn:Hd; [|reflexivity].
  apply Hdec in Hd. simpl in Hd. lia.
Qed.

(** With fuel above the length of the buffer the loop ends: it has
    appended the certificates of [appended], and reports whether there
    was one. *)
Lemma AppendCertsFromPEM_loop_blocks :
  forall fuel fuel' pemCerts s ok,
    (length pemCerts < fuel)%nat ->
    (length pemCerts <= fuel')%nat ->
    AppendCertsFromPEM_loop (pem_Decode lib) (x509_ParseCertificate lib)
      fuel pemCerts s ok
    = Some (fold_left AddCert (appended lib (pem_blocks lib fuel' pemCerts)) s,
            match appended lib (pem_blocks lib fuel' pemCerts) with
            | [] => ok
            | _ => true
            end).
Proof.
  induction fuel as [|fuel IH]; intros fuel' pemCerts s ok Hlt Hle; [lia|].
  simpl. destruct pemCerts as [|b0 data0] eqn:Hp.
  - destruct fuel'; simpl; [reflexivity|]. now rewrite Decode_empty.
  - rewrite <- Hp in *. clear Hp.
    destruct (pem_Decode lib pemCerts) as [[block rest]|] eqn:Hd.
    + pose proof (Hdec _ _ _ Hd) as Hr.
      destruct fuel' as [|fuel']; [lia|]. simpl. rewrite Hd. simpl.
      unfold is_certificate.
      destruct (String.eqb (Type__ block) "CERTIFICATE"); simpl.
      * destruct (length (Headers block) =? 0)%nat; simpl.
        -- destruct (x509_ParseCertificate lib (Bytes block)) as [c|e].
           ++ rewrite (IH fuel') by lia. simpl.
              now destruct (appended lib (pem_blocks lib fuel' rest)).
           ++ apply IH; lia.
        -- apply IH; lia.
      * apply IH; lia.
    + destruct fuel'; simpl; [reflexivity|]. now rewrite Hd.
Qed.

Lemma AppendCertsFromPEM_blocks (Hlaw : AppendCertsFromPEM_law lib) s pemCerts :
  x509_AppendCertsFromPEM lib s pemCerts
  = (fold_left AddCert (appended lib (all_blocks lib pemCerts)) s,
     match appended lib (all_blocks lib pemCerts) with
     | [] => false
     | _ => true
     end).
Proof.
  pose proof (Hlaw s pemCerts) as H.
  rewrite (AppendCertsFromPEM_loop_blocks _ (length pemCerts)) in H by lia.
  unfold all_blocks. congruence.
Qed.

Lemma appended_app blocks1 blocks2 :
  appended lib (blocks1 ++ blocks2) = appended lib blocks1 ++ appended lib blocks2.
Proof.
  induction blocks1 as [|block more IH]; simpl; [reflexivity|].
  destruct (_ && _); [|exact IH].
  destruct (x509_ParseCertificate lib (Bytes block)); [|exact IH].
  simpl. now rewrite IH.
Qed.

Lemma appended_skips pre bad post :
  is_certificate bad = false \/
  Headers bad <> [] \/
  (exists e, x509_ParseCertificate lib (Bytes bad) = Err e) ->
  appended lib (pre ++ bad :: post) = appended lib (pre ++ post).
Proof.
  intros H. rewrite !appended_app. f_equal. simpl.
  destruct H as [H|[H|[e H]]].
  - now rewrite H.
  - destruct (Headers bad); [congruence|]. simpl. now rewrite andb_false_r.
  - rewrite H. now destruct (_ && _).
Qed.

End AppendCertsFromPEM.

Lemma TLS0_pool_with_pools st s :
  TLS0.pool
    (TLS0.with_pools st (<[ TLS0.clientCAs (TLS0.self st) := s ]> (TLS0.pools st))) = s.
Proof.
  unfold TLS0.pool. simpl. now rewrite lookup_insert_eq.
Qed.

Lemma TLS_pool_with_pools st s :
  TLS.pool (TLS.with_pools st (<[ TLS.ca (TLS.self st) := s ]> (TLS.pools st))) = s.
Proof.
  unfold TLS.pool. simpl. now rewrite lookup_insert_eq.
Qed.

(** C5, as the code has it. [AddCABytes] of the builder ends on every
    buffer. It looks at the blocks of the buffer in order and passes over
    those whose type is not CERTIFICATE. When every certificate block
    parses, it returns no error and has added their certificates, in
    order (none, when there is no such block). When a certificate block
    does not parse, it returns the parse error of the first such block,
    and the certificates of the certificate blocks before it have been
    added to the pool all the same. Nothing but the pool changes.

    [AddCABytes] of [TLS], in tls.go and in the version with the
    watcher, hands the buffer to [AppendCertsFromPEM]. It passes over a
    certificate block that does not parse as it passes over a block of
    another type or one with headers, and adds the certificates of all
    the others, those after a malformed block too. It returns an error
    exactly when it has added no certificate, and that error is not a
    parse error; the pool is then as it was. *)
Theorem AddCABytes_parses_blocks :
  forall lib, Decode_consumes lib ->
  (forall st pemData,
    (forall certs,
        parse_all lib (List.filter is_certificate (all_blocks lib pemData)) = Some certs ->
        exists st',
          TLSConfigBuilder.AddCABytes lib st pemData = Some (st', None) /\
          TLSConfigBuilder.pool st' = fold_left AddCert certs (TLSConfigBuilder.pool st) /\
          TLSConfigBuilder.self st' = TLSConfigBuilder.self st) /\
    (forall pre bad post certs e,
        all_blocks lib pemData = pre ++ bad :: post ->
        parse_all lib (List.filter is_certificate pre) = Some certs ->
        is_certificate bad = true ->
        x509_ParseCertificate lib (Bytes bad) = Err e ->
        exists st',
          TLSConfigBuilder.AddCABytes lib st pemData
          = Some (st', Some (Errorf_w "parse cert: %w" [] e)) /\
          TLSConfigBuilder.pool st' = fold_left AddCert certs (TLSConfigBuilder.pool st) /\
          TLSConfigBuilder.self st' = TLSConfigBuilder.self st) /\
    (exists st' err, TLSConfigBuilder.AddCABytes lib st pemData = Some (st', err))) /\
  (AppendCertsFromPEM_law lib ->
   (forall st cabytes,
       exists st',
         TLS0.AddCABytes lib st cabytes
         = (st', nothing_appended (appended lib (all_blocks lib cabytes))) /\
         TLS0.pool st'
         = fold_left AddCert (appended lib (all_blocks lib cabytes)) (TLS0.pool st) /\
         TLS0.self st' = TLS0.self st) /\
   (forall st cabytes,
       exists st',
         TLS.AddCABytes lib st cabytes
         = (st', nothing_appended (appended lib (all_blocks lib cabytes))) /\
         TLS.pool st'
         = fold_left AddCert (appended lib (all_blocks lib cabytes)) (TLS.pool st) /\
         TLS.self st' = TLS.self st /\
         TLS.loops st' = TLS.loops st /\
         TLS.stderr st' = TLS.stderr st) /\
   (forall pre bad post,
       is_certificate bad = false \/
       Headers bad <> [] \/
       (exists e, x509_ParseCertificate lib (Bytes bad) = Err e) ->
       appended lib (pre ++ bad :: post) = appended lib (pre ++ post)) /\
   (forall blocks certs,
       (forall block, block ∈ blocks -> Headers block = []) ->
       parse_all lib (List.filter is_certificate blocks) = Some certs ->
       appended lib blocks = certs)).
Proof.
  intros lib Hdec. split.
  - intros st pemData. split_and!.
    + intros certs Hp. rewrite (AddCABytes_blocks lib Hdec).
      rewrite (add_blocks_all_parse lib _ _ _ Hp). simpl.
      eexists. split; [reflexivity|]. split; [apply pool_with_pools | reflexivity].
    + intros pre bad post certs e Hb Hp Hc He. rewrite (AddCABytes_blocks lib Hdec).
      rewrite Hb, (add_blocks_first_failure lib _ _ _ _ _ _ Hp Hc He). simpl.
      eexists. split; [reflexivity|]. split; [apply pool_with_pools | reflexivity].
    + rewrite (AddCABytes_blocks lib Hdec). simpl. eauto.
  - intros Hlaw. split_and!.
    + intros st cabytes. unfold TLS0.AddCABytes.
      rewrite (AppendCertsFromPEM_blocks lib Hdec Hlaw).
      destruct (appended lib (all_blocks lib cabytes)) as [|c cs] eqn:Ha;
        (eexists; split; [reflexivity|]; split;
         [apply TLS0_pool_with_pools | reflexivity]).
    + intros st cabytes. unfold TLS.AddCABytes.
      rewrite (AppendCertsFromPEM_blocks lib Hdec Hlaw).
      destruct (appended lib (all_blocks lib cabytes)) as [|c cs] eqn:Ha;
        (eexists; split; [reflexivity|]; split;
         [apply TLS_pool_with_pools | split_and!; reflexivity]).
    + apply appended_skips.
    + intros blocks. induction blocks as [|block more IH]; intros certs Hh; simpl.
      * now intros [= <-].
      * assert (Hb : Headers block = []) by (apply Hh, list_elem_of_here).
        assert (Hm : forall b, b ∈ more -> Headers b = [])
          by (intros b Hin; apply Hh; now apply list_elem_of_further).
        rewrite Hb. simpl. rewrite andb_true_r.
        destruct (is_certificate block); simpl; [|now apply IH].
        destruct (x509_ParseCertificate lib (Bytes block)) as [c|e]; [|discriminate].
        destruct (parse_all lib _) as [cs|] eqn:Hp; [|discriminate].
        simpl. intros [= <-]. f_equal. now apply IH.
Qed.

Lemma Demo_Decode_consumes : Decode_consumes Demo.lib.
Proof.
  intros data block rest. simpl. unfold Demo.Decode.
  destruct data as [|b0 [|b1 data]]; try discriminate.
  - destruct b0; discriminate.
  - destruct b0; try discriminate; intros H; inversion H; subst; simpl; lia.
Defined.

Lemma Demo_AppendCertsFromPEM_law : AppendCertsFromPEM_law Demo.lib.
Proof.
  intros s pemCerts.
  change (x509_AppendCertsFromPEM Demo.lib s pemCerts)
    with (default (s, false)
            (AppendCertsFromPEM_loop (pem_Decode Demo.lib)
               (x509_ParseCertificate Demo.lib) (S (length pemCerts)) pemCerts s false)).
  rewrite (AppendCertsFromPEM_loop_blocks Demo.lib Demo_Decode_consumes
             _ (length pemCerts)) by lia.
  reflexivity.
Defined.

(** A key block, a certificate, a block that does not parse, and a
    certificate after it. On the builder the first certificate is in the
    pool, the last is not, and the call returns the parse error. On a
    [TLS] both certificates are in the pool and the call returns no
    error. *)
Lemma AddCABytes_parses_blocks_witness :
  (exists st',
    TLSConfigBuilder.AddCABytes Demo.lib Demo.builder0 (Demo.pem "KkCxC!Cy")
    = Some (st', Some (Errorf_w "parse cert: %w" []
                         (ExternalError "x509: malformed certificate"))) /\
    TLSConfigBuilder.pool st' = [ {| Raw := Demo.pem "x" |} ] /\
    TLSConfigBuilder.self st' = TLSConfigBuilder.self Demo.builder0) /\
  (exists st',
    TLS0.AddCABytes Demo.lib Demo.tls_go (Demo.pem "KkCxC!Cy") = (st', None) /\
    TLS0.pool st' = [ {| Raw := Demo.pem "x" |}; {| Raw := Demo.pem "y" |} ] /\
    TLS0.self st' = TLS0.self Demo.tls_go).
Proof.
  destruct (AddCABytes_parses_blocks Demo.lib Demo_Decode_consumes) as [HB HT].
  split.
  - exact (proj1 (proj2 (HB Demo.builder0 (Demo.pem "KkCxC!Cy")))
           [ {| Type__ := "PRIVATE KEY"; Headers := []; Bytes := Demo.pem "k" |};
             {| Type__ := "CERTIFICATE"; Headers := []; Bytes := Demo.pem "x" |} ]
           {| Type__ := "CERTIFICATE"; Headers := []; Bytes := Demo.pem "!" |}
           [ {| Type__ := "CERTIFICATE"; Headers := []; Bytes := Demo.pem "y" |} ]
           [ {| Raw := Demo.pem "x" |} ]
           (ExternalError "x509: malformed certificate")
           eq_refl eq_refl eq_refl eq_refl).
  - exact (proj1 (HT Demo_AppendCertsFromPEM_law) Demo.tls_go (Demo.pem "KkCxC!Cy")).
Defined.

(** C5 as stated fails for [AddCABytes] of [TLS]. A buffer whose second
    certificate block does not parse: no error is returned, and the
    certificates before and after that block are in the pool. A buffer
    with a key block only, and the empty buffer: nothing is malformed,
    and the call returns an error. *)
Lemma TLS_AddCABytes_passes_over_malformed :
  Decode_consumes Demo.lib /\
  AppendCertsFromPEM_law Demo.lib /\
  (exists pre bad post e,
      all_blocks Demo.lib (Demo.pem "CxC!Cy") = pre ++ bad :: post /\
      is_certificate bad = true /\
      x509_ParseCertificate Demo.lib (Bytes bad) = Err e) /\
  (exists st',
      TLS0.AddCABytes Demo.lib Demo.tls_go (Demo.pem "CxC!Cy") = (st', None) /\
      TLS0.pool st' = [ {| Raw := Demo.pem "x" |}; {| Raw := Demo.pem "y" |} ]) /\
  (exists st',
      TLS0.AddCABytes Demo.lib Demo.tls_go (Demo.pem "Kk")
      = (st', Some (Errorf "add CA bytes: unable to append client CA bytes" [])) /\
      TLS0.pool st' = []) /\
  (exists st',
      TLS0.AddCABytes Demo.lib Demo.tls_go []
      = (st', Some (Errorf "add CA bytes: unable to append client CA bytes" [])) /\
      TLS0.pool st' = []) /\
  ~ (forall lib st cabytes pre bad post e,
        Decode_consumes lib ->
        AppendCertsFromPEM_law lib ->
        all_blocks lib cabytes = pre ++ bad :: post ->
        is_certificate bad = true ->
        x509_ParseCertificate lib (Bytes bad) = Err e ->
        exists st' err, TLS0.AddCABytes lib st cabytes = (st', Some err)) /\
  ~ (forall lib st cabytes,
        Decode_consumes lib ->
        AppendCertsFromPEM_law lib ->
        List.filter is_certificate (all_blocks lib cabytes) = [] ->
        exists st', TLS0.AddCABytes lib st cabytes = (st', None)).
Proof.
  split; [exact Demo_Decode_consumes|]. split; [exact Demo_AppendCertsFromPEM_law|].
  split_and!.
  - exists [ {| Type__ := "CERTIFICATE"; Headers := []; Bytes := Demo.pem "x" |} ],
           {| Type__ := "CERTIFICATE"; Headers := []; Bytes := Demo.pem "!" |},
           [ {| Type__ := "CERTIFICATE"; Headers := []; Bytes := Demo.pem "y" |} ],
           (ExternalError "x509: malformed certificate").
    split_and!; reflexivity.
  - eexists. split; reflexivity.
  - eexists. split; reflexivity.
  - eexists. split; reflexivity.
  - intros H.
    destruct (H Demo.lib Demo.tls_go (Demo.pem "CxC!Cy")
                [ {| Type__ := "CERTIFICATE"; Headers := []; Bytes := Demo.pem "x" |} ]
                {| Type__ := "CERTIFICATE"; Headers := []; Bytes := Demo.pem "!" |}
                [ {| Type__ := "CERTIFICATE"; Headers := []; Bytes := Demo.pem "y" |} ]
                (ExternalError "x509: malformed certificate")
                Demo_Decode_consumes Demo_AppendCertsFromPEM_law
                eq_refl eq_refl eq_refl) as (st' & err & He).
    vm_compute in He. discriminate He.
  - intros H.
    destruct (H Demo.lib Demo.tls_go (Demo.pem "Kk")
                Demo_Decode_consumes Demo_AppendCertsFromPEM_law eq_refl) as (st' & He).
    vm_compute in He. discriminate He.
Qed.

(** ** Adding certificates from a directory *)

Example ca_extension_examples :
  map TLSConfigBuilder.ca_extension
      ["a.crt"; "b.pem"; "B.PEM"; "x.Crt"; "c.txt"; "crt"; "a.crt.bak"; ".pem"; "d"; "a.b/crt"]
  = [true; true; true; true; false; false; false; true; false; false].
Proof. reflexivity. Qed.

Lemma AddCADir_loop_load_files lib os dir entries :
  forall st,
    TLSConfigBuilder.AddCADir_loop lib os dir entries st
    = load_files lib os
        (map (fun entry => filepath_Join lib dir (Name entry))
             (List.filter selected entries)) st.
Proof.
  induction entries as [|entry more IH]; intros st; simpl; [reflexivity|].
  unfold selected at 1.
  destruct (IsRegular (Type_ entry)); simpl; [|apply IH].
  destruct (TLSConfigBuilder.ca_extension (Name entry)); simpl; [|apply IH].
  destruct (TLSConfigBuilder.AddCAFile lib os st _) as [[st' [e|]]|]; auto.
Qed.

Lemma load_files_error lib os paths :
  forall st st' err,
    load_files lib os paths st = Some (st', Some err) ->
    exists pre path post st_p cause,
      paths = pre ++ path :: post /\
      load_files lib os pre st = Some (st_p, None) /\
      TLSConfigBuilder.AddCAFile lib os st_p path = Some (st', Some cause) /\
      err = Errorf_w "load CA '%s': %w" [path] cause.
Proof.
  induction paths as [|path more IH]; intros st st' err; simpl; [discriminate|].
  destruct (TLSConfigBuilder.AddCAFile lib os st path) as [[st1 [e|]]|] eqn:Hf;
    [| |discriminate].
  - intros H. inversion H; subst.
    exists [], path, more, st, e. simpl. auto.
  - intros H. destruct (IH _ _ _ H) as (pre & p & post & st_p & cause & -> & Hl & Ha & ->).
    exists (path :: pre), p, post, st_p, cause. simpl. rewrite Hf. auto.
Qed.

Lemma AddCAFile_ends lib (Hdec : Decode_consumes lib) os st path :
  exists r, TLSConfigBuilder.AddCAFile lib os st path = Some r.
Proof.
  unfold TLSConfigBuilder.AddCAFile.
  destruct (decide (path = "")); [eauto|].
  destruct (os_ReadFile os path); [|eauto].
  rewrite (AddCABytes_blocks lib Hdec). simpl. eauto.
Qed.

Lemma load_files_ends lib (Hdec : Decode_consumes lib) os paths :
  forall st, exists r, load_files lib os paths st = Some r.
Proof.
  induction paths as [|path more IH]; intros st; simpl; [eauto|].
  destruct (AddCAFile_ends lib Hdec os st path) as [[st' [e|]] ->]; eauto.
Qed.

(** The same for [AddCADir] of tls.go. *)
Lemma TLS0_AddCADir_loop_load_files lib os cadirname files :
  forall st,
    TLS0.AddCADir_loop lib os cadirname files st
    = TLS0_load_files lib os cadirname (List.filter selected_file files) st.
Proof.
  induction files as [|file more IH]; intros st; simpl; [reflexivity|].
  unfold selected_file at 1. unfold TLSConfigBuilder.ca_extension.
  destruct (IsRegular (fi_Mode file)); simpl; [|apply IH].
  destruct (_ || _); simpl; [|apply IH].
  destruct (TLS0.AddCAFile lib os st _) as [st' [e|]]; auto.
Qed.

Lemma TLS0_load_files_error lib os cadirname files :
  forall st st' err,
    TLS0_load_files lib os cadirname files st = (st', Some err) ->
    exists pre file post st_p cause,
      files = pre ++ file :: post /\
      TLS0_load_files lib os cadirname pre st = (st_p, None) /\
      TLS0.AddCAFile lib os st_p (filepath_Join lib cadirname (fi_Name file))
        = (st', Some cause) /\
      err = Errorf_w
              "add CA directory: reading contents of client CA file '%s' error -> %w"
              [fmt_Sprint_FileInfo lib file] cause.
Proof.
  induction files as [|file more IH]; intros st st' err; simpl; [discriminate|].
  destruct (TLS0.AddCAFile lib os st _) as [st1 [e|]] eqn:Hf.
  - intros [= <- <-]. exists [], file, more, st, e. auto.
  - intros H. destruct (IH _ _ _ H) as (pre & f & post & st_p & cause & -> & Hl & Ha & ->).
    exists (file :: pre), f, post, st_p, cause. simpl. rewrite Hf. auto.
Qed.

Lemma TLS0_AddCAFile_error_names lib os st cafile st' err :
  TLS0.AddCAFile lib os st cafile = (st', Some err) -> names_path err cafile.
Proof.
  unfold TLS0.AddCAFile. destruct (decide (cafile = "")); [discriminate|].
  destruct (os_ReadFile os cafile) as [cabytes|e].
  - destruct (TLS0.AddCABytes lib st cabytes) as [s [e|]]; [|discriminate].
    intros [= <- <-]. simpl. apply list_elem_of_singleton. reflexivity.
  - intros [= <- <-]. simpl. apply list_elem_of_singleton. reflexivity.
Qed.

Lemma names_path_mentions e p : names_path e p -> mentions e p.
Proof. destruct e; simpl; auto. Qed.

(** C6. On a directory that can be read, [AddCADir] loads, in the order of
    the listing, the files [filepath.Join(dir, name)] of exactly the
    entries that are regular files with extension [.crt] or [.pem] in any
    case, and reads no other entry; it stops at the first of them that
    fails to load, and the error it returns then names that file's path and
    wraps the cause. It ends on every directory.

    [AddCADir] of tls.go, which opens the directory and reads it with
    [Readdir], loads the files of the same entries in the same order and
    stops at the first that fails to load; the error it returns then wraps
    that of [AddCAFile], which names the file's path, so the path is in
    the text of the error. *)
Theorem AddCADir_loads_selected_files :
  forall lib os dir,
    dir <> "" ->
    (forall st entries,
        os_ReadDir os dir = Ok entries ->
        TLSConfigBuilder.AddCADir lib os st dir
        = load_files lib os
            (map (fun entry => filepath_Join lib dir (Name entry))
                 (List.filter selected entries)) st /\
        (forall st' err,
            TLSConfigBuilder.AddCADir lib os st dir = Some (st', Some err) ->
            exists pre path post st_p cause,
              map (fun entry => filepath_Join lib dir (Name entry))
                  (List.filter selected entries) = pre ++ path :: post /\
              load_files lib os pre st = Some (st_p, None) /\
              TLSConfigBuilder.AddCAFile lib os st_p path = Some (st', Some cause) /\
              err = Errorf_w "load CA '%s': %w" [path] cause /\
              names_path err path /\ unwrap err = Some cause) /\
        (Decode_consumes lib ->
         exists r, TLSConfigBuilder.AddCADir lib os st dir = Some r)) /\
    (forall st cadir files,
        os_Open os dir = Ok cadir ->
        File_Readdir os cadir = Ok files ->
        TLS0.AddCADir lib os st dir
        = TLS0_load_files lib os dir (List.filter selected_file files) st /\
        (forall st' err,
            TLS0.AddCADir lib os st dir = (st', Some err) ->
            exists pre file post st_p cause,
              List.filter selected_file files = pre ++ file :: post /\
              TLS0_load_files lib os dir pre st = (st_p, None) /\
              TLS0.AddCAFile lib os st_p (filepath_Join lib dir (fi_Name file))
                = (st', Some cause) /\
              unwrap err = Some cause /\
              names_path cause (filepath_Join lib dir (fi_Name file)) /\
              mentions err (filepath_Join lib dir (fi_Name file)))).
Proof.
  intros lib os dir Hdir. split.
  - intros st entries Hread.
    assert (Heq : TLSConfigBuilder.AddCADir lib os st dir
                  = load_files lib os
                      (map (fun entry => filepath_Join lib dir (Name entry))
                           (List.filter selected entries)) st).
    { unfold TLSConfigBuilder.AddCADir.
      destruct (decide (dir = "")); [contradiction|].
      rewrite Hread. apply AddCADir_loop_load_files. }
    split_and!.
    + exact Heq.
    + intros st' err H. rewrite Heq in H.
      destruct (load_files_error _ _ _ _ _ _ H)
        as (pre & path & post & st_p & cause & Hp & Hl & Ha & ->).
      exists pre, path, post, st_p, cause. split_and!; auto.
      simpl. apply list_elem_of_singleton. reflexivity.
    + intros Hdec. rewrite Heq. apply load_files_ends. exact Hdec.
  - intros st cadir files Hopen Hread.
    assert (Heq : TLS0.AddCADir lib os st dir
                  = TLS0_load_files lib os dir (List.filter selected_file files) st).
    { unfold TLS0.AddCADir.
      destruct (decide (dir = "")); [contradiction|].
      rewrite Hopen, Hread. apply TLS0_AddCADir_loop_load_files. }
    split_and!.
    + exact Heq.
    + intros st' err H. rewrite Heq in H.
      destruct (TLS0_load_files_error _ _ _ _ _ _ _ H)
        as (pre & file & post & st_p & cause & Hp & Hl & Ha & ->).
      exists pre, file, post, st_p, cause.
      pose proof (TLS0_AddCAFile_error_names _ _ _ _ _ _ Ha) as Hn.
      split_and!; auto.
      simpl. right. now apply names_path_mentions.
Qed.

(** The directory [/etc/ca] with [a.crt], [b.pem], [c.txt] and the
    subdirectory [d]: [a.crt] and [b.pem] are loaded and nothing else, by
    the builder and by the [TLS] of tls.go. The directory [/etc/bad],
    whose second file holds a block that does not parse: the error of the
    builder names [/etc/bad/b.crt] and the third file is not loaded. The
    directory [/etc/none], whose second file holds no certificate: the
    error of the [TLS] has [/etc/none/b.crt] in its text and the third
    file is not loaded. *)
Lemma AddCADir_loads_selected_files_witness :
  (exists st',
      TLSConfigBuilder.AddCADir Demo.lib Demo.os1 Demo.builder0 "/etc/ca"
      = Some (st', None) /\
      TLSConfigBuilder.pool st' = [ {| Raw := Demo.pem "a" |}; {| Raw := Demo.pem "b" |} ]) /\
  (exists st' err,
      TLSConfigBuilder.AddCADir Demo.lib Demo.os1 Demo.builder0 "/etc/bad"
      = Some (st', Some err) /\
      names_path err "/etc/bad/b.crt" /\
      TLSConfigBuilder.pool st' = [ {| Raw := Demo.pem "a" |}; {| Raw := Demo.pem "x" |} ]) /\
  (exists st',
      TLS0.AddCADir Demo.lib Demo.os1 Demo.tls_go "/etc/ca" = (st', None) /\
      TLS0.pool st' = [ {| Raw := Demo.pem "a" |}; {| Raw := Demo.pem "b" |} ]) /\
  (exists st' err,
      TLS0.AddCADir Demo.lib Demo.os1 Demo.tls_go "/etc/none" = (st', Some err) /\
      mentions err "/etc/none/b.crt" /\
      TLS0.pool st' = [ {| Raw := Demo.pem "a" |} ]).
Proof.
  split_and!.
  - destruct (proj1 (AddCADir_loads_selected_files Demo.lib Demo.os1 "/etc/ca"
                       ltac:(discriminate)) Demo.builder0 _ eq_refl) as (Heq & _ & _).
    rewrite Heq. eexists. split; reflexivity.
  - destruct (proj1 (AddCADir_loads_selected_files Demo.lib Demo.os1 "/etc/bad"
                       ltac:(discriminate)) Demo.builder0 _ eq_refl) as (Heq & _ & _).
    rewrite Heq. eexists _, _. split; [reflexivity|]. split; [|reflexivity].
    simpl. apply list_elem_of_singleton. reflexivity.
  - destruct (proj2 (AddCADir_loads_selected_files Demo.lib Demo.os1 "/etc/ca"
                       ltac:(discriminate)) Demo.tls_go _ _ eq_refl eq_refl)
      as (Heq & _).
    rewrite Heq. eexists. split; reflexivity.
  - destruct (proj2 (AddCADir_loads_selected_files Demo.lib Demo.os1 "/etc/none"
                       ltac:(discriminate)) Demo.tls_go _ _ eq_refl eq_refl)
      as (Heq & _).
    rewrite Heq. eexists _, _. split; [reflexivity|]. split; [|reflexivity].
    simpl. right. left. apply list_elem_of_singleton. reflexivity.
Defined.

(** ** Configurations already handed out *)

Lemma AddCABytes_pools lib st pemData st' err :
  TLSConfigBuilder.AddCABytes lib st pemData = Some (st', err) ->
  is_Some (TLSConfigBuilder.pools st' !! TLSConfigBuilder.ca (TLSConfigBuilder.self st)).
Proof.
  unfold TLSConfigBuilder.AddCABytes.
  destruct (TLSConfigBuilder.AddCABytes_loop _ _ _ _) as [[s e]|]; [|discriminate].
  intros H. inversion H; subst. simpl. rewrite lookup_insert_eq. eauto.
Qed.

Lemma AddCAFile_pools lib os st path st' err :
  TLSConfigBuilder.AddCAFile lib os st path = Some (st', err) ->
  is_Some (TLSConfigBuilder.pools st !! TLSConfigBuilder.ca (TLSConfigBuilder.self st)) ->
  is_Some (TLSConfigBuilder.pools st' !! TLSConfigBuilder.ca (TLSConfigBuilder.self st)).
Proof.
  unfold TLSConfigBuilder.AddCAFile.
  destruct (decide (path = "")).
  - intros H. inversion H; subst. auto.
  - destruct (os_ReadFile os path).
    + intros H _. eapply AddCABytes_pools; eauto.
    + intros H. inversion H; subst. auto.
Qed.

Lemma AddCADir_loop_pools lib os dir entries :
  forall st st' err,
    TLSConfigBuilder.AddCADir_loop lib os dir entries st = Some (st', err) ->
    is_Some (TLSConfigBuilder.pools st !! TLSConfigBuilder.ca (TLSConfigBuilder.self st)) ->
    is_Some (TLSConfigBuilder.pools st' !! TLSConfigBuilder.ca (TLSConfigBuilder.self st)).
Proof.
  induction entries as [|entry more IH]; intros st st' err; simpl.
  - intros H. inversion H; subst. auto.
  - destruct (negb (IsRegular (Type_ entry))); [apply IH|].
    destruct (TLSConfigBuilder.ca_extension (Name entry)); [|apply IH].
    destruct (TLSConfigBuilder.AddCAFile lib os st _) as [[st1 [e|]]|] eqn:Hf;
      [| |discriminate].
    + intros H. inversion H; subst. eapply AddCAFile_pools; eauto.
    + intros H Hs. pose proof (AddCAFile_pools _ _ _ _ _ _ Hf Hs) as Hs1.
      apply AddCAFile_frame in Hf as (Hself & _).
      rewrite <- Hself in *. eapply IH; eauto.
Qed.

Lemma ForServer_pools lib os st st' cfg :
  TLSConfigBuilder.ForServer lib os st = Return (st', cfg) ->
  TLSConfigBuilder.pools st' = TLSConfigBuilder.pools st /\
  TLSConfigBuilder.ca (TLSConfigBuilder.self st') = TLSConfigBuilder.ca (TLSConfigBuilder.self st) /\
  TLSConfigBuilder.clientAuth (TLSConfigBuilder.self st')
    = TLSConfigBuilder.clientAuth (TLSConfigBuilder.self st) /\
  ClientCAs cfg = Some (TLSConfigBuilder.ca (TLSConfigBuilder.self st)) /\
  ClientAuth cfg = AuthType (TLSConfigBuilder.clientAuth (TLSConfigBuilder.self st)) /\
  MinVersion cfg = VersionTLS12 /\
  Certificates cfg = match TLSConfigBuilder.cert (TLSConfigBuilder.self st') with
                     | Some c => [c]
                     | None => []
                     end.
Proof.
  unfold TLSConfigBuilder.ForServer, TLSConfigBuilder.injectServerCert.
  set (cond := _ && _ && _). destruct cond.
  - unfold TLSConfigBuilder.reloadCert.
    destruct (tls_LoadX509KeyPair os _ _) as [c|e]; [|discriminate]. simpl.
    intros H; inversion H; subst. rewrite startWatcher_cert. simpl.
    unfold TLSConfigBuilder.startWatcher. simpl.
    destruct (TLSConfigBuilder.watcher _); [simpl; auto 10|].
    destruct (fsnotify_NewWatcher os); simpl; auto 10.
  - destruct (TLSConfigBuilder.cert (TLSConfigBuilder.self st)) as [c|] eqn:Hc.
    + intros H; inversion H; subst. rewrite startWatcher_cert, Hc.
      unfold TLSConfigBuilder.startWatcher.
      destruct (TLSConfigBuilder.watcher _); [simpl; auto 10|].
      destruct (fsnotify_NewWatcher os); simpl; auto 10.
    + intros H; inversion H; subst. rewrite Hc. simpl. auto 10.
Qed.

Lemma on_event_pools os st ev :
  TLSConfigBuilder.pools (TLSConfigBuilder.on_event os st ev) = TLSConfigBuilder.pools st /\
  TLSConfigBuilder.ca (TLSConfigBuilder.self (TLSConfigBuilder.on_event os st ev))
    = TLSConfigBuilder.ca (TLSConfigBuilder.self st).
Proof.
  unfold TLSConfigBuilder.on_event, TLSConfigBuilder.reloadCert.
  destruct (TLSConfigBuilder.qualifies _ ev); [|auto].
  destruct (tls_LoadX509KeyPair os _ _); auto.
Qed.

(** No call moves [t.ca] or drops the pool it points to; only the three
    [AddCA...] methods write to the heap of pools. *)
Lemma perform_pools lib c st st' :
  TLSConfigBuilder.perform lib c st = Some (Return st') ->
  TLSConfigBuilder.ca (TLSConfigBuilder.self st') = TLSConfigBuilder.ca (TLSConfigBuilder.self st) /\
  (is_Some (TLSConfigBuilder.pools st !! TLSConfigBuilder.ca (TLSConfigBuilder.self st)) ->
   is_Some (TLSConfigBuilder.pools st' !! TLSConfigBuilder.ca (TLSConfigBuilder.self st))) /\
  (TLSConfigBuilder.is_AddCA c = false ->
   TLSConfigBuilder.pools st' = TLSConfigBuilder.pools st).
Proof.
  destruct c; simpl.
  - intros H; inversion H; subst; simpl; auto.
  - destruct (TLSConfigBuilder.AddCAFile lib os st path) as [[s e]|] eqn:Hf;
      simpl; [|discriminate].
    intros H; inversion H; subst. split_and!; [|eapply AddCAFile_pools; eauto|discriminate].
    now apply AddCAFile_frame in Hf as (-> & _).
  - destruct (TLSConfigBuilder.AddCADir lib os st dir) as [[s e]|] eqn:Hf;
      simpl; [|discriminate].
    intros H; inversion H; subst. split_and!; [| |discriminate].
    + now apply AddCADir_frame in Hf as (-> & _).
    + revert Hf. unfold TLSConfigBuilder.AddCADir.
      destruct (decide (dir = "")); [intros Hf; inversion Hf; subst; auto|].
      destruct (os_ReadDir os dir); [apply AddCADir_loop_pools|].
      intros Hf; inversion Hf; subst; auto.
  - destruct (TLSConfigBuilder.AddCABytes lib st pemData) as [[s e]|] eqn:Hf;
      simpl; [|discriminate].
    intros H; inversion H; subst. split_and!; [| |discriminate].
    + now apply AddCABytes_frame in Hf as (-> & _).
    + intros _. eapply AddCABytes_pools; eauto.
  - intros H; inversion H; subst. unfold TLSConfigBuilder.SetCertKeyFile.
    destruct (TLSConfigBuilder.FileExists os certPath); simpl; auto.
    destruct (TLSConfigBuilder.FileExists os keyPath); simpl; auto.
  - intros H; inversion H; subst. unfold TLSConfigBuilder.SetCertKeyFromBytes.
    destruct (tls_X509KeyPair lib certPEM keyPEM); simpl; auto.
  - intros H; inversion H; subst; simpl; auto.
  - destruct (TLSConfigBuilder.ForServer lib os st) as [[s cfg]|e] eqn:Hf;
      [|discriminate].
    intros H; inversion H; subst.
    apply ForServer_pools in Hf as (-> & -> & _). auto.
  - intros H; inversion H; subst; auto.
  - unfold TLSConfigBuilder.Close.
    destruct (TLSConfigBuilder.watcher (TLSConfigBuilder.self st)).
    + destruct (TLSConfigBuilder.done (TLSConfigBuilder.self st));
        intros H; inversion H; subst; simpl; auto.
    + intros H; inversion H; subst; auto.
  - unfold TLSConfigBuilder.loop_turn.
    destruct (decide (w ∈ TLSConfigBuilder.loops st)); [|discriminate].
    destruct c as [ev|err|].
    + intros H; inversion H; subst.
      destruct (on_event_pools os st ev) as (-> & ->). auto.
    + intros H; inversion H; subst; simpl; auto.
    + destruct (TLSConfigBuilder.done (TLSConfigBuilder.self st)); try discriminate.
      intros H; inversion H; subst; simpl. auto.
Qed.

Lemma reachable_pool_allocated lib st :
  TLSConfigBuilder.reachable lib st ->
  is_Some (TLSConfigBuilder.pools st !! TLSConfigBuilder.ca (TLSConfigBuilder.self st)).
Proof.
  induction 1 as [os useSystemCA st Hn | c st st' _ IH Hp].
  - unfold TLSConfigBuilder.NewTLSConfigBuilder in Hn.
    destruct useSystemCA; [destruct (x509_SystemCertPool os) as [[p|]|]|];
      inversion Hn; subst; simpl; rewrite lookup_singleton_eq; eauto.
  - apply perform_pools in Hp as (-> & Hs & _). auto.
Qed.

Lemma run_pools lib calls :
  forall st st',
    TLSConfigBuilder.run lib calls st = Some st' ->
    TLSConfigBuilder.ca (TLSConfigBuilder.self st') = TLSConfigBuilder.ca (TLSConfigBuilder.self st) /\
    (is_Some (TLSConfigBuilder.pools st !! TLSConfigBuilder.ca (TLSConfigBuilder.self st)) ->
     is_Some (TLSConfigBuilder.pools st' !! TLSConfigBuilder.ca (TLSConfigBuilder.self st))) /\
    (forallb (fun c => negb (TLSConfigBuilder.is_AddCA c)) calls = true ->
     TLSConfigBuilder.pools st' = TLSConfigBuilder.pools st).
Proof.
  induction calls as [|c more IH]; intros st st'; simpl.
  - intros H; inversion H; subst; auto.
  - destruct (TLSConfigBuilder.perform lib c st) as [[st1|e]|] eqn:Hp; try discriminate.
    intros H. apply IH in H as (Hca & Hs & Hk).
    apply perform_pools in Hp as (Hca1 & Hs1 & Hk1).
    rewrite Hca1 in *. split_and!; auto.
    intros Hall. apply andb_true_iff in Hall as [Hc Hall].
    apply negb_true_iff in Hc. rewrite (Hk Hall). auto.
Qed.

Lemma pool_at_ca st :
  is_Some (TLSConfigBuilder.pools st !! TLSConfigBuilder.ca (TLSConfigBuilder.self st)) ->
  TLSConfigBuilder.pool_at st (Some (TLSConfigBuilder.ca (TLSConfigBuilder.self st)))
  = Some (TLSConfigBuilder.pool st).
Proof.
  unfold TLSConfigBuilder.pool_at, TLSConfigBuilder.pool.
  intros [p Hp]. simpl. now rewrite !Hp.
Qed.

(** C4, as the code has it. A configuration returned by [ForServer] or
    [ForClient] holds the client-auth policy, the certificate, the minimum
    version and the skip-verify flag of the time of the call, by value: no
    later call reaches them. Its pool is a pointer to the builder's one
    pool: after any later calls a handshake through that configuration
    verifies against the builder's pool as it is then; if none of these
    calls is [AddCABytes], [AddCAFile] or [AddCADir], that is the pool as it
    was when the configuration was returned. *)
Theorem issued_config_shares_pool :
  forall lib,
    (forall os st st1 cfg calls st2,
        TLSConfigBuilder.reachable lib st ->
        TLSConfigBuilder.ForServer lib os st = Return (st1, cfg) ->
        TLSConfigBuilder.run lib calls st1 = Some st2 ->
        ClientAuth cfg = AuthType (TLSConfigBuilder.clientAuth (TLSConfigBuilder.self st)) /\
        Certificates cfg = match TLSConfigBuilder.cert (TLSConfigBuilder.self st1) with
                           | Some c => [c]
                           | None => []
                           end /\
        MinVersion cfg = VersionTLS12 /\
        ClientCAs cfg = Some (TLSConfigBuilder.ca (TLSConfigBuilder.self st2)) /\
        TLSConfigBuilder.pool_at st2 (ClientCAs cfg) = Some (TLSConfigBuilder.pool st2) /\
        (forallb (fun c => negb (TLSConfigBuilder.is_AddCA c)) calls = true ->
         TLSConfigBuilder.pool_at st2 (ClientCAs cfg)
         = TLSConfigBuilder.pool_at st1 (ClientCAs cfg))) /\
    (forall st cfg calls st2,
        TLSConfigBuilder.reachable lib st ->
        TLSConfigBuilder.ForClient st = cfg ->
        TLSConfigBuilder.run lib calls st = Some st2 ->
        InsecureSkipVerify cfg = TLSConfigBuilder.insecure (TLSConfigBuilder.self st) /\
        Certificates cfg = match TLSConfigBuilder.cert (TLSConfigBuilder.self st) with
                           | Some c => [c]
                           | None => []
                           end /\
        MinVersion cfg = VersionTLS12 /\
        RootCAs cfg = Some (TLSConfigBuilder.ca (TLSConfigBuilder.self st2)) /\
        TLSConfigBuilder.pool_at st2 (RootCAs cfg) = Some (TLSConfigBuilder.pool st2) /\
        (forallb (fun c => negb (TLSConfigBuilder.is_AddCA c)) calls = true ->
         TLSConfigBuilder.pool_at st2 (RootCAs cfg)
         = TLSConfigBuilder.pool_at st (RootCAs cfg))).
Proof.
  intros lib. split.
  - intros os st st1 cfg calls st2 Hr Hf Hrun.
    pose proof (reachable_pool_allocated _ _ Hr) as Hs.
    destruct (ForServer_pools _ _ _ _ _ Hf) as (Hp & Hca & _ & Hcas & Hauth & Hmin & Hcert).
    destruct (run_pools _ _ _ _ Hrun) as (Hca2 & Hs2 & Hk).
    rewrite Hca, Hp in *.
    split_and!; auto.
    + now rewrite Hcas, Hca2.
    + rewrite Hcas, <- Hca2. apply pool_at_ca. rewrite Hca2. auto.
    + intros Hall. unfold TLSConfigBuilder.pool_at. rewrite Hcas. simpl.
      now rewrite (Hk Hall), Hp.
  - intros st cfg calls st2 Hr <- Hrun.
    pose proof (reachable_pool_allocated _ _ Hr) as Hs.
    destruct (run_pools _ _ _ _ Hrun) as (Hca2 & Hs2 & Hk).
    assert (Hroot : RootCAs (TLSConfigBuilder.ForClient st)
                    = Some (TLSConfigBuilder.ca (TLSConfigBuilder.self st))).
    { unfold TLSConfigBuilder.ForClient, TLSConfigBuilder.injectClientCert.
      now destruct (TLSConfigBuilder.cert _). }
    split_and!.
    + unfold TLSConfigBuilder.ForClient, TLSConfigBuilder.injectClientCert.
      now destruct (TLSConfigBuilder.cert _).
    + unfold TLSConfigBuilder.ForClient, TLSConfigBuilder.injectClientCert.
      now destruct (TLSConfigBuilder.cert _).
    + unfold TLSConfigBuilder.ForClient, TLSConfigBuilder.injectClientCert.
      now destruct (TLSConfigBuilder.cert _).
    + now rewrite Hroot, Hca2.
    + rewrite Hroot, <- Hca2. apply pool_at_ca. rewrite Hca2. auto.
    + intros Hall. unfold TLSConfigBuilder.pool_at. rewrite Hroot. simpl.
      now rewrite (Hk Hall).
Qed.

(** A server configuration is issued; then the policy is changed, a
    credential is set from memory and a CA is added. The configuration
    keeps its policy and certificate, and sees the new CA. *)
Lemma issued_config_shares_pool_witness :
  exists cfg st2,
    TLSConfigBuilder.ForServer Demo.lib Demo.os1 Demo.builder1
      = Return (Demo.builder2, cfg) /\
    TLSConfigBuilder.run Demo.lib
      [ TLSConfigBuilder.call_SetClientAuth TLSClientAuthRequireVerify;
        TLSConfigBuilder.call_SetCertKeyFromBytes (Demo.pem "chain-2") (Demo.pem "key-2");
        TLSConfigBuilder.call_AddCABytes (Demo.pem "Ca") ] Demo.builder2 = Some st2 /\
    ClientAuth cfg = 0%Z /\
    Certificates cfg = [Demo.cred1] /\
    TLSConfigBuilder.pool_at st2 (ClientCAs cfg) = Some (TLSConfigBuilder.pool st2).
Proof.
  destruct (TLSConfigBuilder.run Demo.lib
              [ TLSConfigBuilder.call_SetClientAuth TLSClientAuthRequireVerify;
                TLSConfigBuilder.call_SetCertKeyFromBytes
                  (Demo.pem "chain-2") (Demo.pem "key-2");
                TLSConfigBuilder.call_AddCABytes (Demo.pem "Ca") ] Demo.builder2)
    as [st2|] eqn:Hrun; [|vm_compute in Hrun; discriminate Hrun].
  exists {| Certificates := [Demo.cred1]; RootCAs := None; ClientCAs := Some 0;
            ClientAuth := 0%Z; MinVersion := VersionTLS12;
            InsecureSkipVerify := false |}, st2.
  split; [reflexivity|]. split; [reflexivity|].
  destruct (proj1 (issued_config_shares_pool Demo.lib) Demo.os1 Demo.builder1
              Demo.builder2 _ _ st2
              (TLSConfigBuilder.reachable_call _
                 (TLSConfigBuilder.call_SetCertKeyFile Demo.os1
                    "/etc/tls/app.crt" "/etc/tls/app.key") Demo.builder0 _
                 (TLSConfigBuilder.reachable_new _ Demo.os1 false _ eq_refl) eq_refl)
              eq_refl Hrun)
    as (Hauth & Hcert & _ & _ & Hpool & _).
  split; [exact Hauth|]. split; [exact Hcert|]. exact Hpool.
Defined.

(** C4 as stated fails for the trust pool: a CA added after a server
    configuration was issued is in the pool that configuration verifies
    client certificates against. *)
Lemma issued_config_sees_later_CA :
  exists cfg st2,
    TLSConfigBuilder.ForServer Demo.lib Demo.os1 Demo.builder1
      = Return (Demo.builder2, cfg) /\
    TLSConfigBuilder.pool_at Demo.builder2 (ClientCAs cfg) = Some [] /\
    TLSConfigBuilder.AddCABytes Demo.lib Demo.builder2 (Demo.pem "Ca") = Some (st2, None) /\
    TLSConfigBuilder.pool_at st2 (ClientCAs cfg) = Some [ {| Raw := Demo.pem "a" |} ] /\
    TLSConfigBuilder.pool_at st2 (ClientCAs cfg)
      <> TLSConfigBuilder.pool_at Demo.builder2 (ClientCAs cfg).
Proof.
  eexists _, _. split; [reflexivity|]. split; [reflexivity|].
  split; [reflexivity|]. split; [reflexivity|]. discriminate.
Qed.

(** ** The credential cell under concurrent readers *)

Section CredentialCellProofs.
Import CredentialCell.

Ltac thread_cases th :=
  let w := fresh "w" in
  let r := fresh "r" in
  let p := fresh "p" in
  destruct th as [w|r]; [destruct w | destruct r as [|p| |]; [|destruct p| |]].

Lemma inv_initial st : initial st -> inv [] st.
Proof.
  intros (Hh & Hc & Hp & Hi). split.
  - now rewrite Hc.
  - rewrite Hp. intros c Hc'. inversion Hc'.
  - intros j th a Hj Hh'. apply Hi in Hj. thread_cases th; discriminate.
  - intros i th a Hj Hb. apply Hi in Hj. thread_cases th; discriminate.
  - intros i a v Hj. apply Hi in Hj. discriminate.
  - intros i a v Hj. apply Hi in Hj. discriminate.
  - intros i th v Hj Hs. apply Hi in Hj. thread_cases th; discriminate.
Qed.

Lemma inv_weaken L L' st : (forall c, c ∈ L -> c ∈ L') -> inv L st -> inv L' st.
Proof.
  intros HL [H1 H2 H3 H4 H5 H6 H7]. split; eauto.
Qed.

Lemma restore v x :
  Certificate x = Certificate v ->
  {| Certificate := Certificate x; PrivateKey := PrivateKey v |} = v.
Proof. destruct v, x; simpl; intros ->; reflexivity. Qed.

Lemma holds_building th a : building th = Some a -> holds th = Some a.
Proof. thread_cases th; simpl; congruence. Qed.

Lemma fresh_heap (h : gmap loc tls_Certificate) a :
  is_Some (h !! a) -> a <> fresh (dom h).
Proof.
  intros Hs ->. apply elem_of_dom in Hs. now apply is_fresh in Hs.
Qed.

(** A step of a thread that keeps the heap, the cell and the history, and
    neither takes nor gives up a struct being filled. *)
Lemma inv_reader_step L st i old new :
  inv L st ->
  threads st !! i = Some old ->
  building old = None -> building new = None -> storing new = None ->
  (forall a, holds new = Some a ->
             holds old = Some a \/ cell st = Some a) ->
  inv L (set_thread st i new).
Proof.
  intros [H1 H2 H3 H4 H5 H6 H7] Hi Hbo Hbn Hsn Hh. split; simpl; auto.
  - intros j th a. rewrite lookup_insert. case_decide; simplify_eq.
    + intros [= <-] Ha. destruct (Hh _ Ha) as [Ho|Hc]; [eauto|].
      rewrite Hc in H1. destruct H1 as (v & rest & _ & ->). eauto.
    + eauto.
  - intros k th a. rewrite lookup_insert. case_decide; simplify_eq.
    + intros [= <-]. congruence.
    + intros Hk Hb. destruct (H4 _ _ _ Hk Hb) as [Hc Hn]. split; [exact Hc|].
      intros j th'. rewrite lookup_insert. case_decide; simplify_eq.
      * intros Hne [= <-] Ha. destruct (Hh _ Ha) as [Ho|Hc']; [|congruence].
        eapply Hn; [|exact Hi|exact Ho]. congruence.
      * eauto.
  - intros k a v. rewrite lookup_insert. case_decide; [|eauto].
    intros ?; simplify_eq/=.
  - intros k a v. rewrite lookup_insert. case_decide; [|eauto].
    intros ?; simplify_eq/=.
  - intros k th v. rewrite lookup_insert. case_decide; [|eauto].
    intros ? ?; simplify_eq/=.
Qed.

(** The allocation of the variable [cert] of a reload. *)
Lemma inv_reload L st i v :
  inv L st ->
  threads st !! i = Some (Writer w_idle) ->
  inv (v :: L)
      (set_thread (set_heap st (fresh (dom (heap st))) zero) i
         (Writer (w_alloc (fresh (dom (heap st))) v))).
Proof.
  intros [H1 H2 H3 H4 H5 H6 H7] Hi.
  set (a := fresh (dom (heap st))).
  assert (Hfresh : forall b, is_Some (heap st !! b) -> b <> a)
    by (intros b Hb; now apply fresh_heap).
  split; simpl.
  - destruct (cell st) as [p|]; [|exact H1].
    destruct H1 as (x & rest & Hp & Hx). exists x, rest. split; [exact Hp|].
    rewrite lookup_insert_ne; [exact Hx|]. intros <-. eapply Hfresh; eauto.
  - intros c Hc. apply list_elem_of_further. auto.
  - intros j th b. rewrite lookup_insert. case_decide.
    + intros ? ?; simplify_eq/=. rewrite lookup_insert_eq. eauto.
    + intros Hj Hb. apply lookup_insert_is_Some'. right. eauto.
  - intros k th b. rewrite lookup_insert. case_decide.
    + intros ? ?; simplify_eq/=. split.
      * intros Hc. rewrite Hc in H1. destruct H1 as (x & rest & _ & Hx).
        eapply Hfresh; eauto.
      * intros j th'. rewrite lookup_insert. case_decide; [congruence|].
        intros _ Hj Hh. eapply Hfresh; eauto.
    + intros Hk Hb. destruct (H4 _ _ _ Hk Hb) as [Hc Hn]. split; [exact Hc|].
      intros j th'. rewrite lookup_insert. case_decide; [|eauto].
      intros _ ?; simplify_eq/=. intros [= Ha].
      eapply Hfresh; [|symmetry; exact Ha].
      apply (H3 _ _ _ Hk). now apply holds_building.
  - intros k b w. rewrite lookup_insert. case_decide; [intros ?; simplify_eq/=|].
    intros Hk. destruct (H5 _ _ _ Hk) as (x & Hx & Hc). exists x. split; [|exact Hc].
    rewrite lookup_insert_ne; [exact Hx|]. intros <-. eapply Hfresh; eauto.
  - intros k b w. rewrite lookup_insert. case_decide; [intros ?; simplify_eq/=|].
    intros Hk. rewrite lookup_insert_ne; [eauto|]. intros <-.
    eapply Hfresh; eauto.
  - intros k th w. rewrite lookup_insert. case_decide.
    + intros ? ?; simplify_eq/=. apply list_elem_of_here.
    + intros Hk Hs. apply list_elem_of_further. eauto.
Qed.

(** A write of one field of the variable [cert]. *)
Lemma inv_write L st i old new a v x :
  inv L st ->
  threads st !! i = Some old ->
  building old = Some a -> building new = Some a ->
  storing old = Some v -> storing new = Some v ->
  (forall a' v', new = Writer (w_chain a' v') -> Certificate x = Certificate v') ->
  (forall a' v', new = Writer (w_key a' v') -> x = v') ->
  inv L (set_thread (set_heap st a x) i new).
Proof.
  intros [H1 H2 H3 H4 H5 H6 H7] Hi Hbo Hbn Hso Hsn Hc Hk.
  destruct (H4 _ _ _ Hi Hbo) as [Hcell Hothers].
  split; simpl.
  - destruct (cell st) as [p|]; [|exact H1].
    destruct H1 as (y & rest & Hp & Hy). exists y, rest. split; [exact Hp|].
    rewrite lookup_insert_ne; [exact Hy|]. congruence.
  - exact H2.
  - intros j th b Hj Hb. apply lookup_insert_is_Some'.
    revert Hj. rewrite lookup_insert. case_decide.
    + intros ?; simplify_eq/=. left. apply holds_building in Hbn. congruence.
    + right. eauto.
  - intros k th b. rewrite lookup_insert. case_decide.
    + intros ? Hb; simplify_eq/=. split; [congruence|].
      intros j th'. rewrite lookup_insert. case_decide; [congruence|].
      intros _ Hj. eauto.
    + intros Hk' Hb. destruct (H4 _ _ _ Hk' Hb) as [Hc' Hn]. split; [exact Hc'|].
      intros j th'. rewrite lookup_insert. case_decide; [|eauto].
      intros _ ?; simplify_eq/=. apply holds_building in Hbn. rewrite Hbn.
      apply holds_building in Hbo. rewrite <- Hbo. eapply Hn; eauto.
  - intros k b w. rewrite lookup_insert. case_decide.
    + intros ?; simplify_eq/=. rewrite lookup_insert_eq. eauto.
    + intros Hk'. destruct (H5 _ _ _ Hk') as (y & Hy & Hcy). exists y.
      split; [|exact Hcy]. rewrite lookup_insert_ne; [exact Hy|].
      intros <-. eapply (Hothers k); eauto.
  - intros k b w. rewrite lookup_insert. case_decide.
    + intros ?; simplify_eq/=. rewrite lookup_insert_eq. f_equal. eauto.
    + intros Hk'. rewrite lookup_insert_ne; [eauto|].
      intros <-. eapply (Hothers k); eauto.
  - intros k th w. rewrite lookup_insert. case_decide; [|eauto].
    intros ? ?; simplify_eq/=. eapply H7; eauto.
Qed.

(** [t.cert.Store(&cert)]. *)
Lemma inv_Store L st i a v :
  inv L st ->
  threads st !! i = Some (Writer (w_key a v)) ->
  inv L (set_thread (Store st a v) i (Writer w_idle)).
Proof.
  intros [H1 H2 H3 H4 H5 H6 H7] Hi.
  destruct (H4 _ _ _ Hi eq_refl) as [Hcell Hothers].
  split; simpl.
  - exists v, (published st). split; [reflexivity|]. eauto.
  - intros c Hc. apply elem_of_cons in Hc as [->|Hc]; [|auto].
    eapply H7; eauto; reflexivity.
  - intros j th b. rewrite lookup_insert. case_decide; [|eauto].
    intros ? ?; simplify_eq/=.
  - intros k th b. rewrite lookup_insert. case_decide;
      [intros ? ?; simplify_eq/=|].
    intros Hk Hb. destruct (H4 _ _ _ Hk Hb) as [Hc' Hn]. split.
    + intros [= <-]. apply (Hn i (Writer (w_key a v))); auto.
    + intros j th'. rewrite lookup_insert. case_decide; [|eauto].
      intros _ ?; simplify_eq/=. discriminate.
  - intros k b w. rewrite lookup_insert. case_decide; [intros ?; simplify_eq/=|eauto].
  - intros k b w. rewrite lookup_insert. case_decide; [intros ?; simplify_eq/=|eauto].
  - intros k th w. rewrite lookup_insert. case_decide; [|eauto].
    intros ? ?; simplify_eq/=.
Qed.

(** Every step keeps the invariant, the values loaded growing by what
    the step loads. *)
Lemma inv_exec L st act st' :
  inv L st -> exec act st = Some st' -> inv (loaded act ++ L) st'.
Proof.
  intros Hinv. destruct act as [i v|i]; simpl.
  - destruct (threads st !! i) as [[[]|]|] eqn:Hi; try discriminate.
    intros [= <-]. now apply inv_reload.
  - destruct (threads st !! i) as [[pc|pc]|] eqn:Hi; [| |discriminate].
    + destruct pc as [|a v|a v|a v]; simpl; [discriminate| | |].
      * destruct (heap st !! a) as [x|] eqn:Hx; [|discriminate].
        simpl. intros [= <-].
        eapply (inv_write _ _ _ _ _ a v); eauto; try reflexivity;
          try discriminate.
        now intros a' v' [= _ <-].
      * destruct (heap st !! a) as [x|] eqn:Hx; [|discriminate].
        simpl. intros [= <-].
        eapply (inv_write _ _ _ _ _ a v); eauto; try reflexivity;
          try discriminate.
        intros a' v' [= _ <-].
        destruct (inv_chain _ _ Hinv _ _ _ Hi) as (y & Hy & Hc).
        rewrite Hx in Hy. injection Hy as <-. now apply restore.
      * destruct (heap st !! a) as [x|] eqn:Hx; [|discriminate].
        simpl. intros [= <-].
        pose proof (inv_key _ _ Hinv _ _ _ Hi) as Hv.
        rewrite Hx in Hv. injection Hv as ->. now apply inv_Store.
    + destruct pc as [|[p|]|p c|o]; simpl.
      * intros [= <-]. eapply inv_reader_step; eauto.
        destruct (cell st); simpl; [|discriminate]. intros a [= <-]. now right.
      * destruct (heap st !! p) as [x|] eqn:Hx; [|discriminate].
        simpl. intros [= <-]. eapply inv_reader_step; eauto.
      * intros [= <-]. eapply inv_reader_step; eauto; discriminate.
      * destruct (heap st !! p) as [x|] eqn:Hx; [|discriminate].
        simpl. intros [= <-]. eapply inv_reader_step; eauto; discriminate.
      * discriminate.
Qed.

Lemma inv_run acts :
  forall L st st',
    inv L st -> run acts st = Some st' ->
    exists L', inv L' st' /\
               forall c, c ∈ L' -> c ∈ L \/ exists j, In (reload j c) acts.
Proof.
  induction acts as [|act more IH]; intros L st st' Hinv; simpl.
  - intros [= <-]. exists L. auto.
  - destruct (exec act st) as [st1|] eqn:He; [|discriminate]. simpl.
    intros Hrun.
    destruct (IH _ _ _ (inv_exec _ _ _ _ Hinv He) Hrun) as (L' & Hinv' & HL').
    exists L'. split; [exact Hinv'|].
    intros c Hc. destruct (HL' c Hc) as [Hin|[j Hj]]; [|eauto].
    apply elem_of_app in Hin as [Hin|Hin]; [|auto].
    destruct act as [j v|j]; simpl in Hin.
    + apply list_elem_of_singleton in Hin as ->. eauto.
    + inversion Hin.
Qed.

(** A step leaves the other threads where they are, and writes only to
    the struct its thread is filling, or to a new one. *)
Lemma exec_frame act st st' :
  exec act st = Some st' ->
  (forall k, k <> actor act -> threads st' !! k = threads st !! k) /\
  (forall p, is_Some (heap st !! p) ->
             (forall th, threads st !! actor act = Some th -> building th <> Some p) ->
             heap st' !! p = heap st !! p).
Proof.
  destruct act as [i v|i]; simpl.
  - destruct (threads st !! i) as [[[]|]|] eqn:Hi; try discriminate.
    intros [= <-]. simpl. split.
    + intros k Hk. now rewrite lookup_insert_ne.
    + intros p Hp _. rewrite lookup_insert_ne; [reflexivity|].
      intros <-. eapply fresh_heap; eauto.
  - destruct (threads st !! i) as [[pc|pc]|] eqn:Hi; [| |discriminate].
    + destruct pc as [|a v|a v|a v]; simpl; [discriminate| | |];
        (destruct (heap st !! a) as [x|] eqn:Hx; [|discriminate]);
        simpl; intros [= <-]; simpl; (split; [intros k Hk; now rewrite lookup_insert_ne|]);
        intros p Hp Hb; try reflexivity;
        (rewrite lookup_insert_ne; [reflexivity|]);
        intros <-; now apply (Hb _ eq_refl).
    + destruct pc as [|[p|]|p c|o]; simpl;
        try (destruct (heap st !! p) as [x|] eqn:Hx; [|discriminate]);
        simpl; try discriminate; intros [= <-]; simpl;
        (split; [intros k Hk; now rewrite lookup_insert_ne|]); reflexivity.
Qed.

(** A reload that runs alone does what the sequential [cert_Store] does:
    the cell ends up holding [v]. *)
Lemma reload_alone st i v :
  threads st !! i = Some (Writer w_idle) ->
  exists st',
    run [reload i v; advance i; advance i; advance i] st = Some st' /\
    current st' = Some v /\
    published st' = v :: published st.
Proof.
  intros Hi. simpl. rewrite Hi. simpl.
  repeat (rewrite lookup_insert_eq; simpl).
  eexists. split; [reflexivity|]. unfold current. simpl.
  rewrite lookup_insert_eq. now destruct v.
Qed.

Lemma current_published L st :
  inv L st -> current st = head (published st).
Proof.
  intros Hinv. pose proof (inv_cell _ _ Hinv) as Hc. unfold current.
  destruct (cell st) as [p|]; simpl.
  - destruct Hc as (v & rest & -> & ->). reflexivity.
  - now rewrite Hc.
Qed.

(** The [Load] of a reader: what it will observe is settled. *)
Lemma reader_Load L st i st1 :
  inv L st ->
  threads st !! i = Some (Reader r_idle) ->
  exec (advance i) st = Some st1 ->
  exists th, threads st1 !! i = Some th /\ reader_view st1 th (current st).
Proof.
  intros Hinv Hi. simpl. rewrite Hi. simpl. intros [= <-].
  exists (Reader (r_loaded (cell st))). simpl. rewrite lookup_insert_eq.
  split; [reflexivity|].
  pose proof (inv_cell _ _ Hinv) as Hc. unfold current.
  destruct (cell st) as [p|]; simpl; [|reflexivity].
  destruct Hc as (v & rest & _ & Hv). rewrite Hv. eauto.
Qed.

(** No step of any thread changes what a reader that has loaded will
    observe. *)
Lemma reader_view_exec L st act st' i th ov :
  inv L st ->
  threads st !! i = Some th ->
  reader_view st th ov ->
  exec act st = Some st' ->
  exists th', threads st' !! i = Some th' /\ reader_view st' th' ov.
Proof.
  intros Hinv Hi Hview Hexec.
  destruct (decide (i = actor act)) as [->|Hne].
  - destruct act as [j v|j]; simpl in *; rewrite Hi in Hexec.
    + destruct th as [[]|]; try discriminate; contradiction.
    + destruct th as [pc|pc]; [contradiction|].
      destruct pc as [|[p|]|p c|o]; simpl in *; try contradiction.
      * destruct Hview as (v & Hv & ->). rewrite Hv in Hexec. simpl in Hexec.
        injection Hexec as <-. eexists. simpl. rewrite lookup_insert_eq.
        split; [reflexivity|]. simpl. eauto.
      * injection Hexec as <-. eexists. simpl. rewrite lookup_insert_eq.
        split; [reflexivity|]. simpl. now subst.
      * destruct Hview as (v & Hv & -> & ->). rewrite Hv in Hexec. simpl in Hexec.
        injection Hexec as <-. eexists. simpl. rewrite lookup_insert_eq.
        split; [reflexivity|]. simpl. f_equal. now destruct v.
      * discriminate.
  - destruct (exec_frame _ _ _ Hexec) as [Hth Hheap].
    exists th. rewrite (Hth _ Hne). split; [exact Hi|].
    assert (Hkeep : forall p, holds th = Some p -> is_Some (heap st !! p) ->
                              heap st' !! p = heap st !! p).
    { intros p Hp Hs. apply Hheap; [exact Hs|].
      intros thj Hj Hb. destruct (inv_exclusive _ _ Hinv _ _ _ Hj Hb) as [_ Hn].
      now apply (Hn i th). }
    destruct th as [pc|pc]; [contradiction|].
    destruct pc as [|[p|]|p c|o]; simpl in *; auto.
    + destruct Hview as (v & Hv & ->). exists v.
      rewrite (Hkeep p eq_refl) by eauto. auto.
    + destruct Hview as (v & Hv & -> & ->). exists v.
      rewrite (Hkeep p eq_refl) by eauto. auto.
Qed.

Lemma reader_view_run L acts :
  forall st st' i th ov,
    inv L st ->
    threads st !! i = Some th ->
    reader_view st th ov ->
    run acts st = Some st' ->
    exists th', threads st' !! i = Some th' /\ reader_view st' th' ov.
Proof.
  revert L. induction acts as [|act more IH]; intros L st st' i th ov Hinv Hi Hv; simpl.
  - intros [= <-]. eauto.
  - destruct (exec act st) as [st1|] eqn:He; [|discriminate]. simpl.
    destruct (reader_view_exec _ _ _ _ _ _ _ Hinv Hi Hv He) as (th1 & Hi1 & Hv1).
    eapply IH; eauto using inv_exec.
Qed.
End CredentialCellProofs.

(** C1. In every schedule of reloads and reads, a reader that loads the
    cell in state [s0] and later finishes its copy has observed [current s0]:
    the whole credential that was in the cell at the time of its [Load],
    the newest published by then (none if nothing had been published),
    whatever was allocated, written or stored by the other threads in
    between. That credential is, in all its fields, one that
    [tls.LoadX509KeyPair] returned to a reload of the schedule. *)
Theorem readers_see_whole_published_credential :
  forall st0 before s0 i s1 during s2 o,
    CredentialCell.initial st0 ->
    CredentialCell.run before st0 = Some s0 ->
    CredentialCell.threads s0 !! i = Some (CredentialCell.Reader CredentialCell.r_idle) ->
    CredentialCell.exec (CredentialCell.advance i) s0 = Some s1 ->
    CredentialCell.run during s1 = Some s2 ->
    CredentialCell.threads s2 !! i
      = Some (CredentialCell.Reader (CredentialCell.r_done o)) ->
    o = CredentialCell.current s0 /\
    o = head (CredentialCell.published s0) /\
    (forall c, o = Some c -> exists j, In (CredentialCell.reload j c) before).
Proof.
  intros st0 before s0 i s1 during s2 o Hinit Hbefore Hi Hload Hduring Hdone.
  destruct (inv_run _ _ _ _ (inv_initial _ Hinit) Hbefore) as (L & Hinv & HL).
  destruct (reader_Load _ _ _ _ Hinv Hi Hload) as (th1 & Hth1 & Hview1).
  pose proof (inv_exec _ _ _ _ Hinv Hload) as Hinv1.
  destruct (reader_view_run _ _ _ _ _ _ _ Hinv1 Hth1 Hview1 Hduring)
    as (th2 & Hth2 & Hview2).
  rewrite Hdone in Hth2. injection Hth2 as <-. simpl in Hview2.
  pose proof (current_published _ _ Hinv) as Hcur.
  split_and!; [congruence|congruence|].
  intros c ->. rewrite Hcur in Hview2.
  destruct (CredentialCell.published s0) as [|c' rest] eqn:Hp; [discriminate|].
  injection Hview2 as ->.
  destruct (HL c') as [Hin|Hin]; [|inversion Hin|exact Hin].
  apply (CredentialCell.inv_published _ _ Hinv). rewrite Hp. apply list_elem_of_here.
Qed.

Lemma initial_three_threads : CredentialCell.initial CredentialCell.three_threads.
Proof.
  split_and!; try reflexivity.
  change (map_Forall (fun _ th => CredentialCell.idle th = true)
            (CredentialCell.threads CredentialCell.three_threads)).
  unfold CredentialCell.three_threads. simpl.
  do 3 (apply map_Forall_insert_2; [reflexivity|]).
  apply map_Forall_empty.
Defined.

(** Reader 1 loads the cell while it holds [cred1]; the writer allocates,
    fills and stores [cred2] between its two field reads; reader 1 ends
    with [cred1], whole. *)
Lemma readers_see_whole_published_credential_witness :
  CredentialCell.threads Demo.cell_s2 !! 1
    = Some (CredentialCell.Reader (CredentialCell.r_done (Some Demo.cred1))) /\
  CredentialCell.published Demo.cell_s0 = [Demo.cred1] /\
  CredentialCell.published Demo.cell_s2 = [Demo.cred2; Demo.cred1] /\
  Some Demo.cred1 = CredentialCell.current Demo.cell_s0.
Proof.
  assert (H2 : CredentialCell.threads Demo.cell_s2 !! 1
               = Some (CredentialCell.Reader (CredentialCell.r_done (Some Demo.cred1))))
    by (vm_compute; reflexivity).
  split; [exact H2|]. split; [vm_compute; reflexivity|].
  split; [vm_compute; reflexivity|].
  refine (proj1 (readers_see_whole_published_credential
                   CredentialCell.three_threads Demo.schedule_before
                   Demo.cell_s0 1 Demo.cell_s1 Demo.schedule_during Demo.cell_s2
                   (Some Demo.cred1) initial_three_threads _ _ _ _ H2));
    vm_compute; reflexivity.
Defined.

(** * Further properties of the code *)

(** ** Client-auth levels *)

(** X1. [AuthType] always yields one of the five levels of [crypto/tls]:
    it is the identity on [0..4] and sends every other value to
    [NoClientCert]; so the [ClientAuth] of a configuration returned by
    [ForServer] is one of the five levels whatever was given to
    [SetClientAuth], and an unknown value means no client certificate is
    asked for. *)
Theorem AuthType_clamps :
  forall tca : TLSClientAuth,
    (0 <= AuthType tca <= 4)%Z /\
    ((0 <= tca <= 4)%Z -> AuthType tca = tca) /\
    (~ (0 <= tca <= 4)%Z -> AuthType tca = TLSClientAuthNone) /\
    AuthType (AuthType tca) = AuthType tca /\
    forall lib os st st' cfg,
      TLSConfigBuilder.ForServer lib os (TLSConfigBuilder.SetClientAuth st tca)
        = Return (st', cfg) ->
      ClientAuth cfg = AuthType tca /\ (0 <= ClientAuth cfg <= 4)%Z.
Proof.
  intros tca.
  assert (H1 : (0 <= AuthType tca <= 4)%Z).
  { unfold AuthType.
    destruct (tca <? 0)%Z eqn:Ha; destruct (4 <? tca)%Z eqn:Hb; simpl; lia. }
  split; [exact H1|]. split; [|split; [|split]].
  - intros H. unfold AuthType.
    destruct (tca <? 0)%Z eqn:Ha; destruct (4 <? tca)%Z eqn:Hb; simpl; lia.
  - intros H. unfold AuthType, TLSClientAuthNone.
    destruct (tca <? 0)%Z eqn:Ha; destruct (4 <? tca)%Z eqn:Hb; simpl; lia.
  - unfold AuthType at 1.
    destruct (AuthType tca <? 0)%Z eqn:Ha; destruct (4 <? AuthType tca)%Z eqn:Hb;
      simpl; lia.
  - intros lib os st st' cfg Hf.
    apply ForServer_pools in Hf as (_ & _ & _ & _ & Hauth & _).
    simpl in Hauth. rewrite Hauth. auto.
Qed.

Lemma nth_tcaName (n : nat) :
  (n < 5)%nat ->
  nth n tcaName "" = match n with
                     | 0 => "none" | 1 => "request" | 2 => "require"
                     | 3 => "verify" | _ => "requireverify"
                     end.
Proof. intros H. do 5 (destruct n as [|n]; [reflexivity|]). lia. Qed.

(** X2. [TLSClientAuth.String] prints the level [AuthType] yields: values
    outside [0..4] print as [none], and the names of the five levels are
    pairwise different, so two values print alike exactly when [AuthType]
    maps them to the same level. *)
Theorem TLSClientAuth_String_follows_AuthType :
  forall a b : TLSClientAuth,
    TLSClientAuth_String a = TLSClientAuth_String (AuthType a) /\
    (~ (0 <= a <= 4)%Z -> TLSClientAuth_String a = "none") /\
    (TLSClientAuth_String a = TLSClientAuth_String b <-> AuthType a = AuthType b).
Proof.
  assert (Hs : forall a, TLSClientAuth_String a = nth (Z.to_nat (AuthType a)) tcaName "").
  { intros a. unfold TLSClientAuth_String, AuthType.
    change (Z.of_nat (length tcaName)) with 5%Z.
    destruct (a <? 0)%Z eqn:Ha; destruct (4 <? a)%Z eqn:Hb;
      destruct (5 <=? a)%Z eqn:Hc; simpl; try reflexivity; lia. }
  assert (Hr : forall a, (0 <= AuthType a <= 4)%Z).
  { intros a. unfold AuthType.
    destruct (a <? 0)%Z eqn:Ha; destruct (4 <? a)%Z eqn:Hb; simpl; lia. }
  assert (Hidem : forall a, AuthType (AuthType a) = AuthType a).
  { intros a. pose proof (Hr a). unfold AuthType at 1.
    destruct (AuthType a <? 0)%Z eqn:Ha; destruct (4 <? AuthType a)%Z eqn:Hb;
      simpl; lia. }
  intros a b. split_and!.
  - now rewrite (Hs a), (Hs (AuthType a)), Hidem.
  - intros H. rewrite Hs. unfold AuthType.
    destruct (a <? 0)%Z eqn:Ha; destruct (4 <? a)%Z eqn:Hb; simpl; try reflexivity; lia.
  - rewrite (Hs a), (Hs b). pose proof (Hr a) as Ha. pose proof (Hr b) as Hb.
    split; [|intros ->; reflexivity].
    intros H. apply Z2Nat.inj; try lia.
    assert (Hna : (Z.to_nat (AuthType a) < 5)%nat) by lia.
    assert (Hnb : (Z.to_nat (AuthType b) < 5)%nat) by lia.
    rewrite (nth_tcaName _ Hna), (nth_tcaName _ Hnb) in H.
    destruct (Z.to_nat (AuthType a)) as [|[|[|[|[|n]]]]];
      destruct (Z.to_nat (AuthType b)) as [|[|[|[|[|m]]]]];
      try reflexivity; try discriminate; lia.
Qed.

(** ** Protocols *)

Lemma Protocol_String_cases proto :
  Protocol.String_ proto =
    if (proto =? 1)%Z then "REST" else if (proto =? 2)%Z then "MQTT" else "NONE".
Proof.
  unfold Protocol.String_. change (Z.of_nat (length Protocol.protoName)) with 3%Z.
  destruct (proto <? 0)%Z eqn:Ha; destruct (3 <=? proto)%Z eqn:Hb; simpl.
  - destruct (proto =? 1)%Z eqn:H1; [lia|]. destruct (proto =? 2)%Z eqn:H2; [lia|]. reflexivity.
  - destruct (proto =? 1)%Z eqn:H1; [lia|]. destruct (proto =? 2)%Z eqn:H2; [lia|]. reflexivity.
  - destruct (proto =? 1)%Z eqn:H1; [lia|]. destruct (proto =? 2)%Z eqn:H2; [lia|]. reflexivity.
  - assert (proto = 0 \/ proto = 1 \/ proto = 2)%Z as [->|[->| ->]] by lia; reflexivity.
Qed.

Lemma Protocol_IsValid_iff proto :
  Protocol.IsValid proto = true <-> proto = Protocol.ProtoREST \/ proto = Protocol.ProtoMQTT.
Proof.
  unfold Protocol.IsValid, Protocol.ProtoREST, Protocol.ProtoMQTT.
  rewrite Protocol_String_cases.
  destruct (proto =? 1)%Z eqn:H1; [simpl; split; [intros _; left; lia | reflexivity]|].
  destruct (proto =? 2)%Z eqn:H2; [simpl; split; [intros _; right; lia | reflexivity]|].
  simpl. split; [discriminate | lia].
Qed.

(** X3. [ParseProto] undoes [String] on the valid protocols, and gives
    [ProtoNone] on the name of any other value. It only ever returns
    [ProtoNone], [ProtoREST] or [ProtoMQTT]; on an ASCII string it returns a
    valid protocol exactly when the string is [REST] or [MQTT] in any case.
    The valid protocols are [ProtoREST] and [ProtoMQTT]. *)
Theorem ParseProto_inverts_String :
  forall strings_ToUpper,
    ToUpper_on_ascii strings_ToUpper ->
    (forall proto,
        Protocol.IsValid proto = true <->
        proto = Protocol.ProtoREST \/ proto = Protocol.ProtoMQTT) /\
    (forall proto,
        Protocol.ParseProto strings_ToUpper (Protocol.String_ proto)
        = if Protocol.IsValid proto then proto else Protocol.ProtoNone) /\
    (forall s,
        Protocol.ParseProto strings_ToUpper s = Protocol.ProtoNone \/
        Protocol.ParseProto strings_ToUpper s = Protocol.ProtoREST \/
        Protocol.ParseProto strings_ToUpper s = Protocol.ProtoMQTT) /\
    (forall s,
        ascii_only s ->
        (Protocol.IsValid (Protocol.ParseProto strings_ToUpper s) = true <->
         upper_string s = "REST" \/ upper_string s = "MQTT") /\
        (upper_string s = "REST" ->
         Protocol.ParseProto strings_ToUpper s = Protocol.ProtoREST) /\
        (upper_string s = "MQTT" ->
         Protocol.ParseProto strings_ToUpper s = Protocol.ProtoMQTT)).
Proof.
  intros up Hup. split; [exact Protocol_IsValid_iff|]. split; [|split].
  - intros proto. unfold Protocol.ParseProto, Protocol.IsValid.
    rewrite Protocol_String_cases.
    destruct (proto =? 1)%Z eqn:H1.
    { rewrite (Hup "REST") by (repeat split; cbv; lia). simpl.
      unfold Protocol.ProtoREST. lia. }
    destruct (proto =? 2)%Z eqn:H2.
    { rewrite (Hup "MQTT") by (repeat split; cbv; lia). simpl.
      unfold Protocol.ProtoMQTT. lia. }
    rewrite (Hup "NONE") by (repeat split; cbv; lia). reflexivity.
  - intros s. unfold Protocol.ParseProto.
    destruct (String.eqb (up s) "REST"); [auto|].
    destruct (String.eqb (up s) "MQTT"); auto.
  - intros s Hs. unfold Protocol.ParseProto. rewrite (Hup s Hs).
    destruct (String.eqb (upper_string s) "REST") eqn:H1.
    { apply String.eqb_eq in H1. split_and!; auto.
      - split; [auto | reflexivity].
      - rewrite H1. discriminate. }
    destruct (String.eqb (upper_string s) "MQTT") eqn:H2.
    { apply String.eqb_eq in H2. split_and!; auto.
      - split; [auto | reflexivity].
      - rewrite H2. discriminate. }
    apply String.eqb_neq in H1, H2. split_and!.
    + split; [discriminate | intros [H|H]; contradiction].
    + intros H; contradiction.
    + intros H; contradiction.
Qed.

Lemma upper_string_ToUpper_on_ascii : ToUpper_on_ascii upper_string.
Proof. intros s _. reflexivity. Defined.

(** [rest], [Mqtt] and [http] parsed with the ASCII upper-casing. *)
Lemma ParseProto_inverts_String_witness :
  Protocol.ParseProto upper_string "rest" = Protocol.ProtoREST /\
  Protocol.ParseProto upper_string "Mqtt" = Protocol.ProtoMQTT /\
  Protocol.IsValid (Protocol.ParseProto upper_string "http") = false /\
  Protocol.ParseProto upper_string (Protocol.String_ Protocol.ProtoMQTT)
    = Protocol.ProtoMQTT.
Proof.
  destruct (ParseProto_inverts_String upper_string upper_string_ToUpper_on_ascii)
    as (_ & Hround & _ & Hparse).
  split; [|split; [|split]].
  - apply (Hparse "rest"); [repeat split; cbv; lia | reflexivity].
  - apply (Hparse "Mqtt"); [repeat split; cbv; lia | reflexivity].
  - reflexivity.
  - exact (Hround Protocol.ProtoMQTT).
Defined.

(** X4. [Protocol.Listener] returns an error exactly for the protocols
    that are not valid. For [ProtoREST] it returns a REST listener. For
    [ProtoMQTT], which is valid, it returns no listener and no error: the
    caller gets a nil [Listener]. *)
Theorem Protocol_Listener_cases :
  forall proto,
    ((exists e, Protocol.Listener proto = Err e) <-> Protocol.IsValid proto = false) /\
    (Protocol.Listener proto = Ok (Some Protocol.rest_Listener)
     <-> proto = Protocol.ProtoREST) /\
    (Protocol.Listener proto = Ok None <-> proto = Protocol.ProtoMQTT).
Proof.
  intros proto. unfold Protocol.Listener.
  destruct (Protocol.IsValid proto) eqn:Hv; simpl.
  - apply Protocol_IsValid_iff in Hv.
    unfold Protocol.ProtoREST, Protocol.ProtoMQTT in *.
    destruct Hv as [-> | ->]; simpl; split_and!;
      (split; [try discriminate; try (intros [e He]; discriminate); auto
              | try discriminate; auto]).
  - assert (Hn : ~ (proto = Protocol.ProtoREST \/ proto = Protocol.ProtoMQTT)).
    { intros H. apply Protocol_IsValid_iff in H. congruence. }
    split_and!.
    + split; [reflexivity | eauto].
    + split; [discriminate | intros H; exfalso; auto].
    + split; [discriminate | intros H; exfalso; auto].
Qed.

(** ** Strings *)

Lemma append_nil_l (b : string) : "" +:+ b = b.
Proof. reflexivity. Qed.

Lemma append_cons_l (c : ascii) (a b : string) :
  String c a +:+ b = String c (a +:+ b).
Proof. reflexivity. Qed.

Ltac unfold_append := rewrite ?append_nil_l, ?append_cons_l.

Lemma length_append (a b : string) :
  String.length (a +:+ b) = (String.length a + String.length b)%nat.
Proof.
  induction a as [|c a IH]; unfold_append; simpl; [reflexivity | now rewrite IH].
Qed.

Lemma append_assoc (a b c : string) : (a +:+ b) +:+ c = a +:+ (b +:+ c).
Proof.
  induction a as [|x a IH]; unfold_append; [reflexivity | now rewrite IH].
Qed.

Lemma append_empty_r (a : string) : a +:+ "" = a.
Proof.
  induction a as [|x a IH]; unfold_append; [reflexivity | now rewrite IH].
Qed.

Lemma substring_0_0 (s : string) : substring 0 0 s = "".
Proof. now destruct s. Qed.

Lemma substring_all (s : string) : substring 0 (String.length s) s = s.
Proof. induction s as [|c s IH]; simpl; [reflexivity | now rewrite IH]. Qed.

Lemma substring_append_l (a b : string) :
  substring 0 (String.length a) (a +:+ b) = a.
Proof.
  induction a as [|c a IH]; unfold_append; simpl;
    [apply substring_0_0 | now rewrite IH].
Qed.

Lemma substring_append_r (a b : string) :
  substring (String.length a) (String.length b) (a +:+ b) = b.
Proof.
  induction a as [|c a IH]; unfold_append; simpl; [apply substring_all | exact IH].
Qed.

Lemma substring_split (s : string) :
  forall k, (k <= String.length s)%nat ->
    s = substring 0 k s +:+ substring k (String.length s - k) s.
Proof.
  induction s as [|c s IH]; intros k Hk; simpl in *.
  - destruct k; reflexivity.
  - destruct k as [|k]; simpl; unfold_append.
    + now rewrite substring_all.
    + rewrite <- IH by lia. reflexivity.
Qed.

Lemma HasSuffix_append (a suffix : string) :
  strings_HasSuffix (a +:+ suffix) suffix = true.
Proof.
  unfold strings_HasSuffix. rewrite length_append.
  replace (String.length a + String.length suffix - String.length suffix)%nat
    with (String.length a) by lia.
  rewrite substring_append_r, String.eqb_refl, andb_true_r.
  apply Nat.leb_le. lia.
Qed.

Lemma HasSuffix_inv (s suffix : string) :
  strings_HasSuffix s suffix = true -> exists a, s = a +:+ suffix.
Proof.
  unfold strings_HasSuffix. intros H. apply andb_true_iff in H as [Hl He].
  apply Nat.leb_le in Hl. apply String.eqb_eq in He.
  exists (substring 0 (String.length s - String.length suffix) s).
  remember (String.length suffix) as m eqn:Hm. rewrite <- He.
  pose proof (substring_split s (String.length s - m) ltac:(lia)) as Hsplit.
  replace (String.length s - (String.length s - m))%nat with m in Hsplit by lia.
  exact Hsplit.
Qed.

Lemma TrimSuffix_append (a suffix : string) :
  strings_TrimSuffix (a +:+ suffix) suffix = a.
Proof.
  unfold strings_TrimSuffix. rewrite HasSuffix_append, length_append.
  replace (String.length a + String.length suffix - String.length suffix)%nat
    with (String.length a) by lia.
  apply substring_append_l.
Qed.

Lemma HasPrefix_slash (s : string) :
  strings_HasPrefix s "/" = match s with
                            | String c _ => Ascii.eqb c "/"%char
                            | EmptyString => false
                            end.
Proof.
  unfold strings_HasPrefix. destruct s as [|c s]; [reflexivity|]. simpl.
  rewrite substring_0_0. now destruct (Ascii.eqb c "/").
Qed.

Lemma HasSuffix_cons (c : ascii) (s : string) :
  s <> "" -> strings_HasSuffix (String c s) "/" = strings_HasSuffix s "/".
Proof.
  intros Hs. destruct (strings_HasSuffix s "/") eqn:H.
  - apply HasSuffix_inv in H as [a ->].
    change (String c (a +:+ "/")) with (String c a +:+ "/"). apply HasSuffix_append.
  - destruct (strings_HasSuffix (String c s) "/") eqn:H'; [|reflexivity].
    apply HasSuffix_inv in H' as [a Ha]. destruct a as [|x a]; simpl in Ha.
    + injection Ha as -> ->. contradiction.
    + injection Ha as -> ->. now rewrite HasSuffix_append in H.
Qed.

(** ** Listeners *)

Section ListenersProperties.
Context {W : Type}.
Implicit Types ls : list (Listeners.Listener W).

Lemma String_loop_append ls :
  forall str,
    Listeners.String_loop ls str
    = str +:+ String.concat "" (map (fun l => Listeners.Name l +:+ ", ") ls).
Proof.
  induction ls as [|l ls IH]; intros str; simpl.
  - now rewrite append_empty_r.
  - rewrite IH. destruct ls as [|l' ls]; simpl.
    + now rewrite append_empty_r.
    + now rewrite !append_assoc.
Qed.

Lemma concat_trailing l ls :
  String.concat "" (map (fun l => Listeners.Name l +:+ ", ") (l :: ls))
  = String.concat ", " (map Listeners.Name (l :: ls)) +:+ ", ".
Proof.
  revert l. induction ls as [|l' ls IH]; intros l.
  - reflexivity.
  - change (String.concat "" (map (fun l => Listeners.Name l +:+ ", ") (l :: l' :: ls)))
      with ((Listeners.Name l +:+ ", ") +:+ ("" +:+
            String.concat "" (map (fun l => Listeners.Name l +:+ ", ") (l' :: ls)))).
    change (String.concat ", " (map Listeners.Name (l :: l' :: ls)))
      with (Listeners.Name l +:+ (", " +:+
            String.concat ", " (map Listeners.Name (l' :: ls)))).
    rewrite IH. simpl. now rewrite !append_assoc.
Qed.

End ListenersProperties.

(** X5. [Listeners.String] of a non-empty list is the fixed prefix
    followed by the names of the listeners in order, separated by a comma
    and a space, with nothing after the last name; of the empty list it is
    the fixed message. Adding a listener puts its name last. *)
Theorem Listeners_String_joins_names :
  forall (W : Type) (ls : list (Listeners.Listener W)) (l : Listeners.Listener W),
    Listeners.String_ (@nil (Listeners.Listener W)) = "no listeners configured" /\
    Listeners.String_ (l :: ls)
    = "configured listeners - "
      +:+ String.concat ", " (map Listeners.Name (l :: ls)) /\
    Listeners.String_ (fst (Listeners.Add ls l))
    = "configured listeners - "
      +:+ String.concat ", " (map Listeners.Name ls ++ [Listeners.Name l]).
Proof.
  intros W ls l.
  assert (Hne : forall l0 ls0,
             Listeners.String_ (l0 :: ls0)
             = "configured listeners - "
               +:+ String.concat ", " (map (@Listeners.Name W) (l0 :: ls0))).
  { intros l0 ls0. unfold Listeners.String_.
    rewrite String_loop_append, concat_trailing, <- append_assoc.
    rewrite length_append. simpl String.length at 2.
    match goal with
    | |- substring 0 (?n + 2 - 2) ?s = ?r =>
        replace (n + 2 - 2)%nat with n by lia
    end.
    apply substring_append_l. }
  split; [reflexivity|]. split; [apply Hne|].
  unfold Listeners.Add. cbn [fst]. destruct ls as [|l0 ls].
  - apply (Hne l []).
  - change ((l0 :: ls) ++ [l]) with (l0 :: (ls ++ [l])).
    rewrite (Hne l0 (ls ++ [l])).
    change (l0 :: (ls ++ [l])) with ((l0 :: ls) ++ [l]).
    now rewrite map_app.
Qed.

(** X6. [StartAll] starts the listeners in order and stops at the first
    whose [Start] returns an error: it returns that error wrapped, the
    listeners after it are not started, and what the earlier ones did
    stays done. When the first listeners have started without error it
    goes on with the others from where those left things. *)
Theorem StartAll_stops_at_first_error :
  forall (W : Type) (ls : list (Listeners.Listener W)) (w : W),
    (forall w' err,
        Listeners.StartAll ls w = (w', Some err) ->
        exists pre l post w0 cause,
          ls = pre ++ l :: post /\
          Listeners.StartAll pre w = (w0, None) /\
          Listeners.Start l w0 = (w', Some cause) /\
          err = Errorf_w "listeners startall: %w" [] cause) /\
    (forall pre post w0,
        ls = pre ++ post ->
        Listeners.StartAll pre w = (w0, None) ->
        Listeners.StartAll ls w = Listeners.StartAll post w0).
Proof.
  intros W ls. induction ls as [|l ls IH]; intros w; split.
  - simpl. discriminate.
  - intros pre post w0 Hls. destruct pre; [|discriminate]. simpl in *. subst.
    now intros [= ->].
  - simpl. intros w' err.
    destruct (Listeners.Start l w) as [w1 [e|]] eqn:Hs.
    + intros [= <- <-]. exists [], l, ls, w, e. auto.
    + intros H. destruct (proj1 (IH w1) _ _ H)
        as (pre & l' & post & w0 & cause & -> & Hpre & Hl & ->).
      exists (l :: pre), l', post, w0, cause. simpl. rewrite Hs. auto.
  - intros pre post w0 Hls. destruct pre as [|p pre]; simpl in *.
    + subst. now intros [= ->].
    + injection Hls as <- ->. destruct (Listeners.Start l w) as [w1 [e|]] eqn:Hs;
        [discriminate|].
      intros Hpre. exact (proj2 (IH w1) pre post w0 eq_refl Hpre).
Qed.

(** ** Base patterns and handlers of package [rest] *)

Lemma TrimSuffix_no_suffix (s suffix : string) :
  strings_HasSuffix s suffix = false -> strings_TrimSuffix s suffix = s.
Proof. unfold strings_TrimSuffix. now intros ->. Qed.

Lemma HasSuffix_slash_empty : strings_HasSuffix "" "/" = false.
Proof. reflexivity. Qed.

(** X7. [formatBase] returns the empty string for [""] and ["/"] and for
    no other input, and otherwise a string that begins with a slash. It
    drops one trailing slash: for a non-empty [s] that does not end in a
    slash, [s] and [s/] have the same base, that base does not end in a
    slash and is a fixed point; and a [s] that begins with a slash and
    does not end in one is its own base. Only one slash is dropped: the
    base of [s//] still ends in a slash. *)
Theorem formatBase_shape :
  forall s : string,
    (rest.formatBase s = "" <-> s = "" \/ s = "/") /\
    (rest.formatBase s <> "" -> strings_HasPrefix (rest.formatBase s) "/" = true) /\
    (s <> "" -> strings_HasSuffix s "/" = false ->
     rest.formatBase (s +:+ "/") = rest.formatBase s /\
     rest.formatBase s
       = (if strings_HasPrefix s "/" then s else "/" +:+ s) /\
     strings_HasSuffix (rest.formatBase s) "/" = false /\
     rest.formatBase (rest.formatBase s) = rest.formatBase s) /\
    (s <> "" ->
     strings_HasSuffix (rest.formatBase (s +:+ "//")) "/" = true).
Proof.
  intros s.
  assert (Hpre : forall t, t <> "" ->
            strings_HasPrefix (t +:+ "/") "/" = strings_HasPrefix t "/").
  { intros t Ht. rewrite !HasPrefix_slash. destruct t; [contradiction|reflexivity]. }
  assert (Hclosed : forall t, t <> "" -> strings_HasSuffix t "/" = false ->
            rest.formatBase t = (if strings_HasPrefix t "/" then t else "/" +:+ t)).
  { intros t Ht Hsuf. unfold rest.formatBase.
    destruct (strings_HasPrefix t "/"); simpl.
    - now apply TrimSuffix_no_suffix.
    - apply TrimSuffix_no_suffix.
      change ("/" +:+ t) with (String "/" t). now rewrite HasSuffix_cons. }
  assert (Hslash : forall t, t <> "" ->
            rest.formatBase (t +:+ "/")
            = (if strings_HasPrefix t "/" then t else "/" +:+ t)).
  { intros t Ht. unfold rest.formatBase. rewrite (Hpre t Ht).
    destruct (strings_HasPrefix t "/"); simpl.
    - apply TrimSuffix_append.
    - rewrite <- append_assoc. apply TrimSuffix_append. }
  split; [|split; [|split]].
  - split.
    + intros H. destruct s as [|c s]; [now left|]. right.
      destruct (strings_HasSuffix (String c s) "/") eqn:Hsuf.
      * apply HasSuffix_inv in Hsuf as [a Ha]. rewrite Ha in *.
        destruct a as [|x a]; [reflexivity|].
        rewrite Hslash in H by discriminate.
        destruct (strings_HasPrefix (String x a) "/"); discriminate.
      * rewrite Hclosed in H by (auto; discriminate).
        destruct (strings_HasPrefix (String c s) "/"); discriminate.
    + intros [-> | ->]; reflexivity.
  - intros Hne. destruct s as [|c s]; [now contradiction Hne|].
    destruct (strings_HasSuffix (String c s) "/") eqn:Hsuf.
    + apply HasSuffix_inv in Hsuf as [a Ha]. rewrite Ha in *.
      destruct a as [|x a]; [now contradiction Hne|].
      rewrite Hslash by discriminate.
      destruct (strings_HasPrefix (String x a) "/") eqn:Hp; [exact Hp | reflexivity].
    + rewrite Hclosed by (auto; discriminate).
      destruct (strings_HasPrefix (String c s) "/") eqn:Hp; [exact Hp | reflexivity].
  - intros Hne Hsuf. rewrite (Hslash s Hne), (Hclosed s Hne Hsuf).
    split; [reflexivity|]. split; [reflexivity|].
    destruct (strings_HasPrefix s "/") eqn:Hp.
    + split; [exact Hsuf|]. rewrite (Hclosed s Hne Hsuf), Hp. reflexivity.
    + assert (Hs' : strings_HasSuffix ("/" +:+ s) "/" = false).
      { change ("/" +:+ s) with (String "/" s). now rewrite HasSuffix_cons. }
      split; [exact Hs'|]. rewrite Hclosed; [|discriminate|exact Hs'].
      change ("/" +:+ s) with (String "/" s). now rewrite HasPrefix_slash.
  - intros Hne.
    replace (s +:+ "//") with ((s +:+ "/") +:+ "/") by (now rewrite append_assoc).
    rewrite Hslash by (destruct s; discriminate).
    destruct (strings_HasPrefix (s +:+ "/") "/").
    + apply HasSuffix_append.
    + rewrite <- append_assoc. apply HasSuffix_append.
Qed.

(** The bases of some patterns. *)
Lemma formatBase_shape_witness :
  rest.formatBase "api" = "/api" /\
  rest.formatBase "api/" = "/api" /\
  rest.formatBase "/api/v1/" = "/api/v1" /\
  rest.formatBase (rest.formatBase "api") = rest.formatBase "api" /\
  strings_HasSuffix (rest.formatBase "api//") "/" = true.
Proof.
  destruct (formatBase_shape "api") as (_ & _ & H3 & H4).
  destruct (H3 ltac:(discriminate) eq_refl) as (Ha & Hb & _ & Hd).
  split; [exact Hb|]. split; [exact Ha|]. split; [reflexivity|].
  split; [exact Hd|]. exact (H4 ltac:(discriminate)).
Defined.

Lemma Method_String_cases (method : rest.Method) :
  rest.Method_String method
  = if (method <? 1)%Z || (8 <? method)%Z then "UNKNOWN"
    else nth (Z.to_nat method) rest.methodName "".
Proof.
  unfold rest.Method_String. change (Z.of_nat (length rest.methodName)) with 9%Z.
  destruct (method <? 0)%Z eqn:Ha; destruct (9 <=? method)%Z eqn:Hb;
    destruct (method <? 1)%Z eqn:Hc; destruct (8 <? method)%Z eqn:Hd;
    simpl; try reflexivity; try lia.
  assert (method = 0%Z) as -> by lia. reflexivity.
Qed.

Lemma Method_String_unknown (method : rest.Method) :
  rest.Method_String method = "UNKNOWN" <-> ~ (1 <= method <= 8)%Z.
Proof.
  rewrite Method_String_cases.
  destruct (method <? 1)%Z eqn:Hc; destruct (8 <? method)%Z eqn:Hd; simpl;
    try (split; [intros _; lia | reflexivity]).
  split; [|lia]. intros H. exfalso.
  assert (Hn : (1 <= Z.to_nat method <= 8)%nat) by lia.
  destruct (Z.to_nat method) as [|[|[|[|[|[|[|[|[|n]]]]]]]]];
    try discriminate; lia.
Qed.

(** X8. [Handler.Set] returns an error of its own exactly when the method
    is not one of the eight verbs, [MethodUnknown] and every value above
    [MethodConnect] included, or the pattern is empty; the router is then
    left as it was and chi is not called. Otherwise it hands the route to
    chi under the name of the method, and what happens is what chi does:
    it returns nil when chi registers the route and panics when chi
    panics, as chi does for a pattern that does not begin with a slash.
    [Group.Set] does the same and wraps the error. *)
Theorem Handler_Set_validates :
  forall (Mux HandlerFunc Middleware : Type)
         (MethodFunc :
            Mux -> list Middleware -> string -> string -> HandlerFunc -> outcome Mux)
         (h : Mux) (method : rest.Method) (pattern : string) (hFn : HandlerFunc)
         (middlewares : list Middleware),
    ((exists err,
         rest.Handler_Set MethodFunc h method pattern hFn middlewares
         = Return (h, Some err))
     <-> ~ (1 <= method <= 8)%Z \/ pattern = "") /\
    (forall h' err,
        rest.Handler_Set MethodFunc h method pattern hFn middlewares
        = Return (h', Some err) ->
        h' = h) /\
    ((1 <= method <= 8)%Z -> pattern <> "" ->
     rest.Handler_Set MethodFunc h method pattern hFn middlewares
     = match MethodFunc h middlewares (nth (Z.to_nat method) rest.methodName "")
               pattern hFn with
       | Panic e => Panic e
       | Return h' => Return (h', None)
       end) /\
    rest.Group_Set MethodFunc h method pattern hFn middlewares
    = match rest.Handler_Set MethodFunc h method pattern hFn middlewares with
      | Panic e => Panic e
      | Return (g', err) => Return (g', option_map (Errorf_w "groupset: %w" []) err)
      end /\
    (rest.chi_pattern_law MethodFunc ->
     (1 <= method <= 8)%Z -> pattern <> "" ->
     strings_HasPrefix pattern "/" = false ->
     panics (rest.Handler_Set MethodFunc h method pattern hFn middlewares) /\
     panics (rest.Group_Set MethodFunc h method pattern hFn middlewares)).
Proof.
  intros Mux HandlerFunc Middleware MethodFunc h method pattern hFn middlewares.
  assert (Hlen : forall p, (String.length p =? 0)%nat = true <-> p = "").
  { intros p. rewrite Nat.eqb_eq. destruct p; simpl; split; try discriminate; auto. }
  assert (Hvalid : (1 <= method <= 8)%Z -> pattern <> "" ->
            rest.Handler_Set MethodFunc h method pattern hFn middlewares
            = match MethodFunc h middlewares (nth (Z.to_nat method) rest.methodName "")
                      pattern hFn with
              | Panic e => Panic e
              | Return h' => Return (h', None)
              end).
  { intros Hr Hne. unfold rest.Handler_Set.
    destruct (String.eqb (rest.Method_String method) "UNKNOWN") eqn:Hm.
    { apply String.eqb_eq, Method_String_unknown in Hm. contradiction. }
    destruct (String.length pattern =? 0)%nat eqn:Hp.
    { apply Hlen in Hp. contradiction. }
    rewrite Method_String_cases.
    destruct (method <? 1)%Z eqn:Hc; destruct (8 <? method)%Z eqn:Hd;
      simpl; try lia. reflexivity. }
  assert (Hinvalid : ~ (1 <= method <= 8)%Z \/ pattern = "" ->
            exists err,
              rest.Handler_Set MethodFunc h method pattern hFn middlewares
              = Return (h, Some err)).
  { intros H. unfold rest.Handler_Set.
    destruct (String.eqb (rest.Method_String method) "UNKNOWN") eqn:Hm; [eauto|].
    destruct (String.length pattern =? 0)%nat eqn:Hp; [eauto|].
    exfalso. destruct H as [H|H].
    - apply String.eqb_neq in Hm. apply Hm. now apply Method_String_unknown.
    - apply Hlen in H. congruence. }
  assert (Hgroup : rest.Group_Set MethodFunc h method pattern hFn middlewares
            = match rest.Handler_Set MethodFunc h method pattern hFn middlewares with
              | Panic e => Panic e
              | Return (g', err) =>
                  Return (g', option_map (Errorf_w "groupset: %w" []) err)
              end).
  { unfold rest.Group_Set.
    destruct (rest.Handler_Set MethodFunc h method pattern hFn middlewares)
      as [[g' [e|]]|e]; reflexivity. }
  split; [|split; [|split; [|split]]].
  - split; [|exact Hinvalid]. intros [err He].
    destruct (decide (1 <= method <= 8)%Z) as [Hr|Hr]; [|auto].
    destruct (decide (pattern = "")) as [Hp|Hp]; [auto|].
    rewrite (Hvalid Hr Hp) in He.
    destruct (MethodFunc _ _ _ _ _); discriminate.
  - intros h' err He.
    destruct (decide (1 <= method <= 8)%Z) as [Hr|Hr];
      [destruct (decide (pattern = "")) as [Hp|Hp]|].
    + destruct (Hinvalid (or_intror Hp)) as [err' He']. congruence.
    + rewrite (Hvalid Hr Hp) in He. destruct (MethodFunc _ _ _ _ _); discriminate.
    + destruct (Hinvalid (or_introl Hr)) as [err' He']. congruence.
  - exact Hvalid.
  - exact Hgroup.
  - intros Hchi Hr Hp Hpre.
    destruct (Hchi h middlewares (nth (Z.to_nat method) rest.methodName "") pattern hFn Hpre)
      as [e He].
    assert (Hh : rest.Handler_Set MethodFunc h method pattern hFn middlewares = Panic e)
      by (rewrite (Hvalid Hr Hp), He; reflexivity).
    split; [exists e; exact Hh|]. exists e. now rewrite Hgroup, Hh.
Qed.

(** On a router that tests the pattern as chi does: the pattern [x]
    panics, [/x] is registered under GET, and [MethodUnknown] is refused
    with an error. *)
Lemma Handler_Set_validates_witness :
  rest.chi_pattern_law rest.demo_MethodFunc /\
  panics (rest.Handler_Set rest.demo_MethodFunc [] rest.MethodGet "x" tt []) /\
  rest.Handler_Set rest.demo_MethodFunc [] rest.MethodGet "/x" tt []
    = Return ([("GET", "/x")], None) /\
  (exists err,
      rest.Handler_Set rest.demo_MethodFunc [] rest.MethodUnknown "/x" tt []
      = Return ([], Some err)).
Proof.
  assert (Hchi : rest.chi_pattern_law rest.demo_MethodFunc).
  { intros mux middlewares method pattern hFn Hp. unfold rest.demo_MethodFunc.
    rewrite Hp. eauto. }
  split; [exact Hchi|].
  destruct (Handler_Set_validates _ _ _ rest.demo_MethodFunc [] rest.MethodGet "x" tt [])
    as (_ & _ & _ & _ & Hpanic).
  split; [apply Hpanic; [exact Hchi | unfold rest.MethodGet; lia | discriminate | reflexivity]|].
  split; [reflexivity|].
  apply (proj1 (Handler_Set_validates _ _ _ rest.demo_MethodFunc []
                  rest.MethodUnknown "/x" tt [])).
  left. unfold rest.MethodUnknown. lia.
Defined.

(** ** The trust pool over time *)

Lemma AddCert_elem s c x : x ∈ AddCert s c <-> x ∈ s \/ x = c.
Proof.
  unfold AddCert. destruct (decide (c ∈ s)) as [Hc|Hc].
  - split; [auto | intros [H| ->]; auto].
  - rewrite elem_of_app, list_elem_of_singleton. tauto.
Qed.

Lemma AddCert_present s c : c ∈ s -> AddCert s c = s.
Proof. intros H. unfold AddCert. now rewrite decide_True. Qed.

Lemma AddCABytes_loop_grows lib fuel :
  forall pemData s s' err,
    TLSConfigBuilder.AddCABytes_loop lib fuel pemData s = Some (s', err) ->
    forall x, x ∈ s -> x ∈ s'.
Proof.
  induction fuel as [|fuel IH]; intros pemData s s' err; simpl; [discriminate|].
  destruct (pem_Decode lib pemData) as [[block rest]|].
  - destruct (negb (String.eqb (Type__ block) "CERTIFICATE")).
    + apply IH.
    + destruct (x509_ParseCertificate lib (Bytes block)) as [c|e].
      * intros H x Hx. eapply IH; [exact H|]. apply AddCert_elem. auto.
      * intros [= <- <-]. auto.
  - intros [= <- <-]. auto.
Qed.

(** Running the loop again on a pool that holds what the first run left
    changes nothing and ends the same way. *)
Lemma AddCABytes_loop_again lib fuel :
  forall pemData s s' err,
    TLSConfigBuilder.AddCABytes_loop lib fuel pemData s = Some (s', err) ->
    forall t, (forall x, x ∈ s' -> x ∈ t) ->
              TLSConfigBuilder.AddCABytes_loop lib fuel pemData t = Some (t, err).
Proof.
  induction fuel as [|fuel IH]; intros pemData s s' err; simpl; [discriminate|].
  destruct (pem_Decode lib pemData) as [[block rest]|].
  - destruct (negb (String.eqb (Type__ block) "CERTIFICATE")).
    + apply IH.
    + destruct (x509_ParseCertificate lib (Bytes block)) as [c|e].
      * intros H t Ht. rewrite AddCert_present.
        -- eapply IH; eauto.
        -- apply Ht. eapply AddCABytes_loop_grows; [exact H|].
           apply AddCert_elem. auto.
      * intros [= <- <-]. auto.
  - intros [= <- <-]. auto.
Qed.

Lemma pool_unchanged st st' :
  TLSConfigBuilder.pools st' = TLSConfigBuilder.pools st ->
  TLSConfigBuilder.ca (TLSConfigBuilder.self st')
    = TLSConfigBuilder.ca (TLSConfigBuilder.self st) ->
  TLSConfigBuilder.pool st' = TLSConfigBuilder.pool st.
Proof. unfold TLSConfigBuilder.pool. now intros -> ->. Qed.

Lemma AddCABytes_grows lib st pemData st' err :
  TLSConfigBuilder.AddCABytes lib st pemData = Some (st', err) ->
  forall x, x ∈ TLSConfigBuilder.pool st -> x ∈ TLSConfigBuilder.pool st'.
Proof.
  unfold TLSConfigBuilder.AddCABytes.
  destruct (TLSConfigBuilder.AddCABytes_loop _ _ _ _) as [[s e]|] eqn:Hl; [|discriminate].
  intros [= <- <-] x Hx. rewrite pool_with_pools.
  eapply AddCABytes_loop_grows; eauto.
Qed.

Lemma AddCAFile_grows lib os st path st' err :
  TLSConfigBuilder.AddCAFile lib os st path = Some (st', err) ->
  forall x, x ∈ TLSConfigBuilder.pool st -> x ∈ TLSConfigBuilder.pool st'.
Proof.
  unfold TLSConfigBuilder.AddCAFile.
  destruct (decide (path = "")); [now intros [= <- <-]|].
  destruct (os_ReadFile os path); [apply AddCABytes_grows | now intros [= <- <-]].
Qed.

Lemma AddCADir_loop_grows lib os dir entries :
  forall st st' err,
    TLSConfigBuilder.AddCADir_loop lib os dir entries st = Some (st', err) ->
    forall x, x ∈ TLSConfigBuilder.pool st -> x ∈ TLSConfigBuilder.pool st'.
Proof.
  induction entries as [|entry more IH]; intros st st' err; simpl.
  - now intros [= <- <-].
  - destruct (negb (IsRegular (Type_ entry))); [apply IH|].
    destruct (TLSConfigBuilder.ca_extension (Name entry)); [|apply IH].
    destruct (TLSConfigBuilder.AddCAFile lib os st _) as [[st1 [e|]]|] eqn:Hf;
      [| |discriminate].
    + intros [= <- <-]. eapply AddCAFile_grows; eauto.
    + intros H x Hx. eapply IH; [exact H|]. eapply AddCAFile_grows; eauto.
Qed.

(** X9. No call removes a certificate from the trust pool: whatever is
    in the builder's pool before a method call or a turn of a watcher
    goroutine is in it afterwards, also when the call returns an error;
    and only [AddCABytes], [AddCAFile] and [AddCADir] change the pool at
    all. *)
Theorem trust_pool_only_grows :
  forall lib c st st',
    TLSConfigBuilder.perform lib c st = Some (Return st') ->
    (forall x, x ∈ TLSConfigBuilder.pool st -> x ∈ TLSConfigBuilder.pool st') /\
    (TLSConfigBuilder.is_AddCA c = false ->
     TLSConfigBuilder.pool st' = TLSConfigBuilder.pool st).
Proof.
  intros lib c st st' Hp.
  destruct (TLSConfigBuilder.is_AddCA c) eqn:Hc.
  - split; [|discriminate].
    destruct c; try discriminate; simpl in Hp.
    + destruct (TLSConfigBuilder.AddCAFile lib os st path) as [[s e]|] eqn:Hf;
        [|discriminate]. injection Hp as <-. eapply AddCAFile_grows; eauto.
    + destruct (TLSConfigBuilder.AddCADir lib os st dir) as [[s e]|] eqn:Hf;
        [|discriminate]. injection Hp as <-. revert Hf.
      unfold TLSConfigBuilder.AddCADir.
      destruct (decide (dir = "")); [now intros [= <- <-]|].
      destruct (os_ReadDir os dir); [apply AddCADir_loop_grows | now intros [= <- <-]].
    + destruct (TLSConfigBuilder.AddCABytes lib st pemData) as [[s e]|] eqn:Hf;
        [|discriminate]. injection Hp as <-. eapply AddCABytes_grows; eauto.
  - destruct (perform_pools _ _ _ _ Hp) as (Hca & _ & Hk).
    assert (He : TLSConfigBuilder.pool st' = TLSConfigBuilder.pool st)
      by (apply pool_unchanged; auto).
    split; [|auto]. intros x Hx. now rewrite He.
Qed.

(** A CA is added, then the policy set and the builder closed: the CA is
    still there. *)
Lemma trust_pool_only_grows_witness :
  exists st1 st2 st3,
    TLSConfigBuilder.perform Demo.lib
      (TLSConfigBuilder.call_AddCABytes (Demo.pem "Ca")) Demo.builder2
      = Some (Return st1) /\
    TLSConfigBuilder.perform Demo.lib
      (TLSConfigBuilder.call_AddCABytes (Demo.pem "CbC!")) st1 = Some (Return st2) /\
    TLSConfigBuilder.perform Demo.lib TLSConfigBuilder.call_Close st2 = Some (Return st3) /\
    {| Raw := Demo.pem "a" |} ∈ TLSConfigBuilder.pool st3.
Proof.
  destruct (TLSConfigBuilder.perform Demo.lib
              (TLSConfigBuilder.call_AddCABytes (Demo.pem "Ca")) Demo.builder2)
    as [[st1|]|] eqn:H1; try (vm_compute in H1; discriminate H1).
  destruct (TLSConfigBuilder.perform Demo.lib
              (TLSConfigBuilder.call_AddCABytes (Demo.pem "CbC!")) st1)
    as [[st2|]|] eqn:H2;
    try (injection H1 as <-; vm_compute in H2; discriminate H2).
  destruct (TLSConfigBuilder.perform Demo.lib TLSConfigBuilder.call_Close st2)
    as [[st3|]|] eqn:H3;
    try (injection H1 as <-; injection H2 as <-; vm_compute in H3; discriminate H3).
  exists st1, st2, st3. split; [reflexivity|]. split; [exact H2|]. split; [exact H3|].
  apply (proj1 (trust_pool_only_grows _ _ _ _ H3)).
  apply (proj1 (trust_pool_only_grows _ _ _ _ H2)).
  injection H1 as <-. vm_compute. apply list_elem_of_here.
Defined.

(** X10. [AddCABytes] with the same buffer a second time changes nothing
    and returns what the first call returned: a certificate that is in the
    pool is not added again. *)
Theorem AddCABytes_twice :
  forall lib st pemData st1 err,
    TLSConfigBuilder.AddCABytes lib st pemData = Some (st1, err) ->
    TLSConfigBuilder.AddCABytes lib st1 pemData = Some (st1, err).
Proof.
  intros lib st pemData st1 err. unfold TLSConfigBuilder.AddCABytes.
  destruct (TLSConfigBuilder.AddCABytes_loop lib _ pemData (TLSConfigBuilder.pool st))
    as [[s e]|] eqn:Hl; [|discriminate].
  intros [= <- <-]. rewrite pool_with_pools.
  rewrite (AddCABytes_loop_again _ _ _ _ _ _ Hl s) by auto.
  unfold TLSConfigBuilder.with_pools. simpl. now rewrite insert_insert_eq.
Qed.

Lemma AddCABytes_twice_witness :
  exists st1 err,
    TLSConfigBuilder.AddCABytes Demo.lib Demo.builder0 (Demo.pem "CxCyC!") = Some (st1, err) /\
    TLSConfigBuilder.AddCABytes Demo.lib st1 (Demo.pem "CxCyC!") = Some (st1, err) /\
    TLSConfigBuilder.pool st1 = [ {| Raw := Demo.pem "x" |}; {| Raw := Demo.pem "y" |} ].
Proof.
  destruct (TLSConfigBuilder.AddCABytes Demo.lib Demo.builder0 (Demo.pem "CxCyC!"))
    as [[st1 err]|] eqn:H1; [|vm_compute in H1; discriminate H1].
  exists st1, err. split; [reflexivity|].
  split; [exact (AddCABytes_twice _ _ _ _ _ H1)|].
  vm_compute in H1. injection H1 as <- _. reflexivity.
Defined.

(** ** The credential cell over time *)

Lemma on_event_paths os st ev :
  TLSConfigBuilder.certFile (TLSConfigBuilder.self (TLSConfigBuilder.on_event os st ev))
    = TLSConfigBuilder.certFile (TLSConfigBuilder.self st) /\
  TLSConfigBuilder.keyFile (TLSConfigBuilder.self (TLSConfigBuilder.on_event os st ev))
    = TLSConfigBuilder.keyFile (TLSConfigBuilder.self st).
Proof.
  unfold TLSConfigBuilder.on_event, TLSConfigBuilder.reloadCert.
  destruct (TLSConfigBuilder.qualifies _ ev); [|auto].
  destruct (tls_LoadX509KeyPair os _ _); auto.
Qed.

Lemma on_event_cert_kept os st ev :
  is_Some (TLSConfigBuilder.cert (TLSConfigBuilder.self st)) ->
  is_Some (TLSConfigBuilder.cert
             (TLSConfigBuilder.self (TLSConfigBuilder.on_event os st ev))).
Proof.
  unfold TLSConfigBuilder.on_event, TLSConfigBuilder.reloadCert.
  destruct (TLSConfigBuilder.qualifies _ ev); [|auto].
  destruct (tls_LoadX509KeyPair os _ _); simpl; eauto.
Qed.

Lemma perform_cert_kept lib c st st' :
  TLSConfigBuilder.perform lib c st = Some (Return st') ->
  is_Some (TLSConfigBuilder.cert (TLSConfigBuilder.self st)) ->
  is_Some (TLSConfigBuilder.cert (TLSConfigBuilder.self st')).
Proof.
  destruct c; simpl.
  - intros [= <-]. auto.
  - destruct (TLSConfigBuilder.AddCAFile lib os st path) as [[s e]|] eqn:Hf;
      simpl; [|discriminate].
    intros [= <-]. apply AddCAFile_frame in Hf as (-> & _). auto.
  - destruct (TLSConfigBuilder.AddCADir lib os st dir) as [[s e]|] eqn:Hf;
      simpl; [|discriminate].
    intros [= <-]. apply AddCADir_frame in Hf as (-> & _). auto.
  - destruct (TLSConfigBuilder.AddCABytes lib st pemData) as [[s e]|] eqn:Hf;
      simpl; [|discriminate].
    intros [= <-]. apply AddCABytes_frame in Hf as (-> & _). auto.
  - intros [= <-]. unfold TLSConfigBuilder.SetCertKeyFile.
    destruct (TLSConfigBuilder.FileExists os certPath); simpl; auto.
    destruct (TLSConfigBuilder.FileExists os keyPath); simpl; auto.
  - intros [= <-]. unfold TLSConfigBuilder.SetCertKeyFromBytes.
    destruct (tls_X509KeyPair lib certPEM keyPEM); simpl; eauto.
  - intros [= <-]. auto.
  - intros H [c Hc]. rewrite (ForServer_loaded _ _ _ _ Hc) in H.
    injection H as <-. rewrite startWatcher_cert. eauto.
  - intros [= <-]. auto.
  - unfold TLSConfigBuilder.Close.
    destruct (TLSConfigBuilder.watcher (TLSConfigBuilder.self st)).
    + destruct (TLSConfigBuilder.done (TLSConfigBuilder.self st));
        intros [= <-]; simpl; auto.
    + intros [= <-]. auto.
  - unfold TLSConfigBuilder.loop_turn.
    destruct (decide (w ∈ TLSConfigBuilder.loops st)); [|discriminate].
    destruct c as [ev|err|].
    + intros [= <-]. apply on_event_cert_kept.
    + intros [= <-]. auto.
    + destruct (TLSConfigBuilder.done (TLSConfigBuilder.self st)); try discriminate.
      intros [= <-]. auto.
Qed.

Lemma ForServer_cert_or_same lib os st st' cfg :
  TLSConfigBuilder.ForServer lib os st = Return (st', cfg) ->
  is_Some (TLSConfigBuilder.cert (TLSConfigBuilder.self st')) \/ st' = st.
Proof.
  destruct (TLSConfigBuilder.cert (TLSConfigBuilder.self st)) as [c|] eqn:Hc.
  - rewrite (ForServer_loaded _ _ _ _ Hc). intros [= <- _]. left.
    rewrite startWatcher_cert, Hc. eauto.
  - destruct (decide (TLSConfigBuilder.certFile (TLSConfigBuilder.self st) = ""))
      as [Hf|Hf]; [|destruct (decide (TLSConfigBuilder.keyFile (TLSConfigBuilder.self st) = ""))
      as [Hk|Hk]].
    + rewrite ForServer_no_source by (split; auto). intros [= <- _]. auto.
    + rewrite ForServer_no_source by (split; auto). intros [= <- _]. auto.
    + rewrite ForServer_first_load by auto.
      destruct (tls_LoadX509KeyPair os _ _) as [c|e]; [|discriminate].
      intros [= <- _]. left. rewrite startWatcher_cert. simpl. eauto.
Qed.

(** X11. Nothing empties the credential cell: a builder that holds a
    credential holds one after any call or goroutine turn. And on a
    builder made by the constructor, a watcher that is set or a watcher
    goroutine that runs means that a credential is there, so every
    [ForClient] and [ForServer] configuration of it carries a
    certificate. *)
Theorem credential_once_loaded_stays :
  forall lib st,
    TLSConfigBuilder.reachable lib st ->
    (forall c st',
       TLSConfigBuilder.perform lib c st = Some (Return st') ->
       is_Some (TLSConfigBuilder.cert (TLSConfigBuilder.self st)) ->
       is_Some (TLSConfigBuilder.cert (TLSConfigBuilder.self st'))) /\
    (TLSConfigBuilder.watcher (TLSConfigBuilder.self st) <> None \/
     TLSConfigBuilder.loops st <> [] ->
     exists c,
       TLSConfigBuilder.cert (TLSConfigBuilder.self st) = Some c /\
       Certificates (TLSConfigBuilder.ForClient st) = [c] /\
       forall os, exists st' cfg,
         TLSConfigBuilder.ForServer lib os st = Return (st', cfg) /\
         Certificates cfg = [c]).
Proof.
  intros lib st Hr. split; [intros c st'; apply perform_cert_kept|].
  assert (Hinv : TLSConfigBuilder.watcher (TLSConfigBuilder.self st) <> None \/
                 TLSConfigBuilder.loops st <> [] ->
                 is_Some (TLSConfigBuilder.cert (TLSConfigBuilder.self st))).
  { induction Hr as [os useSystemCA st Hn | c st st' _ IH Hp].
    - unfold TLSConfigBuilder.NewTLSConfigBuilder in Hn.
      destruct useSystemCA; [destruct (x509_SystemCertPool os) as [[p|]|]|];
        inversion Hn; subst; simpl; intros [H|H]; congruence.
    - destruct (TLSConfigBuilder.cert (TLSConfigBuilder.self st)) as [c0|] eqn:Hc.
      + intros _. eapply perform_cert_kept; [exact Hp|]. rewrite Hc. eauto.
      + assert (Hw : TLSConfigBuilder.watcher (TLSConfigBuilder.self st) = None).
        { destruct (TLSConfigBuilder.watcher (TLSConfigBuilder.self st)) eqn:Hw;
            [|reflexivity].
          destruct IH as [x Hx]; [left; discriminate | discriminate]. }
        assert (Hl : TLSConfigBuilder.loops st = []).
        { destruct (TLSConfigBuilder.loops st) eqn:Hl; [reflexivity|].
          destruct IH as [x Hx]; [right; discriminate | discriminate]. }
        destruct (TLSConfigBuilder.is_ForServer c) eqn:Hfs.
        * destruct c; try discriminate. simpl in Hp.
          destruct (TLSConfigBuilder.ForServer lib os st) as [[s cfg]|e] eqn:Hf;
            [|discriminate].
          injection Hp as <-. apply ForServer_cert_or_same in Hf as [Hs| ->].
          -- auto.
          -- rewrite Hw, Hl. intros [H|H]; congruence.
        * destruct (perform_frame _ _ _ _ Hp) as [_ Hfr].
          destruct (Hfr Hfs) as [Hw' Hl'].
          intros [H|H]; exfalso.
          -- destruct Hw' as [Hw'|Hw']; congruence.
          -- destruct (TLSConfigBuilder.loops st') as [|w l] eqn:Hl''; [congruence|].
             specialize (Hl' w (list_elem_of_here _ _)). rewrite Hl in Hl'.
             inversion Hl'. }
  intros H. destruct (Hinv H) as [c Hc]. exists c.
  split; [exact Hc|]. split.
  - unfold TLSConfigBuilder.ForClient, TLSConfigBuilder.injectClientCert.
    now rewrite Hc.
  - intros os. rewrite (ForServer_loaded _ _ _ _ Hc). eauto.
Qed.

Lemma credential_once_loaded_stays_witness :
  TLSConfigBuilder.loops Demo.builder2 <> [] /\
  exists c,
    TLSConfigBuilder.cert (TLSConfigBuilder.self Demo.builder2) = Some c /\
    Certificates (TLSConfigBuilder.ForClient Demo.builder2) = [c].
Proof.
  assert (H : TLSConfigBuilder.loops Demo.builder2 <> []) by (vm_compute; discriminate).
  split; [exact H|].
  destruct (proj2 (credential_once_loaded_stays _ _ reachable_builder2) (or_intror H))
    as (c & Hc & Hcl & _).
  exists c. auto.
Defined.

(** ** Which events reload the credential *)

Lemma op_of_interest_bits ev :
  op_of_interest ev = true <->
  Z.land (ev_Op ev) fsnotify_Write <> 0%Z \/
  Z.land (ev_Op ev) fsnotify_Create <> 0%Z \/
  Z.land (ev_Op ev) fsnotify_Rename <> 0%Z.
Proof.
  unfold op_of_interest. rewrite negb_true_iff, Z.eqb_neq.
  rewrite !Z.land_lor_distr_r.
  split.
  - intros H.
    destruct (Z.eq_dec (Z.land (ev_Op ev) fsnotify_Write) 0%Z) as [Hw|Hw]; [|auto].
    destruct (Z.eq_dec (Z.land (ev_Op ev) fsnotify_Create) 0%Z) as [Hc|Hc]; [|auto].
    destruct (Z.eq_dec (Z.land (ev_Op ev) fsnotify_Rename) 0%Z) as [Hr|Hr]; [|auto].
    exfalso. apply H. rewrite Hw, Hc, Hr. reflexivity.
  - intros H Hz. apply Z.lor_eq_0_iff in Hz as [Hz Hr].
    apply Z.lor_eq_0_iff in Hz as [Hw Hc]. tauto.
Qed.

(** X12. The goroutine reloads on an event exactly when its operation
    has the Write, Create or Rename bit and its name is, byte for byte,
    the certificate path or the key path the builder has at that moment.
    An event whose bits are among Remove and Chmod never reloads, and an
    event that does not qualify leaves the builder as it is. The same
    holds for the goroutine of [TLS]. *)
Theorem reload_event_filter :
  forall ev,
    (forall b,
       TLSConfigBuilder.qualifies b ev = true <->
       (Z.land (ev_Op ev) fsnotify_Write <> 0%Z \/
        Z.land (ev_Op ev) fsnotify_Create <> 0%Z \/
        Z.land (ev_Op ev) fsnotify_Rename <> 0%Z) /\
       (ev_Name ev = TLSConfigBuilder.certFile b \/
        ev_Name ev = TLSConfigBuilder.keyFile b)) /\
    (forall b,
       TLS.qualifies b ev = true <->
       (Z.land (ev_Op ev) fsnotify_Write <> 0%Z \/
        Z.land (ev_Op ev) fsnotify_Create <> 0%Z \/
        Z.land (ev_Op ev) fsnotify_Rename <> 0%Z) /\
       (ev_Name ev = TLS.certFile b \/ ev_Name ev = TLS.keyFile b)) /\
    (Z.land (ev_Op ev) (Z.lor fsnotify_Remove fsnotify_Chmod) = ev_Op ev ->
     (forall b, TLSConfigBuilder.qualifies b ev = false) /\
     (forall b, TLS.qualifies b ev = false)) /\
    (forall os st,
       TLSConfigBuilder.qualifies (TLSConfigBuilder.self st) ev = false ->
       TLSConfigBuilder.on_event os st ev = st /\
       TLSConfigBuilder.deliver os ev st = st) /\
    (forall os st,
       TLS.qualifies (TLS.self st) ev = false ->
       TLS.on_event os st ev = st /\ TLS.deliver os ev st = st).
Proof.
  intros ev. split; [|split; [|split; [|split]]].
  - intros b. unfold TLSConfigBuilder.qualifies.
    rewrite andb_true_iff, orb_true_iff, !String.eqb_eq, op_of_interest_bits.
    reflexivity.
  - intros b. unfold TLS.qualifies.
    rewrite andb_true_iff, orb_true_iff, !String.eqb_eq, op_of_interest_bits.
    reflexivity.
  - intros H.
    assert (Ho : op_of_interest ev = false).
    { unfold op_of_interest. rewrite negb_false_iff, Z.eqb_eq.
      rewrite <- H, <- Z.land_assoc. apply Z.land_0_r. }
    split; intros b; [unfold TLSConfigBuilder.qualifies | unfold TLS.qualifies];
      now rewrite Ho.
  - intros os st Hq.
    assert (H1 : TLSConfigBuilder.on_event os st ev = st)
      by (unfold TLSConfigBuilder.on_event; now rewrite Hq).
    split; [exact H1|]. unfold TLSConfigBuilder.deliver.
    induction (TLSConfigBuilder.loops st) as [|w l IH]; [reflexivity|].
    simpl. now rewrite H1.
  - intros os st Hq.
    assert (H1 : TLS.on_event os st ev = st)
      by (unfold TLS.on_event; now rewrite Hq).
    split; [exact H1|]. unfold TLS.deliver.
    induction (TLS.loops st) as [|w l IH]; [reflexivity|].
    simpl. now rewrite H1.
Qed.

(** ** A reload that succeeds *)

Lemma on_event_reloads os st ev c :
  TLSConfigBuilder.qualifies (TLSConfigBuilder.self st) ev = true ->
  tls_LoadX509KeyPair os (TLSConfigBuilder.certFile (TLSConfigBuilder.self st))
    (TLSConfigBuilder.keyFile (TLSConfigBuilder.self st)) = Ok c ->
  TLSConfigBuilder.on_event os st ev
  = TLSConfigBuilder.with_self st (TLSConfigBuilder.cert_Store (TLSConfigBuilder.self st) c).
Proof.
  intros Hq Hl. unfold TLSConfigBuilder.on_event, TLSConfigBuilder.reloadCert.
  now rewrite Hq, Hl.
Qed.

Lemma fold_on_event_reloads os ev c (l : list Watcher) :
  forall st,
    l <> [] ->
    TLSConfigBuilder.qualifies (TLSConfigBuilder.self st) ev = true ->
    tls_LoadX509KeyPair os (TLSConfigBuilder.certFile (TLSConfigBuilder.self st))
      (TLSConfigBuilder.keyFile (TLSConfigBuilder.self st)) = Ok c ->
    fold_left (fun s _ => TLSConfigBuilder.on_event os s ev) l st
    = TLSConfigBuilder.with_self st
        (TLSConfigBuilder.cert_Store (TLSConfigBuilder.self st) c).
Proof.
  induction l as [|w l IH]; intros st Hne Hq Hl; [congruence|].
  simpl. rewrite (on_event_reloads _ _ _ _ Hq Hl).
  destruct l as [|w' l']; [reflexivity|].
  rewrite IH; [reflexivity | discriminate | exact Hq | exact Hl].
Qed.

(** X13. Hot reload. When an event qualifies and the pair loads from the
    paths the builder has, the goroutine puts the new credential in the
    cell and changes nothing else: no line is logged, the pool, the
    watcher and the goroutines stay. From then on [ForClient] and
    [ForServer] hand out the new credential, whatever is on disk when
    they are called. When watcher goroutines run, delivering the event
    to all of them leaves the same state as one reload. *)
Theorem hot_reload_replaces_credential :
  forall lib os st ev c,
    TLSConfigBuilder.qualifies (TLSConfigBuilder.self st) ev = true ->
    tls_LoadX509KeyPair os (TLSConfigBuilder.certFile (TLSConfigBuilder.self st))
      (TLSConfigBuilder.keyFile (TLSConfigBuilder.self st)) = Ok c ->
    let st1 := TLSConfigBuilder.on_event os st ev in
    st1 = TLSConfigBuilder.with_self st
            (TLSConfigBuilder.cert_Store (TLSConfigBuilder.self st) c) /\
    TLSConfigBuilder.cert (TLSConfigBuilder.self st1) = Some c /\
    TLSConfigBuilder.stderr st1 = TLSConfigBuilder.stderr st /\
    TLSConfigBuilder.pool st1 = TLSConfigBuilder.pool st /\
    TLSConfigBuilder.watcher (TLSConfigBuilder.self st1)
      = TLSConfigBuilder.watcher (TLSConfigBuilder.self st) /\
    TLSConfigBuilder.loops st1 = TLSConfigBuilder.loops st /\
    Certificates (TLSConfigBuilder.ForClient st1) = [c] /\
    (forall os', exists st2 cfg,
        TLSConfigBuilder.ForServer lib os' st1 = Return (st2, cfg) /\
        Certificates cfg = [c] /\
        TLSConfigBuilder.cert (TLSConfigBuilder.self st2) = Some c) /\
    (TLSConfigBuilder.loops st <> [] -> TLSConfigBuilder.deliver os ev st = st1).
Proof.
  intros lib os st ev c Hq Hl st1.
  assert (H1 : st1 = TLSConfigBuilder.with_self st
                       (TLSConfigBuilder.cert_Store (TLSConfigBuilder.self st) c))
    by (apply on_event_reloads; auto).
  split; [exact H1|]. rewrite H1.
  split; [reflexivity|]. split; [reflexivity|]. split; [reflexivity|].
  split; [reflexivity|]. split; [reflexivity|]. split; [reflexivity|]. split.
  - intros os'. rewrite (ForServer_loaded lib os' _ c) by reflexivity.
    eexists _, _. split; [reflexivity|]. split; [reflexivity|].
    now rewrite startWatcher_cert.
  - intros Hne. unfold TLSConfigBuilder.deliver.
    apply fold_on_event_reloads; auto.
Qed.

Lemma hot_reload_replaces_credential_witness :
  TLSConfigBuilder.cert
    (TLSConfigBuilder.self (TLSConfigBuilder.on_event Demo.os2 Demo.builder2 Demo.ev_cert))
  = Some Demo.cred2 /\
  TLSConfigBuilder.cert (TLSConfigBuilder.self Demo.builder2) = Some Demo.cred1.
Proof.
  split; [|reflexivity].
  apply (hot_reload_replaces_credential Demo.lib Demo.os2 Demo.builder2 Demo.ev_cert
           Demo.cred2); reflexivity.
Defined.

(** ** Paths set after the credential is loaded *)

(** X14. [SetCertKeyFile] on a builder that holds a credential and has
    its watcher running only records the paths. The next [ForServer]
    reads nothing from disk: it returns the credential of the cell and
    leaves the builder as it is, with the watcher it had, which keeps
    the directories it was given. Only an event named after one of the
    new paths reloads. *)
Theorem paths_set_after_load :
  forall lib os st certPath keyPath st1 c w,
    TLSConfigBuilder.cert (TLSConfigBuilder.self st) = Some c ->
    TLSConfigBuilder.watcher (TLSConfigBuilder.self st) = Some w ->
    TLSConfigBuilder.SetCertKeyFile os st certPath keyPath = (st1, None) ->
    TLSConfigBuilder.certFile (TLSConfigBuilder.self st1) = certPath /\
    TLSConfigBuilder.keyFile (TLSConfigBuilder.self st1) = keyPath /\
    TLSConfigBuilder.cert (TLSConfigBuilder.self st1) = Some c /\
    TLSConfigBuilder.watcher (TLSConfigBuilder.self st1) = Some w /\
    TLSConfigBuilder.loops st1 = TLSConfigBuilder.loops st /\
    (forall os', exists cfg,
        TLSConfigBuilder.ForServer lib os' st1 = Return (st1, cfg) /\
        Certificates cfg = [c]) /\
    (forall os' ev,
        ev_Name ev <> certPath -> ev_Name ev <> keyPath ->
        TLSConfigBuilder.on_event os' st1 ev = st1).
Proof.
  intros lib os st certPath keyPath st1 c w Hc Hw.
  unfold TLSConfigBuilder.SetCertKeyFile.
  destruct (TLSConfigBuilder.FileExists os certPath); [discriminate|].
  destruct (TLSConfigBuilder.FileExists os keyPath); [discriminate|].
  intros [= <-]. simpl.
  split; [reflexivity|]. split; [reflexivity|]. split; [exact Hc|].
  split; [exact Hw|]. split; [reflexivity|]. split.
  - intros os'. rewrite (ForServer_loaded lib os' _ c) by exact Hc.
    unfold TLSConfigBuilder.startWatcher. simpl. rewrite Hw. eauto.
  - intros os' ev Hn1 Hn2. unfold TLSConfigBuilder.on_event, TLSConfigBuilder.qualifies.
    simpl. apply String.eqb_neq in Hn1, Hn2. rewrite Hn1, Hn2.
    now rewrite andb_false_r.
Qed.

Lemma paths_set_after_load_witness :
  exists st1,
    TLSConfigBuilder.SetCertKeyFile Demo.os2 Demo.builder2
      "/etc/tls/app.key" "/etc/tls/app.crt" = (st1, None) /\
    TLSConfigBuilder.cert (TLSConfigBuilder.self st1) = Some Demo.cred1 /\
    TLSConfigBuilder.watcher (TLSConfigBuilder.self st1) = Some Demo.watcher1.
Proof.
  eexists. split; [reflexivity|].
  destruct (paths_set_after_load Demo.lib Demo.os2 Demo.builder2
              "/etc/tls/app.key" "/etc/tls/app.crt" _ Demo.cred1 Demo.watcher1
              eq_refl eq_refl eq_refl) as (_ & _ & Hc & Hw & _).
  split; [exact Hc | exact Hw].
Defined.

(** ** A credential given from memory *)

(** X15. A builder that got its credential from [SetCertKeyFromBytes]
    and has no paths still starts a watcher at the first [ForServer]:
    one goroutine, watching the directory of the empty path. The
    credential is the pair parsed from the bytes, nothing is loaded from
    disk, and no event with a name reloads it. *)
Theorem memory_credential_starts_watcher :
  forall lib os st certPEM keyPEM st1 h,
    TLSConfigBuilder.certFile (TLSConfigBuilder.self st) = "" ->
    TLSConfigBuilder.keyFile (TLSConfigBuilder.self st) = "" ->
    TLSConfigBuilder.watcher (TLSConfigBuilder.self st) = None ->
    TLSConfigBuilder.SetCertKeyFromBytes lib st certPEM keyPEM = (st1, None) ->
    fsnotify_NewWatcher os = Ok h ->
    exists st2 cfg c,
      tls_X509KeyPair lib certPEM keyPEM = Ok c /\
      TLSConfigBuilder.ForServer lib os st1 = Return (st2, cfg) /\
      Certificates cfg = [c] /\
      TLSConfigBuilder.cert (TLSConfigBuilder.self st2) = Some c /\
      TLSConfigBuilder.watcher (TLSConfigBuilder.self st2)
        = Some {| handle := h; dirs := [filepath_Dir lib ""] |} /\
      TLSConfigBuilder.loops st2
        = TLSConfigBuilder.loops st ++ [{| handle := h; dirs := [filepath_Dir lib ""] |}] /\
      (forall os' ev, ev_Name ev <> "" -> TLSConfigBuilder.on_event os' st2 ev = st2).
Proof.
  intros lib os st certPEM keyPEM st1 h Hf Hk Hw.
  unfold TLSConfigBuilder.SetCertKeyFromBytes.
  destruct (tls_X509KeyPair lib certPEM keyPEM) as [c|e]; [|discriminate].
  intros [= <-] Hn.
  eexists _, _, c. split; [reflexivity|].
  rewrite (ForServer_loaded lib os _ c) by reflexivity.
  split; [reflexivity|]. split; [reflexivity|].
  unfold TLSConfigBuilder.startWatcher. simpl. rewrite Hw, Hn, Hf, Hk. simpl.
  unfold dir_set. rewrite decide_True by reflexivity.
  split; [reflexivity|]. split; [reflexivity|]. split; [reflexivity|].
  intros os' ev Hne. unfold TLSConfigBuilder.on_event, TLSConfigBuilder.qualifies.
  simpl. rewrite Hf, Hk. apply String.eqb_neq in Hne. rewrite Hne.
  now rewrite andb_false_r.
Qed.

Lemma memory_credential_starts_watcher_witness :
  exists st2 cfg,
    TLSConfigBuilder.ForServer Demo.lib Demo.os1
      (fst (TLSConfigBuilder.SetCertKeyFromBytes Demo.lib Demo.builder0
              (Demo.pem "cert") (Demo.pem "key"))) = Return (st2, cfg) /\
    TLSConfigBuilder.loops st2 = [{| handle := 1; dirs := ["/etc/tls"] |}].
Proof.
  destruct (memory_credential_starts_watcher Demo.lib Demo.os1 Demo.builder0
              (Demo.pem "cert") (Demo.pem "key") _ 1%nat
              eq_refl eq_refl eq_refl eq_refl eq_refl)
    as (st2 & cfg & c & _ & Hfs & _ & _ & _ & Hl & _).
  exists st2, cfg. split; [exact Hfs | exact Hl].
Defined.

(** ** Which names the directory scan selects *)

Lemma Ext_scan_found mid pre acc :
  Forall plain mid ->
  Ext_scan (mid ++ "."%char :: pre) acc = "."%char :: rev mid ++ acc.
Proof.
  revert acc. induction mid as [|c mid IH]; intros acc Hm; simpl; [reflexivity|].
  inversion Hm as [|? ? [Hd Hs] Hm']; subst.
  unfold IsPathSeparator.
  rewrite (proj2 (Ascii.eqb_neq _ _) Hs), (proj2 (Ascii.eqb_neq _ _) Hd).
  rewrite IH by exact Hm'. now rewrite <- app_assoc.
Qed.

Lemma Ext_scan_inv r :
  forall acc c e,
    Ext_scan r acc = c :: e ->
    exists mid pre, r = mid ++ "."%char :: pre /\ c = "."%char /\ e = rev mid ++ acc.
Proof.
  induction r as [|x r IH]; intros acc c e; simpl; [discriminate|].
  destruct (IsPathSeparator x); [discriminate|].
  destruct (Ascii.eqb x ".") eqn:Hx.
  - apply Ascii.eqb_eq in Hx as ->. intros [= <- <-]. exists [], r. auto.
  - intros H. destruct (IH _ _ _ H) as (mid & pre & -> & -> & ->).
    exists (x :: mid), pre. simpl. rewrite <- app_assoc. auto.
Qed.

Lemma list_ascii_of_string_append (a b : string) :
  list_ascii_of_string (a +:+ b) = list_ascii_of_string a ++ list_ascii_of_string b.
Proof.
  induction a as [|c a IH]; unfold_append; simpl; [reflexivity | now rewrite IH].
Qed.

Lemma string_of_list_ascii_app (l1 l2 : list ascii) :
  string_of_list_ascii (l1 ++ l2) = string_of_list_ascii l1 +:+ string_of_list_ascii l2.
Proof.
  induction l1 as [|c l1 IH]; simpl; unfold_append; [reflexivity | now rewrite IH].
Qed.

Lemma lower_ascii_dot c : lower_ascii c = "."%char -> c = "."%char.
Proof.
  destruct c as [[] [] [] [] [] [] [] []]; vm_compute; congruence.
Qed.

Lemma lower_ascii_letter c x :
  lower_ascii c = x -> x <> "."%char -> x <> "/"%char -> plain c.
Proof.
  intros H Hd Hs. split; intros ->; vm_compute in H; congruence.
Qed.

Lemma ToLower_four ext x :
  strings_ToLower ext = x ->
  String.length x = 4%nat ->
  exists d a b c, ext = String d (String a (String b (String c ""))).
Proof.
  intros <-. destruct ext as [|d [|a [|b [|c [|? ?]]]]]; simpl; try discriminate.
  eauto.
Qed.

Lemma ca_extension_suffix stem a b c :
  let tail := String a (String b (String c "")) in
  strings_ToLower tail = "crt" \/ strings_ToLower tail = "pem" ->
  filepath_Ext (stem +:+ String "." tail) = String "." tail.
Proof.
  intros tail H.
  assert (Hp : plain a /\ plain b /\ plain c).
  { destruct H as [H|H]; simpl in H; injection H as Ha Hb Hc;
      split_and!; eapply lower_ascii_letter; eauto; discriminate. }
  destruct Hp as (Ha & Hb & Hc).
  unfold filepath_Ext. rewrite list_ascii_of_string_append, rev_app_distr.
  assert (E : Ext_scan (rev (list_ascii_of_string (String "." tail))
                          ++ rev (list_ascii_of_string stem)) []
               = "."%char :: rev [c; b; a] ++ []).
  { apply (Ext_scan_found [c; b; a] (rev (list_ascii_of_string stem)) []).
    constructor; [exact Hc|]. constructor; [exact Hb|].
    constructor; [exact Ha|]. constructor. }
  rewrite E. reflexivity.
Qed.

(** X16. The directory scan takes a name exactly when the name ends in
    [.crt] or [.pem], in any mix of upper and lower case: the last four
    bytes of the name, lowered, are one of the two. So [a.crt.bak] and
    [crt] are skipped, and a file named just [.pem] is taken. *)
Theorem ca_extension_iff_suffix :
  forall name,
    TLSConfigBuilder.ca_extension name = true <->
    exists stem ext,
      name = stem +:+ ext /\
      (strings_ToLower ext = ".crt" \/ strings_ToLower ext = ".pem").
Proof.
  intros name. unfold TLSConfigBuilder.ca_extension.
  rewrite orb_true_iff, !String.eqb_eq. split.
  - intros H.
    assert (H4 : String.length (strings_ToLower (filepath_Ext name)) = 4%nat)
      by (destruct H as [-> | ->]; reflexivity).
    unfold filepath_Ext in *.
    destruct (Ext_scan (rev (list_ascii_of_string name)) []) as [|d e] eqn:He;
      [discriminate|].
    destruct (Ext_scan_inv _ _ _ _ He) as (mid & pre & Hr & -> & ->).
    exists (string_of_list_ascii (rev pre)),
           (string_of_list_ascii ("."%char :: rev mid ++ [])).
    split; [|exact H].
    rewrite <- string_of_list_ascii_app, app_nil_r.
    rewrite <- (string_of_list_ascii_of_string name) at 1. f_equal.
    rewrite <- (rev_involutive (list_ascii_of_string name)), Hr.
    rewrite rev_app_distr. simpl. now rewrite <- app_assoc.
  - intros (stem & ext & -> & H).
    assert (H4 : exists d a b c, ext = String d (String a (String b (String c "")))).
    { destruct H as [H|H]; eapply ToLower_four; eauto. }
    destruct H4 as (d & a & b & c & ->).
    assert (Hd : d = "."%char).
    { destruct H as [H|H]; simpl in H; injection H as Hd _; now apply lower_ascii_dot. }
    subst d.
    rewrite ca_extension_suffix.
    + exact H.
    + simpl in H |- *. destruct H as [H|H]; [left|right]; congruence.
Qed.

(** ** [TLS]: one path set, the other not *)

(** X17. [SetCertFile] and [SetKeyFile] of [TLS] are independent: when
    the first succeeds and the second fails, the certificate path stays
    set and the key path stays as it was. With the key path empty,
    [GetTLSConfig] then returns the empty configuration, loads nothing,
    starts no watcher and does not panic, whatever is on disk. A failed
    setter leaves the [TLS] as it was and wraps the error of
    [FileExists]. *)
Theorem TLS_half_configured :
  forall lib os st certfile keyfile st1 st2 e,
    TLS.keyFile (TLS.self st) = "" ->
    TLS.SetCertFile lib os st certfile = (st1, None) ->
    TLS.SetKeyFile lib os st1 keyfile = (st2, Some e) ->
    st2 = st1 /\
    TLS.certFile (TLS.self st2) = certfile /\
    TLS.keyFile (TLS.self st2) = "" /\
    TLS.cert (TLS.self st2) = TLS.cert (TLS.self st) /\
    (exists cause,
        TLS.FileExists lib os keyfile = Some cause /\
        e = Errorf_w "setkeyfile '%s' error: %w" [keyfile] cause) /\
    (forall os', TLS.GetTLSConfig lib os' st2 = Return (st2, new_tls_Config)).
Proof.
  intros lib os st certfile keyfile st1 st2 e Hk.
  unfold TLS.SetCertFile, TLS.SetKeyFile.
  destruct (TLS.FileExists lib os certfile); [discriminate|].
  intros [= <-].
  destruct (TLS.FileExists lib os keyfile) as [cause|]; [|discriminate].
  intros [= <- <-]. simpl.
  split; [reflexivity|]. split; [reflexivity|]. split; [exact Hk|].
  split; [reflexivity|]. split; [eauto|].
  intros os'. apply GetTLSConfig_no_files. right. exact Hk.
Qed.

Lemma TLS_half_configured_witness :
  exists st1 st2 e,
    TLS.SetCertFile Demo.lib Demo.os1 Demo.tls0 "/etc/tls/app.crt" = (st1, None) /\
    TLS.SetKeyFile Demo.lib Demo.os1 st1 "/etc/tls" = (st2, Some e) /\
    TLS.GetTLSConfig Demo.lib Demo.os_broken st2 = Return (st2, new_tls_Config).
Proof.
  eexists _, _, _. split; [reflexivity|]. split; [reflexivity|].
  apply (TLS_half_configured Demo.lib Demo.os1 Demo.tls0 "/etc/tls/app.crt" "/etc/tls"
           _ _ _ eq_refl eq_refl eq_refl).
Defined.

(** ** The directory scan of [TLS] *)

Lemma TLS_AddCADir_loop_load_entries lib os cadirname entries :
  forall st,
    TLS.AddCADir_loop lib os cadirname entries st
    = TLS_load_entries lib os cadirname (List.filter selected entries) st.
Proof.
  induction entries as [|entry more IH]; intros st; simpl; [reflexivity|].
  unfold selected at 1. unfold TLSConfigBuilder.ca_extension.
  destruct (IsRegular (Type_ entry)); simpl; [|apply IH].
  destruct (_ || _); simpl; [|apply IH].
  destruct (TLS.AddCAFile lib os st _) as [st' [e|]]; auto.
Qed.

Lemma TLS_load_entries_error lib os cadirname entries :
  forall st st' err,
    TLS_load_entries lib os cadirname entries st = (st', Some err) ->
    exists pre entry post st_p cause,
      entries = pre ++ entry :: post /\
      TLS_load_entries lib os cadirname pre st = (st_p, None) /\
      TLS.AddCAFile lib os st_p (filepath_Join lib cadirname (Name entry))
        = (st', Some cause) /\
      err = Errorf_w
              "add CA directory: reading contents of client CA file '%s' error -> %w"
              [Name entry] cause.
Proof.
  induction entries as [|entry more IH]; intros st st' err; simpl; [discriminate|].
  destruct (TLS.AddCAFile lib os st _) as [st1 [e|]] eqn:Hf.
  - intros [= <- <-]. exists [], entry, more, st, e. auto.
  - intros H. destruct (IH _ _ _ H) as (pre & en & post & st_p & cause & -> & Hl & Ha & ->).
    exists (entry :: pre), en, post, st_p, cause. simpl. rewrite Hf. auto.
Qed.

Lemma TLS_AddCAFile_error_names lib os st cafile st' err :
  TLS.AddCAFile lib os st cafile = (st', Some err) -> names_path err cafile.
Proof.
  unfold TLS.AddCAFile. destruct (decide (cafile = "")); [discriminate|].
  destruct (os_ReadFile os cafile).
  - destruct (TLS.AddCABytes lib st a) as [s [e|]]; [|discriminate].
    intros [= <- <-]. simpl. apply list_elem_of_singleton. reflexivity.
  - intros [= <- <-]. simpl. apply list_elem_of_singleton. reflexivity.
Qed.

(** X18. [AddCADir] of [TLS], on a directory that can be read, calls
    [AddCAFile] on [filepath.Join(cadirname, name)] for the same entries
    as the builder (regular files ending in [.crt] or [.pem] in any
    case), in the order of the listing, and stops at the first that
    fails. Its error then names the entry, not the path; the path is
    named by the error it wraps. With the empty directory name it does
    nothing, and an unreadable directory leaves the [TLS] as it was. *)
Theorem TLS_AddCADir_loads_selected :
  forall lib os st cadirname,
    (cadirname = "" -> TLS.AddCADir lib os st cadirname = (st, None)) /\
    (forall e,
        cadirname <> "" -> os_ReadDir os cadirname = Err e ->
        TLS.AddCADir lib os st cadirname
        = (st, Some (Errorf_w "add CA directory: error reading '%s' -> %w"
                       [cadirname] e))) /\
    (forall entries,
        cadirname <> "" -> os_ReadDir os cadirname = Ok entries ->
        TLS.AddCADir lib os st cadirname
        = TLS_load_entries lib os cadirname (List.filter selected entries) st /\
        forall st' err,
          TLS.AddCADir lib os st cadirname = (st', Some err) ->
          exists pre entry post st_p cause,
            List.filter selected entries = pre ++ entry :: post /\
            TLS_load_entries lib os cadirname pre st = (st_p, None) /\
            TLS.AddCAFile lib os st_p (filepath_Join lib cadirname (Name entry))
              = (st', Some cause) /\
            names_path err (Name entry) /\
            unwrap err = Some cause /\
            names_path cause (filepath_Join lib cadirname (Name entry))).
Proof.
  intros lib os st cadirname. unfold TLS.AddCADir. split; [|split].
  - intros ->. reflexivity.
  - intros e Hne Hr. destruct (decide (cadirname = "")); [contradiction|].
    now rewrite Hr.
  - intros entries Hne Hr. destruct (decide (cadirname = "")); [contradiction|].
    rewrite Hr, TLS_AddCADir_loop_load_entries. split; [reflexivity|].
    intros st' err H.
    destruct (TLS_load_entries_error _ _ _ _ _ _ _ H)
      as (pre & entry & post & st_p & cause & Hp & Hl & Ha & ->).
    exists pre, entry, post, st_p, cause. split_and!; auto.
    + simpl. apply list_elem_of_singleton. reflexivity.
    + eapply TLS_AddCAFile_error_names; eauto.
Qed.

(** ** [VerifyCertTrusted] *)

Lemma verify_each_nil x certs roots :
  verify_each x certs roots = None <->
  forall c, c ∈ certs -> x509_Verify x c roots = None.
Proof.
  induction certs as [|c certs IH]; simpl.
  - split; [intros _ c Hc; inversion Hc | reflexivity].
  - destruct (x509_Verify x c roots) as [e|] eqn:Hv.
    + split; [discriminate|]. intros H.
      specialize (H c (list_elem_of_here _ _)). congruence.
    + rewrite IH. split.
      * intros H c' Hc'. apply elem_of_cons in Hc' as [-> | Hc']; auto.
      * intros H c' Hc'. apply H. now apply list_elem_of_further.
Qed.

Lemma verify_each_first x pre c post roots e :
  (forall c', c' ∈ pre -> x509_Verify x c' roots = None) ->
  x509_Verify x c roots = Some e ->
  verify_each x (pre ++ c :: post) roots = Some (Errorf_w "cert not trusted: %w" [] e).
Proof.
  induction pre as [|p pre IH]; intros Hpre Hc; simpl.
  - now rewrite Hc.
  - rewrite (Hpre p (list_elem_of_here _ _)). apply IH; [|exact Hc].
    intros c' Hc'. apply Hpre. now apply list_elem_of_further.
Qed.

(** X19. [VerifyCertTrusted] returns nil exactly when the buffer parses
    and every certificate in it verifies against the pool the builder
    has at the time of the call; a buffer that parses to no certificate
    at all is therefore reported as trusted. A parse error is wrapped as
    such, and otherwise the error is that of the first certificate, in
    the order of the buffer, that does not verify: later ones are not
    looked at. *)
Theorem VerifyCertTrusted_cases :
  forall x st certPEM,
    (VerifyCertTrusted x st certPEM = None <->
     exists certs,
       x509_ParseCertificates x certPEM = Ok certs /\
       forall c, c ∈ certs -> x509_Verify x c (TLSConfigBuilder.pool st) = None) /\
    (x509_ParseCertificates x certPEM = Ok [] -> VerifyCertTrusted x st certPEM = None) /\
    (forall e,
        x509_ParseCertificates x certPEM = Err e ->
        VerifyCertTrusted x st certPEM = Some (Errorf_w "parse cert: %w" [] e)) /\
    (forall pre c post e,
        x509_ParseCertificates x certPEM = Ok (pre ++ c :: post) ->
        (forall c', c' ∈ pre -> x509_Verify x c' (TLSConfigBuilder.pool st) = None) ->
        x509_Verify x c (TLSConfigBuilder.pool st) = Some e ->
        VerifyCertTrusted x st certPEM = Some (Errorf_w "cert not trusted: %w" [] e)).
Proof.
  intros x st certPEM. unfold VerifyCertTrusted. split; [|split; [|split]].
  - destruct (x509_ParseCertificates x certPEM) as [certs|e].
    + rewrite verify_each_nil. split.
      * intros H. exists certs. auto.
      * intros (certs' & [= <-] & H). exact H.
    + split; [discriminate|]. intros (certs & Hc & _). discriminate.
  - intros ->. reflexivity.
  - intros e ->. reflexivity.
  - intros pre c post e -> Hpre Hc. now apply verify_each_first.
Qed.

(** ** The two kinds of configuration *)

(** X20. A server configuration never has root CAs or
    [InsecureSkipVerify]; a client configuration never has client CAs or
    a client-auth policy; both ask for TLS 1.2 at least. A client
    configuration made after [ForServer] has returned carries the same
    certificate list, one certificate at most, and its roots are the
    pool the server configuration uses for client certificates. *)
Theorem server_and_client_configs :
  forall lib os st st' cfg,
    TLSConfigBuilder.ForServer lib os st = Return (st', cfg) ->
    RootCAs cfg = None /\
    InsecureSkipVerify cfg = false /\
    MinVersion cfg = VersionTLS12 /\
    ClientCAs cfg = Some (TLSConfigBuilder.ca (TLSConfigBuilder.self st)) /\
    ClientAuth cfg = AuthType (TLSConfigBuilder.clientAuth (TLSConfigBuilder.self st)) /\
    (length (Certificates cfg) <= 1)%nat /\
    Certificates (TLSConfigBuilder.ForClient st') = Certificates cfg /\
    RootCAs (TLSConfigBuilder.ForClient st') = ClientCAs cfg /\
    ClientCAs (TLSConfigBuilder.ForClient st') = None /\
    ClientAuth (TLSConfigBuilder.ForClient st') = 0%Z /\
    MinVersion (TLSConfigBuilder.ForClient st') = VersionTLS12 /\
    InsecureSkipVerify (TLSConfigBuilder.ForClient st')
      = TLSConfigBuilder.insecure (TLSConfigBuilder.self st).
Proof.
  intros lib os st st' cfg H.
  assert (Hcl : forall s c,
             TLSConfigBuilder.cert (TLSConfigBuilder.self s) = c ->
             Certificates (TLSConfigBuilder.ForClient s)
               = match c with Some x => [x] | None => [] end /\
             RootCAs (TLSConfigBuilder.ForClient s)
               = Some (TLSConfigBuilder.ca (TLSConfigBuilder.self s)) /\
             ClientCAs (TLSConfigBuilder.ForClient s) = None /\
             ClientAuth (TLSConfigBuilder.ForClient s) = 0%Z /\
             MinVersion (TLSConfigBuilder.ForClient s) = VersionTLS12 /\
             InsecureSkipVerify (TLSConfigBuilder.ForClient s)
               = TLSConfigBuilder.insecure (TLSConfigBuilder.self s)).
  { intros s c Hc. unfold TLSConfigBuilder.ForClient, TLSConfigBuilder.injectClientCert.
    rewrite Hc. destruct c; simpl; split_and!; reflexivity. }
  assert (Hsw : forall s,
             TLSConfigBuilder.ca (TLSConfigBuilder.self (TLSConfigBuilder.startWatcher lib os s))
               = TLSConfigBuilder.ca (TLSConfigBuilder.self s) /\
             TLSConfigBuilder.insecure
               (TLSConfigBuilder.self (TLSConfigBuilder.startWatcher lib os s))
               = TLSConfigBuilder.insecure (TLSConfigBuilder.self s)).
  { intros s. unfold TLSConfigBuilder.startWatcher.
    destruct (TLSConfigBuilder.watcher _); [auto|].
    destruct (fsnotify_NewWatcher os); auto. }
  destruct (TLSConfigBuilder.cert (TLSConfigBuilder.self st)) as [c|] eqn:Hc.
  - rewrite (ForServer_loaded _ _ _ _ Hc) in H. injection H as <- <-.
    destruct (Hcl (TLSConfigBuilder.startWatcher lib os st) (Some c))
      as (H1 & H2 & H3 & H4 & H5 & H6).
    { now rewrite startWatcher_cert. }
    destruct (Hsw st) as [Hca Hin]. rewrite Hca in H2. rewrite Hin in H6.
    simpl. split_and!; auto.
  - destruct (decide (TLSConfigBuilder.certFile (TLSConfigBuilder.self st) = ""))
      as [Hf|Hf]; [|destruct (decide (TLSConfigBuilder.keyFile (TLSConfigBuilder.self st) = ""))
      as [Hk|Hk]].
    + rewrite ForServer_no_source in H by (split; auto). injection H as <- <-.
      destruct (Hcl st None Hc) as (H1 & H2 & H3 & H4 & H5 & H6).
      simpl. split_and!; auto.
    + rewrite ForServer_no_source in H by (split; auto). injection H as <- <-.
      destruct (Hcl st None Hc) as (H1 & H2 & H3 & H4 & H5 & H6).
      simpl. split_and!; auto.
    + rewrite ForServer_first_load in H by auto.
      destruct (tls_LoadX509KeyPair os _ _) as [c|e]; [|discriminate].
      injection H as <- <-.
      set (s1 := TLSConfigBuilder.with_self st
                   (TLSConfigBuilder.cert_Store (TLSConfigBuilder.self st) c)).
      destruct (Hcl (TLSConfigBuilder.startWatcher lib os s1) (Some c))
        as (H1 & H2 & H3 & H4 & H5 & H6).
      { now rewrite startWatcher_cert. }
      destruct (Hsw s1) as [Hca Hin]. rewrite Hca in H2. rewrite Hin in H6.
      simpl. split_and!; auto.
Qed.

Lemma server_and_client_configs_witness :
  exists st' cfg,
    TLSConfigBuilder.ForServer Demo.lib Demo.os1 Demo.builder1 = Return (st', cfg) /\
    Certificates (TLSConfigBuilder.ForClient st') = Certificates cfg /\
    Certificates cfg = [Demo.cred1].
Proof.
  destruct (TLSConfigBuilder.ForServer Demo.lib Demo.os1 Demo.builder1)
    as [[st' cfg]|e] eqn:H; [|vm_compute in H; discriminate H].
  exists st', cfg. split; [reflexivity|].
  destruct (server_and_client_configs _ _ _ _ _ H)
    as (_ & _ & _ & _ & _ & _ & Hc & _).
  split; [exact Hc|]. vm_compute in H. injection H as _ <-. reflexivity.
Defined.

(** ** A new builder *)

(** X21. [NewTLSConfigBuilder] fails only when the system pool was
    asked for and cannot be read. The builder it returns has the system
    pool, or an empty pool when none was asked for or the system has
    none; it has no credential, so [ForServer] returns a configuration
    without certificate that asks for no client certificate, reads
    nothing from disk and starts no watcher, and [Close] does nothing.
    The same for [NewTLS] and [GetTLSConfig], whose configuration is
    then the empty one. *)
Theorem new_builder_defaults :
  forall lib os useSystemCA,
    (forall e,
        TLSConfigBuilder.NewTLSConfigBuilder os useSystemCA = Err e <->
        useSystemCA = true /\
        exists cause,
          x509_SystemCertPool os = Err cause /\
          e = Errorf_w "system cert pool: %w" [] cause) /\
    (forall st,
        TLSConfigBuilder.NewTLSConfigBuilder os useSystemCA = Ok st ->
        TLSConfigBuilder.pool st
          = (if useSystemCA then
               match x509_SystemCertPool os with
               | Ok (Some p) => p
               | _ => NewCertPool
               end
             else NewCertPool) /\
        (forall os',
            TLSConfigBuilder.ForServer lib os' st
            = Return (st,
                      {| Certificates := []; RootCAs := None;
                         ClientCAs := Some (TLSConfigBuilder.ca (TLSConfigBuilder.self st));
                         ClientAuth := 0%Z; MinVersion := VersionTLS12;
                         InsecureSkipVerify := false |})) /\
        TLSConfigBuilder.ForClient st
          = {| Certificates := [];
               RootCAs := Some (TLSConfigBuilder.ca (TLSConfigBuilder.self st));
               ClientCAs := None; ClientAuth := 0%Z; MinVersion := VersionTLS12;
               InsecureSkipVerify := false |} /\
        TLSConfigBuilder.Close st = Return st /\
        TLSConfigBuilder.loops st = [] /\
        TLSConfigBuilder.stderr st = []) /\
    (forall e,
        TLS.NewTLS os useSystemCA = Err e <->
        useSystemCA = true /\
        exists cause,
          x509_SystemCertPool os = Err cause /\ e = Errorf_w "new tls: %w" [] cause) /\
    (forall st,
        TLS.NewTLS os useSystemCA = Ok st ->
        TLS.pool st
          = (if useSystemCA then
               match x509_SystemCertPool os with
               | Ok (Some p) => p
               | _ => NewCertPool
               end
             else NewCertPool) /\
        (forall os', TLS.GetTLSConfig lib os' st = Return (st, new_tls_Config)) /\
        TLS.Close st = Return st /\
        TLS.loops st = [] /\
        TLS.stderr st = []).
Proof.
  intros lib os useSystemCA. split; [|split; [|split]].
  - intros e. unfold TLSConfigBuilder.NewTLSConfigBuilder.
    destruct useSystemCA; [destruct (x509_SystemCertPool os) as [[p|]|cause]|].
    + split; [discriminate | intros (_ & c & [=] & _)].
    + split; [discriminate | intros (_ & c & [=] & _)].
    + split.
      * intros [= <-]. eauto.
      * intros (_ & c & [= <-] & ->). reflexivity.
    + split; [discriminate | intros ([=] & _)].
  - intros st. unfold TLSConfigBuilder.NewTLSConfigBuilder.
    destruct useSystemCA; [destruct (x509_SystemCertPool os) as [[p|]|cause]|];
      intros [= <-]; (split; [reflexivity|]);
      (split; [intros os'; rewrite ForServer_no_source by (split; simpl; auto);
               reflexivity|]);
      split_and!; reflexivity.
  - intros e. unfold TLS.NewTLS.
    destruct useSystemCA; [destruct (x509_SystemCertPool os) as [[p|]|cause]|].
    + split; [discriminate | intros (_ & c & [=] & _)].
    + split; [discriminate | intros (_ & c & [=] & _)].
    + split.
      * intros [= <-]. eauto.
      * intros (_ & c & [= <-] & ->). reflexivity.
    + split; [discriminate | intros ([=] & _)].
  - intros st. unfold TLS.NewTLS.
    destruct useSystemCA; [destruct (x509_SystemCertPool os) as [[p|]|cause]|];
      intros [= <-]; (split; [reflexivity|]);
      (split; [intros os'; rewrite GetTLSConfig_no_files by (simpl; auto);
               reflexivity|]);
      split_and!; reflexivity.
Qed.
